(** * Reconciliation engine of the gaming finance dashboard (app.py)

    A shallow embedding of [validate_file], [reconcile_metric],
    [reconcile_login] and the "Run Reconciliation" handler of [app.py],
    together with the properties the specification states about them.

    pandas objects are mutable and shared by reference, so data frames live
    in a store and the functions of [app.py] are programs of a small state
    and exception monad over that store, the diagnostics log, the files on
    disk and the widgets shown to the user.

    Scope of the embedding.  Every table is keyed by its [PlayerID] column,
    the first one, which each row carries next to the cells of the value
    columns; the value columns of a table share one value type, with the
    subtraction of line 50 of [app.py], which raises [TypeError] where the
    values have no difference (text), and the comparison with zero of
    line 51.  A file either parses or does not, at the sample read and at
    the full read alike.  The time stamp that [log_msg] puts in front of a
    message is left out of the log. *)

From Stdlib Require Import ZArith NArith Ascii Lia.
From stdpp Require Import base option list strings sorting gmap.

(** ** Exceptions and results *)

Inductive exn :=
  | KeyError (what : string)
  | FileNotFoundError (path : string)
  | ValueError (msg : string)
  | TypeError (msg : string)
  | ParserError (msg : string)
  | InvalidReference.

Inductive result (A : Type) :=
  | Ok (a : A)
  | Raise (e : exn).
Arguments Ok {A} a.
Arguments Raise {A} e.

Definition result_bind {A B} (r : result A) (k : A → result B) : result B :=
  match r with
  | Ok a => k a
  | Raise e => Raise e
  end.

(** [str(e)] *)
Definition exn_text (e : exn) : string :=
  match e with
  | KeyError what => what
  | FileNotFoundError path =>
      "[Errno 2] No such file or directory: '" +:+ path +:+ "'"
  | ValueError msg => msg
  | TypeError msg => msg
  | ParserError msg => msg
  | InvalidReference => "invalid reference"
  end.

(** ** Value types *)

(** A numeric dtype: [a - b] and [d != 0]. *)
Class Numeric (V : Type) := {
  sub : V → V → V;
  nonzero : V → bool
}.

(** Elementwise [a - b] of numeric cells; a null operand gives a null. *)
Definition sub_cell {V} `{Numeric V} (a b : option V) : option V :=
  match a, b with
  | Some a, Some b => Some (sub a b)
  | _, _ => None
  end.

(** The operations [reconcile_metric] needs from the dtype of a metric
    column, whatever it is: [a - b], which raises where the operands have
    no difference, and [d != 0]. *)
Class Dtype (V : Type) := {
  minus : V → V → result V;
  differs : V → bool
}.

(** A numeric dtype always has the difference. *)
#[export] Instance numeric_dtype {V} `{Numeric V} : Dtype V :=
  {| minus a b := Ok (sub a b); differs := nonzero |}.

(** 64-bit integer columns: subtraction wraps around as in numpy. *)
Module Int64.
Definition modulus : Z := 2 ^ 64.
Definition half_modulus : Z := 2 ^ 63.
Definition wrap (z : Z) : Z :=
  (z + half_modulus) mod modulus - half_modulus.
Definition in_range (z : Z) : Prop := (- half_modulus ≤ z < half_modulus)%Z.
Definition sub (a b : Z) : Z := wrap (a - b).
Definition nonzero (d : Z) : bool := negb (d =? 0)%Z.
End Int64.

#[export] Instance int64_numeric : Numeric Z :=
  {| sub := Int64.sub; nonzero := Int64.nonzero |}.

(** The values of the columns that [read_csv] reads: a 64-bit integer, or
    text (a date such as [2024-01-31], a name), which is a [str] in a
    column of object dtype. *)
Inductive Scalar :=
  | Int (z : Z)
  | Text (s : string).

(** The type name in the message of the [TypeError] of [a - b]. *)
Definition operand_type (c : Scalar) : string :=
  match c with
  | Int _ => "int"
  | Text _ => "str"
  end.

Definition unsupported_operands (a b : Scalar) : exn :=
  TypeError ("unsupported operand type(s) for -: '" +:+ operand_type a
             +:+ "' and '" +:+ operand_type b +:+ "'").

(** Integers have a difference, and text has a difference with nothing. *)
#[export] Instance scalar_dtype : Dtype Scalar :=
  {| minus a b :=
       match a, b with
       | Int x, Int y => Ok (Int (Int64.sub x y))
       | _, _ => Raise (unsupported_operands a b)
       end;
     differs d :=
       match d with
       | Int z => Int64.nonzero z
       | Text _ => true
       end |}.

(** ** Small string and list helpers *)

(** [sep.join(l)] *)
Fixpoint join_with (sep : string) (l : list string) : string :=
  match l with
  | [] => ""
  | [s] => s
  | s :: l' => s +:+ sep +:+ join_with sep l'
  end.

(** [os.path.basename]: what follows the last slash. *)
Fixpoint basename_go (acc : string) (s : string) : string :=
  match s with
  | EmptyString => String.rev acc
  | String c s' =>
      if Ascii.eqb c "/"%char then basename_go "" s'
      else basename_go (String c acc) s'
  end.
Definition basename (path : string) : string := basename_go "" path.

(** The last character of a name. *)
Fixpoint last_char (s : string) : option ascii :=
  match s with
  | EmptyString => None
  | String c EmptyString => Some c
  | String _ s' => last_char s'
  end.

(** Position of the first column called [c]. *)
Fixpoint col_pos (c : string) (cols : list string) : option nat :=
  match cols with
  | [] => None
  | c' :: cols' => if decide (c = c') then Some 0 else S <$> col_pos c cols'
  end.

(** [l[:n]] and [l[n:]] with a binary count. *)
Fixpoint take_N {A} (n : N) (l : list A) : list A :=
  match l with
  | [] => []
  | x :: l' => if (n =? 0)%N then [] else x :: take_N (N.pred n) l'
  end.

Fixpoint drop_N {A} (n : N) (l : list A) : list A :=
  match l with
  | [] => []
  | x :: l' => if (n =? 0)%N then l else drop_N (N.pred n) l'
  end.

(** [l[i:j]] for [0 <= i <= j]. *)
Definition slice {A} (l : list A) (i j : N) : list A :=
  take_N (j - i) (drop_N i l).

(** [range(i, stop, step)] for a positive [step]; [fuel] bounds the number
    of elements, and [stop] of it is enough for the whole range. *)
Fixpoint range_from (fuel : nat) (i stop : N) (step : positive) : list N :=
  match fuel with
  | O => []
  | S fuel' =>
      if (i <? stop)%N then i :: range_from fuel' (i + Npos step) stop step
      else []
  end.

Definition range (stop : N) (step : positive) : list N :=
  range_from (N.to_nat stop) 0 stop step.

(** Elements in the order of their first occurrence
    ([Index.unique], [Series.unique]). *)
Fixpoint unique {A} `{EqDecision A} (l : list A) : list A :=
  match l with
  | [] => []
  | x :: l' => x :: filter (λ y, y ≠ x) (unique l')
  end.

Section frames.
Context {K : Type} `{EqDecision K} {V : Type} `{Dtype V}.

(** ** Tables *)

(** A row: its player key and the cells of the value columns, by position;
    [None] is a null (NaN), and a cell past the end of [vals] is null. *)
Record Row := { PlayerID : option K; vals : list (option V) }.

(** A frame with a key and value columns.  [indexed = false]: the default
    positional index, [PlayerID] is a column.  [indexed = true]: [PlayerID]
    is the index (after [set_index("PlayerID")]). *)
Record Frame := {
  indexed : bool;
  columns : list string;
  rows : list Row
}.

Definition cell (r : Row) (i : nat) : option V := mjoin (vals r !! i).

(** The cells of a row under the columns of its frame. *)
Definition cells (f : Frame) (r : Row) : list (option V) :=
  cell r <$> seq 0 (length (columns f)).

(** A cell of a report: reports mix keys, numbers and text. *)
Inductive Cell :=
  | NaN
  | Key (k : K)
  | Num (v : V)
  | Str (s : string).

(** A report frame ([mismatches] once tagged, the result of
    [reconcile_login], [all_ex]); its index is always positional. *)
Record DataFrame := {
  df_columns : list string;
  df_rows : list (list Cell)
}.

(** [pd.DataFrame()] *)
Definition empty_DataFrame : DataFrame :=
  {| df_columns := []; df_rows := [] |}.

Definition key_cell (k : option K) : Cell :=
  match k with Some k => Key k | None => NaN end.
Definition num_cell (v : option V) : Cell :=
  match v with Some v => Num v | None => NaN end.

(** ** Pure frame operations *)

(** [df[["PlayerID", metric]]], where [metric] may be any column name.
    Asked for the key twice, pandas builds a frame with two [PlayerID]
    columns, which [set_index("PlayerID")] then rejects; no [Frame] stands
    for such a table and the model raises that error here. *)
Definition getitem (metric : string) (f : Frame) : result Frame :=
  if indexed f then Raise (KeyError "PlayerID")
  else if decide (metric = "PlayerID")
  then Raise (ValueError "Index data must be 1-dimensional")
  else match col_pos metric (columns f) with
       | None => Raise (KeyError metric)
       | Some i =>
           Ok {| indexed := false;
                 columns := [metric];
                 rows := (λ r, {| PlayerID := PlayerID r;
                                  vals := [cell r i] |}) <$> rows f |}
       end.

(** A row without nulls in the columns of [f]. *)
Definition complete (f : Frame) (r : Row) : bool :=
  (indexed f || bool_decide (is_Some (PlayerID r)))
  && forallb (λ c, bool_decide (is_Some c)) (cells f r).

(** [df.dropna()] *)
Definition dropna (f : Frame) : result Frame :=
  Ok {| indexed := indexed f;
        columns := columns f;
        rows := filter (λ r, complete f r) (rows f) |}.

(** [df.set_index("PlayerID")] *)
Definition set_index (f : Frame) : result Frame :=
  if indexed f then Raise (KeyError "PlayerID")
  else Ok {| indexed := true; columns := columns f; rows := rows f |}.

(** What lines 36 and 38 (37 and 39) make of the projection [g]: its rows
    without nulls, indexed by [PlayerID]. *)
Definition indexed_copy (g : Frame) : Frame :=
  {| indexed := true;
     columns := columns g;
     rows := filter (λ r, complete g r) (rows g) |}.

(** [df.index] of a frame indexed by [PlayerID]: the labels, in row order. *)
Definition index (f : Frame) : list (option K) := PlayerID <$> rows f.

(** [a.intersection(b)]: the distinct labels of [a] that occur in [b], in
    the order of [a]. *)
Definition intersection (a b : list (option K)) : list (option K) :=
  filter (λ k, k ∈ b) (unique a).

(** The rows of [f] labelled [k]. *)
Definition rows_at (f : Frame) (k : option K) : list Row :=
  filter (λ r, PlayerID r = k) (rows f).

(** [df.loc[ids]]: for each label in turn, the rows that carry it; a label
    that no row carries is a [KeyError]. *)
Fixpoint loc_rows (f : Frame) (ids : list (option K)) : result (list Row) :=
  match ids with
  | [] => Ok []
  | k :: ids' =>
      match rows_at f k with
      | [] => Raise (KeyError "label not in index")
      | rs => result_bind (loc_rows f ids') (λ rest, Ok (rs ++ rest))
      end
  end.

Definition loc (ids : list (option K)) (f : Frame) : result Frame :=
  result_bind (loc_rows f ids) (λ rs,
    Ok {| indexed := indexed f; columns := columns f; rows := rs |}).

(** Column names of a join: a name that both sides have gets the suffix
    of its side. *)
Definition suffixed (suffix : string) (others : list string) (c : string)
  : string :=
  if bool_decide (c ∈ others) then c +:+ suffix else c.

(** [left.join(right, lsuffix=.., rsuffix=..)]: left join on the index.
    Every left row, in order, is paired with the right rows of its label,
    in their order, or with nulls when there is none. *)
Definition join (lsuffix rsuffix : string) (left right : Frame) : Frame :=
  {| indexed := indexed left;
     columns := (suffixed lsuffix (columns right) <$> columns left)
                ++ (suffixed rsuffix (columns left) <$> columns right);
     rows :=
       l ← rows left;
       match rows_at right (PlayerID l) with
       | [] => [ {| PlayerID := PlayerID l;
                    vals := cells left l
                            ++ replicate (length (columns right)) None |} ]
       | ms => (λ r, {| PlayerID := PlayerID l;
                        vals := cells left l ++ cells right r |}) <$> ms
       end |}.

(** [a - b] on two cells: a null operand gives a null, whatever the other
    operand is. *)
Definition minus_cell (a b : option V) : result (option V) :=
  match a, b with
  | Some a, Some b => result_bind (minus a b) (λ d, Ok (Some d))
  | _, _ => Ok None
  end.

(** Elementwise [a - b] of the columns at [i] and [j], row by row: the
    first pair of values without a difference raises. *)
Fixpoint minus_rows (i j : nat) (rs : list Row) : result (list (option V)) :=
  match rs with
  | [] => Ok []
  | r :: rs' =>
      result_bind (minus_cell (cell r i) (cell r j)) (λ d,
      result_bind (minus_rows i j rs') (λ ds, Ok (d :: ds)))
  end.

(** Elementwise [d != 0]; a null is different from zero. *)
Definition ne0_cell (d : option V) : bool :=
  match d with
  | Some d => differs d
  | None => true
  end.

(** A row with the cell [d] under [name]: an existing column is
    overwritten, a new one is added at the right. *)
Definition set_cell (name : string) (f : Frame) (r : Row) (d : option V)
  : Row :=
  {| PlayerID := PlayerID r;
     vals := match col_pos name (columns f) with
             | Some p => <[p := d]> (cells f r)
             | None => cells f r ++ [d]
             end |}.

(** [df[name] = column], the column having a cell for each row. *)
Definition setitem (name : string) (column : list (option V)) (f : Frame)
  : Frame :=
  {| indexed := indexed f;
     columns := match col_pos name (columns f) with
                | Some _ => columns f
                | None => columns f ++ [name]
                end;
     rows := zip_with (set_cell name f) (rows f) column |}.

(** [df[name] = df[a] - df[b]] *)
Definition setitem_diff (name a b : string) (f : Frame) : result Frame :=
  match col_pos a (columns f) with
  | None => Raise (KeyError a)
  | Some i =>
      match col_pos b (columns f) with
      | None => Raise (KeyError b)
      | Some j =>
          result_bind (minus_rows i j (rows f)) (λ diff,
          Ok (setitem name diff f))
      end
  end.

(** [df[df[name] != 0]] *)
Definition filter_ne0 (name : string) (f : Frame) : result Frame :=
  match col_pos name (columns f) with
  | None => Raise (KeyError name)
  | Some p =>
      Ok {| indexed := indexed f;
            columns := columns f;
            rows := filter (λ r, ne0_cell (cell r p)) (rows f) |}
  end.

(** [df.reset_index()] of a frame indexed by [PlayerID]: the key is an
    ordinary column again, in front of the others. *)
Definition reset_index (f : Frame) : Frame :=
  {| indexed := false; columns := columns f; rows := rows f |}.

(** The report frame of a frame whose key is a column. *)
Definition to_DataFrame (f : Frame) : DataFrame :=
  {| df_columns := "PlayerID" :: columns f;
     df_rows := (λ r, key_cell (PlayerID r) :: (num_cell <$> cells f r))
                <$> rows f |}.

(** The cell of a report row under column [c] of [cols]. *)
Definition df_get (cols : list string) (row : list Cell) (c : string) : Cell :=
  match col_pos c cols with
  | Some i => default NaN (row !! i)
  | None => NaN
  end.

(** A report row laid out under [cols]. *)
Definition pad_row (cols : list string) (row : list Cell) : list Cell :=
  (λ i, default NaN (row !! i)) <$> seq 0 (length cols).

(** [df[name] = text] on a report frame. *)
Definition setitem_const (name text : string) (d : DataFrame) : DataFrame :=
  {| df_columns := match col_pos name (df_columns d) with
                   | Some _ => df_columns d
                   | None => df_columns d ++ [name]
                   end;
     df_rows := (λ row, match col_pos name (df_columns d) with
                        | Some p => <[p := Str text]> (pad_row (df_columns d) row)
                        | None => pad_row (df_columns d) row ++ [Str text]
                        end) <$> df_rows d |}.

(** Column names of a concatenation: every name once, in the order of its
    first appearance. *)
Definition union_columns (ds : list DataFrame) : list string :=
  unique (d ← ds; df_columns d).

(** [pd.concat(ds, ignore_index=True)] for a non-empty [ds]: the rows of the
    frames one after the other, each laid out under the union of the
    columns, null where its frame has no such column. *)
Definition concat (ds : list DataFrame) : DataFrame :=
  {| df_columns := union_columns ds;
     df_rows := d ← ds;
                (λ row, df_get (df_columns d) row <$> union_columns ds)
                <$> df_rows d |}.

(** [pd.concat(result, ignore_index=True) if result else pd.DataFrame()] *)
Definition concat_or_empty (ds : list DataFrame) : DataFrame :=
  match ds with
  | [] => empty_DataFrame
  | _ => concat ds
  end.

(** The work on one batch, lines 46 to 52, as a function of the frames. *)
Definition batch_report (metric : string) (P Q : Frame)
    (ids : list (option K)) : result DataFrame :=
  result_bind (loc ids P) (λ pre_chunk,
  result_bind (loc ids Q) (λ post_chunk,
  result_bind (setitem_diff "diff" (metric +:+ "_pre") (metric +:+ "_post")
                 (join "_pre" "_post" pre_chunk post_chunk)) (λ merged,
  result_bind (filter_ne0 "diff" merged) (λ mismatches,
  Ok (setitem_const "Metric" metric
        (to_DataFrame (reset_index mismatches))))))).

End frames.

Arguments Row : clear implicits.
Arguments Frame : clear implicits.
Arguments Cell : clear implicits.
Arguments DataFrame : clear implicits.

Section closed_forms.
Context {K : Type} `{EqDecision K} {V : Type} `{Numeric V}.

Local Abbreviation Row := (Row K V).
Local Abbreviation Frame := (Frame K V).
Local Abbreviation Cell := (Cell K V).
Local Abbreviation DataFrame := (DataFrame K V).

(** ** What the engine computes, in closed form *)

(** The columns of the report of [reconcile_metric]. *)
Definition report_columns (metric : string) : list string :=
  ["PlayerID"; metric +:+ "_pre"; metric +:+ "_post"; "diff"; "Metric"].

(** [df[name] = column] with the cell of each row given by [g]. *)
Definition setitem_with (name : string) (g : Row → option V) (f : Frame)
  : Frame :=
  {| indexed := indexed f;
     columns := match col_pos name (columns f) with
                | Some _ => columns f
                | None => columns f ++ [name]
                end;
     rows := (λ r, {| PlayerID := PlayerID r;
                      vals := match col_pos name (columns f) with
                              | Some p => <[p := g r]> (cells f r)
                              | None => cells f r ++ [g r]
                              end |}) <$> rows f |}.

(** The rows that [reconcile_metric] reports for the label [k], given the
    two indexed single-column frames: one for each pair of a [P] row and a
    [Q] row with that label whose difference is not zero. *)
Definition pair_rows (metric : string) (P Q : Frame) (k : option K)
  : list (list Cell) :=
  l ← rows_at P k;
  r ← rows_at Q k;
  let d := sub_cell (cell l 0) (cell r 0) in
  if ne0_cell d
  then [[key_cell k; num_cell (cell l 0); num_cell (cell r 0); num_cell d;
         Str metric]]
  else [].

(** The report for the labels [ids] without batches. *)
Definition metric_report (metric : string) (P Q : Frame)
    (ids : list (option K)) : DataFrame :=
  match ids with
  | [] => empty_DataFrame
  | _ => {| df_columns := report_columns metric;
            df_rows := ids ≫= pair_rows metric P Q |}
  end.

(** The rows of the indexed copy of a table, in terms of the rows [rs] of
    the table and the position [i] of the metric. *)
Definition projection_rows (i : nat) (rs : list Row) : list Row :=
  filter (λ r, is_Some (PlayerID r) ∧ is_Some (cell r 0))
         ((λ r, {| PlayerID := PlayerID r; vals := [cell r i] |}) <$> rs).

(** ** The tables in the words of the specification *)

(** [t] is a table keyed by its [PlayerID] column and [metric] is one of
    its value columns. *)
Definition has_metric (t : Frame) (metric : string) : Prop :=
  indexed t = false ∧ metric ≠ "PlayerID" ∧ metric ∈ columns t.

(** The cell of row [r] of [t] under [metric]. *)
Definition value_of (t : Frame) (metric : string) (r : Row) : option V :=
  col_pos metric (columns t) ≫= cell r.

(** Key [k] has the non-null value [v] for [metric] in [t]. *)
Definition has_value (t : Frame) (metric : string) (k : K) (v : V) : Prop :=
  ∃ r, r ∈ rows t ∧ PlayerID r = Some k ∧ value_of t metric r = Some v.

(** The non-null values of key [k] for [metric], in row order. *)
Definition values_at (t : Frame) (metric : string) (k : K) : list V :=
  omap (λ r, if decide (PlayerID r = Some k) then value_of t metric r
             else None) (rows t).

(** The keys of the rows with a key and a non-null [metric], in row
    order. *)
Definition keys_with_value (t : Frame) (metric : string) : list K :=
  omap (λ r, k ← PlayerID r; _ ← value_of t metric r; Some k) (rows t).

(** The keys common to both tables: those of [pre], each once, in the
    order of [pre], that [post] has too. *)
Definition common_keys (pre post : Frame) (metric : string) : list K :=
  filter (λ k, k ∈ keys_with_value post metric)
         (unique (keys_with_value pre metric)).

(** A numeric-diff exception row. *)
Definition exception_row (metric : string) (k : K) (a b : V) : list Cell :=
  [Key k; Num a; Num b; Num (sub a b); Str metric].

(** The exception rows of one key. *)
Definition key_exceptions (pre post : Frame) (metric : string) (k : K)
  : list (list Cell) :=
  a ← values_at pre metric k;
  b ← values_at post metric k;
  if nonzero (sub a b) then [exception_row metric k a b] else [].

(** The exception rows of two tables. *)
Definition exception_rows (pre post : Frame) (metric : string)
  : list (list Cell) :=
  common_keys pre post metric ≫= key_exceptions pre post metric.

(** The report of two tables: without a common key, [pd.DataFrame()]. *)
Definition exception_report (pre post : Frame) (metric : string)
  : DataFrame :=
  match common_keys pre post metric with
  | [] => empty_DataFrame
  | _ => {| df_columns := report_columns metric;
            df_rows := exception_rows pre post metric |}
  end.

End closed_forms.

(** ** The world of a run *)

(** A reference to a frame. *)
Definition ref := nat.

(** What a file on disk holds: text that [read_csv] rejects with a message,
    whatever [nrows] is, or a table with its value columns and rows. *)
Inductive Content (K V : Type) :=
  | Garbage (err : string)
  | Csv (cols : list string) (body : list (Row K V)).
Arguments Garbage {K V} err.
Arguments Csv {K V} cols body.

(** What the page shows. *)
Inductive Widget (K V : Type) :=
  | StError (msg : string)
  | Summary (preparer reviewer ts : string) (total : nat)
            (metrics : list string)
  | StDataframe (d : DataFrame K V)
  | DownloadButton (file_name : string) (data : DataFrame K V)
  | NoMismatches (preparer reviewer ts : string).
Arguments StError {K V} msg.
Arguments Summary {K V} preparer reviewer ts total metrics.
Arguments StDataframe {K V} d.
Arguments DownloadButton {K V} file_name data.
Arguments NoMismatches {K V} preparer reviewer ts.

Record World (K V : Type) := {
  heap : list (Frame K V);          (* the frames, by reference *)
  log : list string;                (* logs/internal_errors.txt, oldest first *)
  files : gmap string (Content K V);(* the working directory *)
  ui : list (Widget K V)            (* the page, in display order *)
}.
Arguments heap {K V} w.
Arguments log {K V} w.
Arguments files {K V} w.
Arguments ui {K V} w.

Section programs.
Context {K : Type} `{EqDecision K} {V : Type} `{Dtype V}.

Local Abbreviation Frame := (Frame K V).
Local Abbreviation DataFrame := (DataFrame K V).
Local Abbreviation World := (World K V).

Definition set_heap (h : list Frame) (w : World) : World :=
  {| heap := h; log := log w; files := files w; ui := ui w |}.
Definition set_log (l : list string) (w : World) : World :=
  {| heap := heap w; log := l; files := files w; ui := ui w |}.
Definition set_files (fs : gmap string (Content K V)) (w : World) : World :=
  {| heap := heap w; log := log w; files := fs; ui := ui w |}.
Definition set_ui (u : list (Widget K V)) (w : World) : World :=
  {| heap := heap w; log := log w; files := files w; ui := u |}.

(** ** The monad: state and exceptions; the state survives a raise. *)
Definition M (A : Type) : Type := World → result A * World.

Definition ret {A} (a : A) : M A := λ w, (Ok a, w).

Definition bind {A B} (m : M A) (k : A → M B) : M B :=
  λ w, match m w with
       | (Ok a, w') => k a w'
       | (Raise e, w') => (Raise e, w')
       end.

Definition lift {A} (r : result A) : M A := λ w, (r, w).

(** [try: body except Exception as e: handler(e)] *)
Definition try_except {A} (body : M A) (handler : exn → M A) : M A :=
  λ w, match body w with
       | (Ok a, w') => (Ok a, w')
       | (Raise e, w') => handler e w'
       end.

Notation "x <- m ;; k" := (bind m (λ x, k))
  (at level 100, m at next level, right associativity).
Notation "m ;; k" := (bind m (λ _, k))
  (at level 100, right associativity).

(** [for x in xs: acc = body(acc, x)] *)
Fixpoint for_each {A B} (xs : list A) (body : B → A → M B) (acc : B) : M B :=
  match xs with
  | [] => ret acc
  | x :: xs' => acc' <- body acc x ;; for_each xs' body acc'
  end.

(** *** The store *)

Definition alloc (f : Frame) : M ref :=
  λ w, (Ok (length (heap w)), set_heap (heap w ++ [f]) w).

Definition load (l : ref) : M Frame :=
  λ w, match heap w !! l with
       | Some f => (Ok f, w)
       | None => (Raise InvalidReference, w)
       end.

Definition store (l : ref) (f : Frame) : M unit :=
  λ w, (Ok tt, set_heap (<[l := f]> (heap w)) w).

(** An operation that returns a new frame. *)
Definition new_from (l : ref) (op : Frame → result Frame) : M ref :=
  f <- load l ;; f' <- lift (op f) ;; alloc f'.

(** An operation that changes its frame in place ([inplace=True]). *)
Definition in_place (l : ref) (op : Frame → result Frame) : M unit :=
  f <- load l ;; f' <- lift (op f) ;; store l f'.

(** An operation that only reads its frame. *)
Definition read_of {A} (l : ref) (op : Frame → A) : M A :=
  f <- load l ;; ret (op f).

(** ** [log_msg] (line 11) *)
Definition log_msg (msg : string) : M unit :=
  λ w, (Ok tt, set_log (log w ++ [msg]) w).

(** [df.columns]: all column names; the key is the first column unless it
    is the index. *)
Definition names (f : Frame) : list string :=
  if indexed f then columns f else "PlayerID" :: columns f.

(** ** [validate_file] (line 17) *)

(** [pd.read_csv(path, nrows=n)]; [nrows = None] reads the whole file and
    [path = None] is what [paths.get] gives for a label without a file. *)
Definition read_csv (path : option string) (nrows : option N) : M ref :=
  λ w, match path with
       | None => (Raise (ValueError
                          "Invalid file path or buffer object type: <class 'NoneType'>"), w)
       | Some path =>
           match files w !! path with
           | None => (Raise (FileNotFoundError path), w)
           | Some (Garbage err) => (Raise (ParserError err), w)
           | Some (Csv cols body) =>
               alloc {| indexed := false;
                        columns := cols;
                        rows := match nrows with
                                | Some n => take_N n body
                                | None => body
                                end |} w
           end
       end.

(** [os.path.basename(path)] of a path that [read_csv] has accepted. *)
Definition path_basename (path : option string) : string :=
  match path with
  | Some path => basename path
  | None => ""
  end.

Definition validate_file (path : option string)
    (required_cols : option (list string)) : M (option ref) :=
  try_except
    (df <- read_csv path (Some 100%N) ;;
     df_columns <- read_of df names ;;
     log_msg ("Columns in " +:+ path_basename path +:+ ": "
              +:+ join_with ", " df_columns) ;;
     match required_cols with
     | Some ((_ :: _) as required_cols) =>
         let missing :=
           filter (λ col, col ∉ df_columns) required_cols in
         match missing with
         | _ :: _ =>
             log_msg ("Warning: Missing columns in " +:+ path_basename path
                      +:+ ": " +:+ join_with ", " missing)
         | [] => ret tt
         end
     | _ => ret tt
     end ;;
     df <- read_csv path None ;;
     ret (Some df))
    (λ e, log_msg ("Validation failed: " +:+ exn_text e) ;; ret None).

(** The diagnostics of a successful [validate_file]: the columns found,
    then the required columns that are missing, if any. *)
Definition columns_message (path : string) (cols : list string) : string :=
  "Columns in " +:+ basename path +:+ ": "
  +:+ join_with ", " ("PlayerID" :: cols).

Definition missing_message (path : string) (missing : list string) : string :=
  "Warning: Missing columns in " +:+ basename path +:+ ": "
  +:+ join_with ", " missing.

Definition missing_columns (cols : list string)
    (required_cols : option (list string)) : list string :=
  match required_cols with
  | Some required_cols => filter (λ col, col ∉ "PlayerID" :: cols) required_cols
  | None => []
  end.

Definition validation_log (path : string) (cols : list string)
    (required_cols : option (list string)) : list string :=
  columns_message path cols
  :: match missing_columns cols required_cols with
     | [] => []
     | missing => [missing_message path missing]
     end.

(** The table that [read_csv] makes of a file. *)
Definition table_of (cols : list string) (body : list (Row K V)) : Frame :=
  {| indexed := false; columns := cols; rows := body |}.

(** ** [reconcile_metric] (line 31) *)

Definition CHUNK_SIZE : positive := 1000000.

(** An operation whose new frame stays with the caller (the frames of a
    batch: no other name refers to them). *)
Definition value_from (l : ref) (op : Frame → result Frame) : M Frame :=
  f <- load l ;; lift (op f).

(** Lines 45 to 53: the body of the loop for the batch that starts at [i]. *)
Definition reconcile_chunk (chunk_size : positive) (pre_df post_df : ref)
    (metric : string) (common_ids : list (option K))
    (result : list DataFrame) (i : N) : M (list DataFrame) :=
  let chunk_ids := slice common_ids i (i + Npos chunk_size) in
  pre_chunk <- value_from pre_df (loc chunk_ids) ;;
  post_chunk <- value_from post_df (loc chunk_ids) ;;
  let merged := join "_pre" "_post" pre_chunk post_chunk in
  merged <- lift (setitem_diff "diff" (metric +:+ "_pre")
                               (metric +:+ "_post") merged) ;;
  mismatches <- lift (filter_ne0 "diff" merged) ;;
  let mismatches := to_DataFrame (reset_index mismatches) in
  let mismatches := setitem_const "Metric" metric mismatches in
  ret (result ++ [mismatches]).

(** [reconcile_metric] with the batch size as a parameter. *)
Definition reconcile_metric_with (chunk_size : positive)
    (pre_df post_df : ref) (metric : string) : M DataFrame :=
  pre_columns <- read_of pre_df names ;;
  post_columns <- read_of post_df names ;;
  if bool_decide (metric ∉ pre_columns) || bool_decide (metric ∉ post_columns)
  then
    log_msg ("Metric " +:+ metric +:+ " not found in one of the files") ;;
    ret empty_DataFrame
  else
    pre_df <- new_from pre_df (getitem metric) ;;
    pre_df <- new_from pre_df dropna ;;
    post_df <- new_from post_df (getitem metric) ;;
    post_df <- new_from post_df dropna ;;
    in_place pre_df set_index ;;
    in_place post_df set_index ;;
    pre_index <- read_of pre_df index ;;
    post_index <- read_of post_df index ;;
    let common_ids := intersection pre_index post_index in
    result <- for_each (range (N.of_nat (length common_ids)) chunk_size)
                (reconcile_chunk chunk_size pre_df post_df metric common_ids)
                [] ;;
    ret (concat_or_empty result).

Definition reconcile_metric : ref → ref → string → M DataFrame :=
  reconcile_metric_with CHUNK_SIZE.

(** Lines 36 to 39 on their own: the projected copies without nulls,
    indexed by [PlayerID]. *)
Definition indexed_copies (pre_df post_df : ref) (metric : string)
  : M (ref * ref) :=
  pre_df <- new_from pre_df (getitem metric) ;;
  pre_df <- new_from pre_df dropna ;;
  post_df <- new_from post_df (getitem metric) ;;
  post_df <- new_from post_df dropna ;;
  in_place pre_df set_index ;;
  in_place post_df set_index ;;
  ret (pre_df, post_df).

(** Lines 41 to 55 on their own. *)
Definition compare_batches (chunk_size : positive) (pre_df post_df : ref)
    (metric : string) : M DataFrame :=
  pre_index <- read_of pre_df index ;;
  post_index <- read_of post_df index ;;
  let common_ids := intersection pre_index post_index in
  result <- for_each (range (N.of_nat (length common_ids)) chunk_size)
              (reconcile_chunk chunk_size pre_df post_df metric common_ids)
              [] ;;
  ret (concat_or_empty result).

(** ** [reconcile_login] (line 58) *)

(** [pd.DataFrame({"PlayerID": missing, "Metric": "LastLoginDate",
    "Status": "Missing Post"})] *)
Definition missing_post (missing : list (option K)) : DataFrame :=
  {| df_columns := ["PlayerID"; "Metric"; "Status"];
     df_rows := (λ pid, [key_cell pid; Str "LastLoginDate";
                         Str "Missing Post"]) <$> missing |}.

Definition reconcile_login (pre_ids : list (option K)) (post_df : ref)
  : M DataFrame :=
  post_df <- new_from post_df (getitem "LastLoginDate") ;;
  post_df <- new_from post_df dropna ;;
  in_place post_df set_index ;;
  post_index <- read_of post_df index ;;
  let missing := filter (λ pid, pid ∉ post_index) pre_ids in
  ret (missing_post missing).

(** ** The "Run Reconciliation" handler (line 86) *)

(** The five upload widgets; [None]: nothing was uploaded. *)
Record Uploads := {
  pre_file : option (Content K V);
  pre_login_file : option (Content K V);
  post_int_file : option (Content K V);
  post_sub_file : option (Content K V);
  post_login_file : option (Content K V)
}.

Definition st_error (msg : string) : M unit :=
  λ w, (Ok tt, set_ui (ui w ++ [StError msg]) w).

Definition show (x : Widget K V) : M unit :=
  λ w, (Ok tt, set_ui (ui w ++ [x]) w).

(** [with open(path, "wb") as f: f.write(file.getbuffer())] *)
Definition write_file (path : string) (c : Content K V) : M unit :=
  λ w, (Ok tt, set_files (<[path := c]> (files w)) w).

(** [os.remove(p)] *)
Definition remove_file (path : string) : M unit :=
  λ w, match files w !! path with
       | Some _ => (Ok tt, set_files (delete path (files w)) w)
       | None => (Raise (FileNotFoundError path), w)
       end.

(** [paths.get(label)] on the dictionary of temporary paths, kept in
    insertion order. *)
Definition paths_get (paths : list (string * string)) (label : string)
  : option string :=
  (λ p, snd (snd p)) <$> list_find (λ p, fst p = label) paths.

(** [f"temp_{label}_{ts}.csv"] *)
Definition temp_path (ts label : string) : string :=
  "temp_" +:+ label +:+ "_" +:+ ts +:+ ".csv".

(** Lines 95 to 102 *)
Definition save_uploads (ts : string)
    (uploads : list (string * option (Content K V)))
  : M (list (string * string)) :=
  for_each uploads
    (λ paths '(label, file),
       match file with
       | Some file =>
           let path := temp_path ts label in
           write_file path file ;;
           ret (paths ++ [(label, path)])
       | None => ret paths
       end) [].

(** [validate_file(paths.get(label)) if label in paths else None] *)
Definition validate_optional (paths : list (string * string)) (label : string)
  : M (option ref) :=
  if bool_decide (is_Some (paths_get paths label))
  then validate_file (paths_get paths label) None
  else ret None.

(** [pre_df["PlayerID"].tolist()] *)
Definition player_ids (f : Frame) : result (list (option K)) :=
  if indexed f then Raise (KeyError "PlayerID") else Ok (PlayerID <$> rows f).

(** [df.empty] *)
Definition df_empty (d : DataFrame) : bool :=
  bool_decide (df_rows d = []) || bool_decide (df_columns d = []).

(** [sorted(all_ex['Metric'].unique())], ready for [', '.join]: the
    column must exist and hold text only. *)
Definition metric_names (d : DataFrame) : result (list string) :=
  match col_pos "Metric" (df_columns d) with
  | None => Raise (KeyError "Metric")
  | Some _ =>
      result_bind
        (foldr (λ row acc,
                  match df_get (df_columns d) row "Metric" with
                  | Str s => result_bind acc (λ l, Ok (s :: l))
                  | _ => Raise (ValueError "expected str instance")
                  end) (Ok []) (df_rows d))
        (λ l, Ok (merge_sort String.le (unique l)))
  end.

(** [s.replace(' ', '_')] *)
Fixpoint replace_spaces (s : string) : string :=
  match s with
  | EmptyString => EmptyString
  | String c s' =>
      String (if Ascii.eqb c " "%char then "_"%char else c) (replace_spaces s')
  end.

Definition pre_failed_message : string :=
  "Pre file validation failed. See logs/internal_errors.txt.".

(** Lines 113 to 153: the reconciliations and the report. *)
Definition reconcile_all (preparer reviewer ts : string) (pre_df : ref)
    (pre_login_df int_df sub_df login_df : option ref) : M unit :=
  let results := [] in
  results <- match int_df with
             | Some int_df =>
                 r <- reconcile_metric pre_df int_df "InteractiveBalance" ;;
                 ret (results ++ [r])
             | None => ret results
             end ;;
  results <- match sub_df with
             | Some sub_df =>
                 r <- reconcile_metric pre_df sub_df "SubscriptionBalance" ;;
                 ret (results ++ [r])
             | None => ret results
             end ;;
  results <- match login_df, pre_login_df with
             | Some login_df, Some pre_login_df =>
                 r <- reconcile_metric pre_login_df login_df "LastLoginDate" ;;
                 ret (results ++ [r])
             | Some login_df, None =>
                 f <- load pre_df ;;
                 pre_ids <- lift (player_ids f) ;;
                 r <- reconcile_login pre_ids login_df ;;
                 ret (results ++ [r])
             | None, _ => ret results
             end ;;
  let all_ex := concat_or_empty results in
  if negb (df_empty all_ex) then
    metrics <- lift (metric_names all_ex) ;;
    show (Summary preparer reviewer ts (length (df_rows all_ex)) metrics) ;;
    show (StDataframe all_ex) ;;
    let filename :=
      "exceptions_" +:+ replace_spaces preparer +:+ "_" +:+ ts +:+ ".csv" in
    show (DownloadButton filename all_ex)
  else
    show (NoMismatches preparer reviewer ts).

(** What lines 94 to 108 leave: the temporary paths and the five tables,
    [None] for a table that was not uploaded or could not be read. *)
Record Loaded := {
  paths_of : list (string * string);
  pre_of : option ref;
  pre_login_of : option ref;
  int_of : option ref;
  sub_of : option ref;
  login_of : option ref
}.

(** The labelled upload widgets, in the order of line 96. *)
Definition labelled (up : Uploads) : list (string * option (Content K V)) :=
  [("pre", pre_file up);
   ("prelogin", pre_login_file up);
   ("int", post_int_file up);
   ("sub", post_sub_file up);
   ("login", post_login_file up)].

(** Lines 94 to 108: the uploads saved and validated. *)
Definition load_uploads (ts : string) (up : Uploads) : M Loaded :=
  paths <- save_uploads ts (labelled up) ;;
  pre_df <- validate_file (paths_get paths "pre") None ;;
  pre_login_df <- validate_optional paths "prelogin" ;;
  int_df <- validate_optional paths "int" ;;
  sub_df <- validate_optional paths "sub" ;;
  login_df <- validate_optional paths "login" ;;
  ret {| paths_of := paths; pre_of := pre_df; pre_login_of := pre_login_df;
         int_of := int_df; sub_of := sub_df; login_of := login_df |}.

(** Lines 110 to 153: the error or the reconciliations. *)
Definition report_or_error (preparer reviewer ts : string) (l : Loaded)
  : M unit :=
  match pre_of l with
  | None => st_error pre_failed_message
  | Some pre_df =>
      reconcile_all preparer reviewer ts pre_df
                    (pre_login_of l) (int_of l) (sub_of l) (login_of l)
  end.

(** Lines 155 and 156 *)
Definition remove_temporaries (paths : list (string * string)) : M unit :=
  for_each paths (λ _ p, remove_file (snd p)) tt.

(** The handler; [ts] is the time stamp of the run. *)
Definition run_reconciliation (preparer reviewer ts : string) (up : Uploads)
  : M unit :=
  if bool_decide (pre_file up = None) then
    st_error "Please upload the Pre-Migration file."
  else if bool_decide (preparer = "") || bool_decide (reviewer = "") then
    st_error "Please enter both preparer and reviewer names."
  else
    l <- load_uploads ts up ;;
    report_or_error preparer reviewer ts l ;;
    remove_temporaries (paths_of l).

(** ** What the handler loads, in closed form *)

(** The upload under [label], the first one in a list of labelled
    uploads. *)
Fixpoint upload_at (label : string)
    (ups : list (string * option (Content K V))) : option (Content K V) :=
  match ups with
  | [] => None
  | (label', file) :: ups' =>
      if decide (label' = label) then file else upload_at label ups'
  end.

(** The temporary paths and the files on disk after line 102. *)
Definition saved_paths (ts : string)
    (ups : list (string * option (Content K V))) : list (string * string) :=
  omap (λ p, (λ _, (p.1, temp_path ts p.1)) <$> p.2) ups.

Definition saved_files (ts : string)
    (ups : list (string * option (Content K V)))
    (fs : gmap string (Content K V)) : gmap string (Content K V) :=
  foldl (λ fs p, match p.2 with
                 | Some c => <[temp_path ts p.1 := c]> fs
                 | None => fs
                 end) fs ups.

(** What [validate_file] makes of an upload in the store [h]: the reference
    it returns and the store it leaves. *)
Definition loaded_ref (c : option (Content K V)) (h : list Frame)
  : option ref :=
  match c with
  | Some (Csv _ _) => Some (S (length h))
  | _ => None
  end.

Definition loaded_heap (c : option (Content K V)) (h : list Frame)
  : list Frame :=
  match c with
  | Some (Csv cols body) =>
      h ++ [table_of cols (take_N 100 body); table_of cols body]
  | _ => h
  end.

(** The lines that validating a file adds to the log. *)
Definition validation_entries (path : string) (c : Content K V)
  : list string :=
  match c with
  | Garbage err => ["Validation failed: " +:+ err]
  | Csv cols _ => validation_log path cols None
  end.

Definition pre_entries (ts : string) (c : option (Content K V))
  : list string :=
  match c with
  | Some c => validation_entries (temp_path ts "pre") c
  | None => ["Validation failed: Invalid file path or buffer object type: <class 'NoneType'>"]
  end.

Definition optional_entries (ts label : string) (c : option (Content K V))
  : list string :=
  match c with
  | Some c => validation_entries (temp_path ts label) c
  | None => []
  end.

(** The stores after each of the five validations. *)
Definition heap_after_pre (up : Uploads) (h : list Frame) : list Frame :=
  loaded_heap (pre_file up) h.
Definition heap_after_pre_login (up : Uploads) (h : list Frame) : list Frame :=
  loaded_heap (pre_login_file up) (heap_after_pre up h).
Definition heap_after_int (up : Uploads) (h : list Frame) : list Frame :=
  loaded_heap (post_int_file up) (heap_after_pre_login up h).
Definition heap_after_sub (up : Uploads) (h : list Frame) : list Frame :=
  loaded_heap (post_sub_file up) (heap_after_int up h).
Definition heap_after_login (up : Uploads) (h : list Frame) : list Frame :=
  loaded_heap (post_login_file up) (heap_after_sub up h).

(** What [load_uploads] returns when started in the store [h]. *)
Definition loaded (ts : string) (up : Uploads) (h : list Frame) : Loaded :=
  {| paths_of := saved_paths ts (labelled up);
     pre_of := loaded_ref (pre_file up) h;
     pre_login_of := loaded_ref (pre_login_file up) (heap_after_pre up h);
     int_of := loaded_ref (post_int_file up) (heap_after_pre_login up h);
     sub_of := loaded_ref (post_sub_file up) (heap_after_int up h);
     login_of := loaded_ref (post_login_file up) (heap_after_sub up h) |}.

(** What [load_uploads] adds to the log. *)
Definition loaded_log (ts : string) (up : Uploads) : list string :=
  pre_entries ts (pre_file up)
  ++ optional_entries ts "prelogin" (pre_login_file up)
  ++ optional_entries ts "int" (post_int_file up)
  ++ optional_entries ts "sub" (post_sub_file up)
  ++ optional_entries ts "login" (post_login_file up).

(** The world that [load_uploads] leaves. *)
Definition loaded_world (ts : string) (up : Uploads) (w : World) : World :=
  {| heap := heap_after_login up (heap w);
     log := log w ++ loaded_log ts up;
     files := saved_files ts (labelled up) (files w);
     ui := ui w |}.

(** The optional uploads, by label, and the uploads without one of
    them. *)
Definition optional_upload (label : string) (up : Uploads)
  : option (Content K V) :=
  if decide (label = "prelogin") then pre_login_file up
  else if decide (label = "int") then post_int_file up
  else if decide (label = "sub") then post_sub_file up
  else if decide (label = "login") then post_login_file up
  else None.

Definition without_upload (label : string) (up : Uploads) : Uploads :=
  {| pre_file := pre_file up;
     pre_login_file :=
       if decide (label = "prelogin") then None else pre_login_file up;
     post_int_file :=
       if decide (label = "int") then None else post_int_file up;
     post_sub_file :=
       if decide (label = "sub") then None else post_sub_file up;
     post_login_file :=
       if decide (label = "login") then None else post_login_file up |}.

(** ** The reconciliations of a run, in the words of the specification *)

(** Lines 126 to 153 on their own: the page for the exceptions [all_ex]. *)
Definition show_report (preparer reviewer ts : string) (all_ex : DataFrame)
  : M unit :=
  if negb (df_empty all_ex) then
    metrics <- lift (metric_names all_ex) ;;
    show (Summary preparer reviewer ts (length (df_rows all_ex)) metrics) ;;
    show (StDataframe all_ex) ;;
    let filename :=
      "exceptions_" +:+ replace_spaces preparer +:+ "_" +:+ ts +:+ ".csv" in
    show (DownloadButton filename all_ex)
  else
    show (NoMismatches preparer reviewer ts).

(** The five sources of a run: the required pre-balances file and the four
    optional files. *)
Inductive Source :=
  | PreBalances
  | PreLogin
  | PostInteractive
  | PostSubscription
  | PostLogin.

(** The label of the upload widget of a source (line 96). *)
Definition label_of (s : Source) : string :=
  match s with
  | PreBalances => "pre"
  | PreLogin => "prelogin"
  | PostInteractive => "int"
  | PostSubscription => "sub"
  | PostLogin => "login"
  end.

Definition upload (s : Source) (up : Uploads) : option (Content K V) :=
  match s with
  | PreBalances => pre_file up
  | PreLogin => pre_login_file up
  | PostInteractive => post_int_file up
  | PostSubscription => post_sub_file up
  | PostLogin => post_login_file up
  end.

(** The table that loading gave for a source. *)
Definition loaded_table (s : Source) (l : Loaded) : option ref :=
  match s with
  | PreBalances => pre_of l
  | PreLogin => pre_login_of l
  | PostInteractive => int_of l
  | PostSubscription => sub_of l
  | PostLogin => login_of l
  end.

(** A source that is there and that [validate_file] accepts. *)
Definition parses (c : option (Content K V)) : bool :=
  match c with
  | Some (Csv _ _) => true
  | _ => false
  end.

(** A reconciliation: the values of a metric in the tables of two sources
    compared with [reconcile_metric], or the keys of the table of [pre]
    checked for presence in the table of [post] with [reconcile_login]. *)
Inductive Reconciliation :=
  | Compare (pre post : Source) (metric : string)
  | Presence (pre post : Source).

(** The sources that a reconciliation reads. *)
Definition reads (x : Reconciliation) : list Source :=
  match x with
  | Compare pre post _ => [pre; post]
  | Presence pre post => [pre; post]
  end.

(** The reconciliations that are due in a run whose pre-balances source
    parses.  Each of the two balances is compared when its post source
    parses.  [LastLoginDate] is reconciled when its post source parses: by
    comparison with the pre login source when that parses too, and else by
    the presence of the keys of the pre-balances table. *)
Definition due (up : Uploads) : list Reconciliation :=
  (if parses (post_int_file up)
   then [Compare PreBalances PostInteractive "InteractiveBalance"] else [])
  ++ (if parses (post_sub_file up)
      then [Compare PreBalances PostSubscription "SubscriptionBalance"]
      else [])
  ++ (if parses (post_login_file up)
      then if parses (pre_login_file up)
           then [Compare PreLogin PostLogin "LastLoginDate"]
           else [Presence PreBalances PostLogin]
      else []).

(** The loaded table of a source; a source without one has no table to
    refer to. *)
Definition table (s : Source) (l : Loaded) : M ref :=
  match loaded_table s l with
  | Some df => ret df
  | None => lift (Raise InvalidReference)
  end.

(** A reconciliation carried out on the loaded tables. *)
Definition perform (l : Loaded) (x : Reconciliation) : M DataFrame :=
  match x with
  | Compare pre post metric =>
      pre_df <- table pre l ;;
      post_df <- table post l ;;
      reconcile_metric pre_df post_df metric
  | Presence pre post =>
      pre_df <- table pre l ;;
      post_df <- table post l ;;
      f <- load pre_df ;;
      pre_ids <- lift (player_ids f) ;;
      reconcile_login pre_ids post_df
  end.

(** Reconciliations carried out in turn, their reports in that order. *)
Definition perform_all (l : Loaded) (xs : list Reconciliation)
  : M (list DataFrame) :=
  for_each xs (λ results x, r <- perform l x ;; ret (results ++ [r])) [].

(** ** Programs that see the store and the page only *)

(** [m] returns the same, and leaves the same store and the same page, in
    two worlds that have the same store and the same page; and it leaves
    the files as they are. *)
Definition blind {A} (m : M A) : Prop :=
  ∀ w w', heap w = heap w' → ui w = ui w' →
          (m w).1 = (m w').1
          ∧ heap (m w).2 = heap (m w').2 ∧ ui (m w).2 = ui (m w').2
          ∧ files (m w).2 = files w.

(** ** Frames that a program leaves alone *)

(** Started in a store that begins with the frames [h0], the program [m]
    ends in a store that begins with them too, and what it returns
    satisfies [post]. *)
Definition keeps {A} (h0 : list Frame) (m : M A) (post : A → Prop) : Prop :=
  ∀ w r w', h0 `prefix_of` heap w → m w = (r, w') →
            h0 `prefix_of` heap w' ∧ ∀ a, r = Ok a → post a.

End programs.


(** ** The page of a run, and what a run may only add to *)

Section pages.
Context {K : Type} `{EqDecision K} {V : Type} `{Dtype V}.

Local Notation "x <- m ;; k" := (bind m (λ x, k))
  (at level 100, m at next level, right associativity).
Local Notation "m ;; k" := (bind m (λ _, k))
  (at level 100, right associativity).

(** The widgets that [show_report] adds for exceptions whose metrics are
    [metrics]. *)
Definition report_widgets (preparer reviewer ts : string)
    (all_ex : DataFrame K V) (metrics : list string) : list (Widget K V) :=
  if df_empty all_ex then [NoMismatches preparer reviewer ts]
  else [Summary preparer reviewer ts (length (df_rows all_ex)) metrics;
        StDataframe all_ex;
        DownloadButton ("exceptions_" +:+ replace_spaces preparer +:+ "_"
                        +:+ ts +:+ ".csv") all_ex].

(** The text cell of a report row under [Metric]. *)
Definition metric_tag (cols : list string) (row : list (Cell K V))
  : option string :=
  match df_get cols row "Metric" with
  | Str s => Some s
  | _ => None
  end.

(** The metrics that the rows of a report are tagged with, row by row. *)
Definition metric_tags (d : DataFrame K V) : list string :=
  omap (metric_tag (df_columns d)) (df_rows d).

(** The number of rows of a list of reports, all together. *)
Definition total_rows (ds : list (DataFrame K V)) : nat :=
  sum_list ((λ d, length (df_rows d)) <$> ds).

(** Programs that only add lines to the log. *)
Definition grows {A} (m : M (K:=K) (V:=V) A) : Prop :=
  ∀ w, log w `prefix_of` log (m w).2.

End pages.

(** ** The examples of the specification, on 64-bit integer columns *)

Module SpecExample.
Definition row (k : Z) (v : option Z) : Row Z Z :=
  {| PlayerID := Some k; vals := [v] |}.

(** pre = {(1, 100), (2, 200), (3, null)} for the metric [Balance] *)
Definition pre : Frame Z Z :=
  {| indexed := false; columns := ["Balance"];
     rows := [row 1 (Some 100%Z); row 2 (Some 200%Z); row 3 None] |}.

(** post = {(1, 100), (2, 250)} *)
Definition post : Frame Z Z :=
  {| indexed := false; columns := ["Balance"];
     rows := [row 1 (Some 100%Z); row 2 (Some 250%Z)] |}.

(** post activity table = {(1, date), (3, date)}, dates as numbers *)
Definition post_activity : Frame Z Z :=
  {| indexed := false; columns := ["LastLoginDate"];
     rows := [row 1 (Some 20240131%Z); row 3 (Some 20240215%Z)] |}.

(** pre_keys = {1, 2, 3} *)
Definition pre_keys : list (option Z) := [Some 1%Z; Some 2%Z; Some 3%Z].

(** A run in which the pre-balances file and the post InteractiveBalance
    file do not parse, and the other post files do. *)
Definition failing_uploads : Uploads (K:=Z) (V:=Z) :=
  {| pre_file := Some (Garbage "Error tokenizing data");
     pre_login_file := None;
     post_int_file := Some (Garbage "No columns to parse from file");
     post_sub_file := Some (Csv (columns post) (rows post));
     post_login_file :=
       Some (Csv (columns post_activity) (rows post_activity)) |}.

(** The store holds [pre] at 0, [post] at 1 and [post_activity] at 2. *)
Definition world : World Z Z :=
  {| heap := [pre; post; post_activity]; log := []; files := ∅; ui := [] |}.

(** A run in which the file uploaded as post login file is [post], a table
    without a [LastLoginDate] column. *)
Definition undated_uploads : Uploads (K:=Z) (V:=Z) :=
  {| pre_file := Some (Csv (columns pre) (rows pre));
     pre_login_file := None;
     post_int_file := None;
     post_sub_file := None;
     post_login_file := Some (Csv (columns post) (rows post)) |}.
End SpecExample.

(** ** More examples, on 64-bit integer columns *)

Module MoreExamples.
(** [SpecExample.pre] with a [Region] column in front of the balance. *)
Definition pre_wide : Frame Z Z :=
  {| indexed := false; columns := ["Region"; "Balance"];
     rows := [ {| PlayerID := Some 1%Z; vals := [Some 7%Z; Some 100%Z] |};
               {| PlayerID := Some 2%Z; vals := [None; Some 200%Z] |};
               {| PlayerID := Some 3%Z; vals := [Some 9%Z; None] |} ] |}.

(** [SpecExample.post] with its rows the other way round. *)
Definition post_reversed : Frame Z Z :=
  {| indexed := false; columns := ["Balance"];
     rows := [SpecExample.row 2 (Some 250%Z);
              SpecExample.row 1 (Some 100%Z)] |}.

(** The store holds [SpecExample.pre] at 0, [SpecExample.post] at 1,
    [pre_wide] at 2 and [post_reversed] at 3. *)
Definition world : World Z Z :=
  {| heap := [SpecExample.pre; SpecExample.post; pre_wide; post_reversed];
     log := []; files := ∅; ui := [] |}.

(** The files of a migration: a pre file with the two balances of the
    players 1, 2 and 3, and the three post files. *)
Definition pre_cols : list string :=
  ["InteractiveBalance"; "SubscriptionBalance"].
Definition pre_body : list (Row Z Z) :=
  [ {| PlayerID := Some 1%Z; vals := [Some 100%Z; Some 5%Z] |};
    {| PlayerID := Some 2%Z; vals := [Some 200%Z; Some 7%Z] |};
    {| PlayerID := Some 3%Z; vals := [None; Some 9%Z] |} ].
Definition int_body : list (Row Z Z) :=
  [SpecExample.row 1 (Some 100%Z); SpecExample.row 2 (Some 250%Z)].
Definition sub_body : list (Row Z Z) :=
  [SpecExample.row 1 (Some 5%Z); SpecExample.row 2 (Some 7%Z);
   SpecExample.row 3 (Some 8%Z)].
Definition login_body : list (Row Z Z) := rows SpecExample.post_activity.

Definition uploads : Uploads (K:=Z) (V:=Z) :=
  {| pre_file := Some (Csv pre_cols pre_body);
     pre_login_file := None;
     post_int_file := Some (Csv ["InteractiveBalance"] int_body);
     post_sub_file := Some (Csv ["SubscriptionBalance"] sub_body);
     post_login_file := Some (Csv ["LastLoginDate"] login_body) |}.
End MoreExamples.


(** ** Tables as [read_csv] types them: whole numbers and dates as text *)

Module DateExample.
Definition row (k : Z) (v : option Scalar) : Row Z Scalar :=
  {| PlayerID := Some k; vals := [v] |}.

(** pre login table = {(1, 2024-01-31), (2, 2024-01-05)} *)
Definition pre_logins : Frame Z Scalar :=
  {| indexed := false; columns := ["LastLoginDate"];
     rows := [row 1 (Some (Text "2024-01-31"));
              row 2 (Some (Text "2024-01-05"))] |}.

(** post login table = {(1, 2024-02-15), (3, 2024-02-01)} *)
Definition post_logins : Frame Z Scalar :=
  {| indexed := false; columns := ["LastLoginDate"];
     rows := [row 1 (Some (Text "2024-02-15"));
              row 3 (Some (Text "2024-02-01"))] |}.

(** pre-balances table = {(1, 100), (2, 200), (3, 300)} *)
Definition balances : Frame Z Scalar :=
  {| indexed := false; columns := ["InteractiveBalance"];
     rows := [row 1 (Some (Int 100)); row 2 (Some (Int 200));
              row 3 (Some (Int 300))] |}.

(** The store holds [pre_logins] at 0 and [post_logins] at 1. *)
Definition world : World Z Scalar :=
  {| heap := [pre_logins; post_logins]; log := []; files := ∅; ui := [] |}.

(** A run with the pre-balances file, a pre login file that does not
    parse and the post login file. *)
Definition uploads : Uploads (K:=Z) (V:=Scalar) :=
  {| pre_file := Some (Csv (columns balances) (rows balances));
     pre_login_file := Some (Garbage "Error tokenizing data");
     post_int_file := None;
     post_sub_file := None;
     post_login_file := Some (Csv (columns post_logins) (rows post_logins)) |}.
End DateExample.

(** * Properties *)

(** ** Lists: slices, ranges, first occurrences *)

Lemma take_N_take {A} (n : N) (l : list A) : take_N n l = take (N.to_nat n) l.
Proof.
  revert n. induction l as [|x l IH]; intros n; simpl.
  - by destruct (N.to_nat n).
  - destruct (N.eqb_spec n 0) as [->|Hn]; [done|].
    rewrite IH. replace (N.to_nat n) with (S (N.to_nat (N.pred n))) by lia. done.
Qed.

Lemma drop_N_drop {A} (n : N) (l : list A) : drop_N n l = drop (N.to_nat n) l.
Proof.
  revert n. induction l as [|x l IH]; intros n; simpl.
  - by destruct (N.to_nat n).
  - destruct (N.eqb_spec n 0) as [->|Hn]; [done|].
    rewrite IH. replace (N.to_nat n) with (S (N.to_nat (N.pred n))) by lia. done.
Qed.

Lemma slice_take_drop {A} (l : list A) (i : N) (p : positive) :
  slice l i (i + Npos p) = take (Pos.to_nat p) (drop (N.to_nat i) l).
Proof.
  unfold slice. rewrite take_N_take, drop_N_drop. f_equal. lia.
Qed.

Lemma slice_sublist {A} (l : list A) (i : N) (p : positive) :
  slice l i (i + Npos p) `sublist_of` l.
Proof.
  rewrite slice_take_drop. etrans; [apply sublist_take | apply sublist_drop].
Qed.

(** The slices of a range with a positive step, put end to end, are the
    list from the start of the range on. *)
Lemma slices_from {A} (l : list A) (p : positive) (fuel : nat) (i : N) :
  (length l - N.to_nat i ≤ fuel)%nat →
  mjoin ((λ j, slice l j (j + Npos p))
           <$> range_from fuel i (N.of_nat (length l)) p)
  = drop (N.to_nat i) l.
Proof.
  revert i. induction fuel as [|fuel IH]; intros i Hfuel; simpl.
  - rewrite drop_ge; [done | lia].
  - destruct (N.ltb_spec i (N.of_nat (length l))) as [Hlt|Hge]; simpl.
    + rewrite IH by lia. rewrite slice_take_drop.
      replace (N.to_nat (i + N.pos p)) with (N.to_nat i + Pos.to_nat p)%nat by lia.
      rewrite <- drop_drop. apply take_drop.
    + rewrite drop_ge; [done | lia].
Qed.

Lemma slices_range {A} (l : list A) (p : positive) :
  mjoin ((λ j, slice l j (j + Npos p)) <$> range (N.of_nat (length l)) p) = l.
Proof.
  unfold range. rewrite slices_from; [done | lia].
Qed.

Lemma range_nil (p : positive) : range 0 p = [].
Proof. done. Qed.

Lemma range_cons (n : N) (p : positive) :
  (0 < n)%N → ∃ rest, range n p = 0%N :: rest.
Proof.
  intros Hn. unfold range.
  destruct (N.to_nat n) as [|fuel] eqn:Hfuel; [lia|]. simpl.
  destruct (N.ltb_spec 0 n); [eauto | lia].
Qed.

Lemma filter_all {A} (P : A → Prop) `{∀ x, Decision (P x)} (l : list A) :
  Forall P l → filter P l = l.
Proof.
  induction 1 as [|x l Hx Hl IH]; [done|].
  rewrite filter_cons_True by done. by f_equal.
Qed.

Lemma filter_none {A} (P : A → Prop) `{∀ x, Decision (P x)} (l : list A) :
  Forall (λ x, ¬ P x) l → filter P l = [].
Proof.
  induction 1 as [|x l Hx Hl IH]; [done|].
  by rewrite filter_cons_False.
Qed.

Lemma elem_of_unique {A} `{EqDecision A} (l : list A) (x : A) :
  x ∈ unique l ↔ x ∈ l.
Proof.
  induction l as [|y l IH]; simpl; [done|].
  rewrite !elem_of_cons, list_elem_of_filter, IH.
  destruct (decide (x = y)); tauto.
Qed.

Lemma NoDup_unique {A} `{EqDecision A} (l : list A) : NoDup (unique l).
Proof.
  induction l as [|y l IH]; simpl; constructor.
  - rewrite list_elem_of_filter. tauto.
  - by apply NoDup_filter.
Qed.

Lemma unique_sublist {A} `{EqDecision A} (l : list A) : unique l `sublist_of` l.
Proof.
  induction l as [|y l IH]; simpl; [done|].
  constructor. etrans; [apply sublist_filter | done].
Qed.

Lemma unique_NoDup {A} `{EqDecision A} (l : list A) : NoDup l → unique l = l.
Proof.
  induction 1 as [|x l Hx Hl IH]; simpl; [done|].
  rewrite IH. f_equal. apply filter_all, Forall_forall.
  by intros y Hy ->.
Qed.

(** A column name is found where it stands when names are distinct. *)
Lemma col_pos_lookup (cols : list string) (i : nat) (c : string) :
  NoDup cols → cols !! i = Some c → col_pos c cols = Some i.
Proof.
  intros Hnd. revert i. induction Hnd as [|c' cols Hc' Hnd IH]; intros i Hi.
  - done.
  - destruct i as [|i]; simpl in *.
    + simplify_eq. by rewrite decide_True.
    + rewrite decide_False.
      * by rewrite (IH i).
      * intros ->. apply Hc'. by eapply list_elem_of_lookup_2.
Qed.

Lemma col_pos_None (cols : list string) (c : string) :
  col_pos c cols = None ↔ c ∉ cols.
Proof.
  induction cols as [|c' cols IH]; simpl.
  - split; [intros _; apply not_elem_of_nil | done].
  - rewrite not_elem_of_cons. destruct (decide (c = c')) as [->|Hne].
    + split; [done | tauto].
    + rewrite fmap_None, IH. tauto.
Qed.

Lemma col_pos_Some (cols : list string) (c : string) (i : nat) :
  col_pos c cols = Some i → cols !! i = Some c.
Proof.
  revert i. induction cols as [|c' cols IH]; intros i; simpl; [done|].
  destruct (decide (c = c')) as [->|Hne].
  - by intros [= <-].
  - rewrite fmap_Some. intros (j & Hj & ->). simpl. auto.
Qed.

Lemma col_pos_is_Some (cols : list string) (c : string) :
  c ∈ cols → is_Some (col_pos c cols).
Proof.
  intros Hc. destruct (col_pos c cols) eqn:E; [eauto|].
  by apply col_pos_None in E.
Qed.

Lemma bind_bind {A B C} (f : A → list B) (g : B → list C) (l : list A) :
  (l ≫= f) ≫= g = l ≫= (λ x, f x ≫= g).
Proof.
  induction l as [|x l IH]; [done|].
  rewrite !bind_cons, bind_app. by f_equal.
Qed.

Lemma fmap_bind {A B C} (f : A → list B) (g : B → C) (l : list A) :
  g <$> (l ≫= f) = l ≫= (λ x, g <$> f x).
Proof.
  induction l as [|x l IH]; [done|].
  rewrite !bind_cons, fmap_app. by f_equal.
Qed.

Lemma filter_bind {A B} (f : A → list B) (P : B → Prop)
    `{∀ y, Decision (P y)} (l : list A) :
  filter P (l ≫= f) = l ≫= (λ x, filter P (f x)).
Proof.
  induction l as [|x l IH]; [done|].
  rewrite !bind_cons, filter_app. by f_equal.
Qed.

Lemma bind_ext_in {A B} (f g : A → list B) (l : list A) :
  (∀ x, x ∈ l → f x = g x) → l ≫= f = l ≫= g.
Proof. intros Hfg. apply Forall_bind_ext, Forall_forall, Hfg. Qed.

Lemma fmap_as_bind {A B} (f : A → B) (l : list A) :
  f <$> l = l ≫= (λ x, [f x]).
Proof. induction l as [|x l IH]; [done|]. rewrite bind_cons. simpl. by f_equal. Qed.

(** ** Column names of a report *)

Lemma last_char_app (m t : string) :
  t ≠ "" → last_char (m +:+ t) = last_char t.
Proof.
  intros Ht. induction m as [|c m IH]; [done|].
  simpl. rewrite IH. destruct m, t; done.
Qed.

(** Two names that end in different characters are different. *)
Lemma last_char_ne (s t : string) : last_char s ≠ last_char t → s ≠ t.
Proof. by intros Hne ->. Qed.

Lemma pre_post_ne (m : string) : m +:+ "_pre" ≠ m +:+ "_post".
Proof. apply last_char_ne. by rewrite !last_char_app. Qed.
Lemma pre_diff_ne (m : string) : "diff" ≠ m +:+ "_pre".
Proof. apply last_char_ne. by rewrite last_char_app. Qed.
Lemma post_diff_ne (m : string) : "diff" ≠ m +:+ "_post".
Proof. apply last_char_ne. by rewrite last_char_app. Qed.
Lemma pre_key_ne (m : string) : "PlayerID" ≠ m +:+ "_pre".
Proof. apply last_char_ne. by rewrite last_char_app. Qed.
Lemma post_key_ne (m : string) : "PlayerID" ≠ m +:+ "_post".
Proof. apply last_char_ne. by rewrite last_char_app. Qed.
Lemma pre_Metric_ne (m : string) : "Metric" ≠ m +:+ "_pre".
Proof. apply last_char_ne. by rewrite last_char_app. Qed.
Lemma post_Metric_ne (m : string) : "Metric" ≠ m +:+ "_post".
Proof. apply last_char_ne. by rewrite last_char_app. Qed.

Lemma NoDup_report_columns (m : string) : NoDup (report_columns m).
Proof.
  unfold report_columns.
  pose proof (pre_post_ne m). pose proof (pre_diff_ne m).
  pose proof (post_diff_ne m). pose proof (pre_key_ne m).
  pose proof (post_key_ne m). pose proof (pre_Metric_ne m).
  pose proof (post_Metric_ne m).
  repeat (constructor; [rewrite ?elem_of_cons, elem_of_nil; intuition congruence|]).
  constructor.
Qed.

Lemma col_pos_merged (m : string) :
  col_pos (m +:+ "_pre") [m +:+ "_pre"; m +:+ "_post"] = Some 0
  ∧ col_pos (m +:+ "_post") [m +:+ "_pre"; m +:+ "_post"] = Some 1
  ∧ col_pos "diff" [m +:+ "_pre"; m +:+ "_post"] = None
  ∧ col_pos "diff" [m +:+ "_pre"; m +:+ "_post"; "diff"] = Some 2
  ∧ col_pos "Metric" ["PlayerID"; m +:+ "_pre"; m +:+ "_post"; "diff"] = None.
Proof.
  pose proof (pre_post_ne m). pose proof (pre_diff_ne m).
  pose proof (post_diff_ne m). pose proof (pre_Metric_ne m).
  pose proof (post_Metric_ne m).
  repeat split; simpl; repeat case_decide; try done; congruence.
Qed.

Section frame_facts.
Context {K : Type} `{EqDecision K} {V : Type} `{Numeric V}.
Implicit Types (f P Q : Frame K V) (r : Row K V) (k : option K).

Lemma rows_at_elem f k r : r ∈ rows_at f k ↔ PlayerID r = k ∧ r ∈ rows f.
Proof. unfold rows_at. by rewrite list_elem_of_filter. Qed.

Lemma rows_at_nonempty f k : k ∈ index f → rows_at f k ≠ [].
Proof.
  unfold index. rewrite list_elem_of_fmap. intros (r & -> & Hr) Hnil.
  assert (r ∈ rows_at f (PlayerID r)) as Hin by by apply rows_at_elem.
  rewrite Hnil in Hin. by apply elem_of_nil in Hin.
Qed.

Lemma loc_rows_ok f (ids : list (option K)) :
  (∀ k, k ∈ ids → k ∈ index f) → loc_rows f ids = Ok (ids ≫= rows_at f).
Proof.
  induction ids as [|k ids IH]; intros Hids; simpl; [done|].
  pose proof (rows_at_nonempty f k (Hids k ltac:(left))) as Hne.
  rewrite IH by (intros; apply Hids; by right).
  destruct (rows_at f k); done.
Qed.

(** In a batch of distinct labels, the rows of a label are those of the
    whole frame. *)
Lemma rows_at_batch f (ids : list (option K)) k i c :
  NoDup ids → k ∈ ids →
  rows_at {| indexed := i; columns := c; rows := ids ≫= rows_at f |} k
  = rows_at f k.
Proof.
  unfold rows_at at 1. simpl. induction 1 as [|k' ids Hk' Hnd IH]; intros Hk.
  - by apply elem_of_nil in Hk.
  - rewrite bind_cons, filter_app. apply elem_of_cons in Hk as [->|Hk].
    + rewrite filter_all.
      2:{ apply Forall_forall. by intros r [? _]%rows_at_elem. }
      rewrite filter_none; [by rewrite app_nil_r|].
      apply Forall_forall. intros r (k & Hr & Hk)%list_elem_of_bind Heq.
      apply rows_at_elem in Hr as [Hr _]. congruence.
    + rewrite filter_none.
      2:{ apply Forall_forall. intros r [Hr _]%rows_at_elem Heq. congruence. }
      by apply IH.
Qed.

Lemma cells_1 f r c : columns f = [c] → cells f r = [cell r 0].
Proof. unfold cells. by intros ->. Qed.

(** The rows of the join of two batches of single-column frames. *)
Lemma join_batch P Q (ids : list (option K)) (m ls rs : string) :
  columns P = [m] → columns Q = [m] →
  NoDup ids → (∀ k, k ∈ ids → k ∈ index Q) →
  join ls rs
    {| indexed := indexed P; columns := columns P; rows := ids ≫= rows_at P |}
    {| indexed := indexed Q; columns := columns Q; rows := ids ≫= rows_at Q |}
  = {| indexed := indexed P;
       columns := [m +:+ ls; m +:+ rs];
       rows := k ← ids; l ← rows_at P k; r ← rows_at Q k;
               [ {| PlayerID := k; vals := [cell l 0; cell r 0] |} ] |}.
Proof.
  intros HP HQ Hnd Hids. unfold join. simpl. rewrite HP, HQ. simpl.
  unfold suffixed. rewrite !bool_decide_true by by left.
  f_equal. rewrite bind_bind. apply bind_ext_in. intros k Hk.
  apply bind_ext_in. intros l [Hl _]%rows_at_elem. rewrite Hl.
  rewrite rows_at_batch by done.
  pose proof (rows_at_nonempty Q k (Hids k Hk)) as Hne.
  destruct (rows_at Q k) as [|r0 ms] eqn:E; [done|].
  by rewrite fmap_as_bind.
Qed.

(** With a numeric dtype line 50 cannot fail. *)
Lemma minus_rows_numeric (i j : nat) (rs : list (Row K V)) :
  minus_rows i j rs = Ok ((λ r, sub_cell (cell r i) (cell r j)) <$> rs).
Proof.
  induction rs as [|r rs IH]; simpl; [done|]. rewrite IH.
  by destruct (cell r i), (cell r j).
Qed.

Lemma setitem_column (name : string) (g : Row K V → option V) f :
  setitem name (g <$> rows f) f = setitem_with name g f.
Proof.
  unfold setitem, setitem_with. f_equal.
  by rewrite zip_with_fmap_r, zip_with_diag.
Qed.

Lemma setitem_diff_numeric (name a b : string) f :
  setitem_diff name a b f
  = match col_pos a (columns f) with
    | None => Raise (KeyError a)
    | Some i =>
        match col_pos b (columns f) with
        | None => Raise (KeyError b)
        | Some j =>
            Ok (setitem_with name (λ r, sub_cell (cell r i) (cell r j)) f)
        end
    end.
Proof.
  unfold setitem_diff. destruct (col_pos a _) as [i|]; [|done].
  destruct (col_pos b _) as [j|]; [|done].
  rewrite minus_rows_numeric. simpl. by rewrite setitem_column.
Qed.

Lemma batch_report_ok (m : string) P Q (ids : list (option K)) :
  columns P = [m] → columns Q = [m] →
  NoDup ids → (∀ k, k ∈ ids → k ∈ index P ∧ k ∈ index Q) →
  batch_report m P Q ids
  = Ok {| df_columns := report_columns m;
          df_rows := ids ≫= pair_rows m P Q |}.
Proof.
  intros HP HQ Hnd Hids. unfold batch_report, loc.
  rewrite !loc_rows_ok by (intros k Hk; by apply Hids). simpl.
  rewrite (join_batch P Q ids m) by (try done; intros k Hk; by apply Hids).
  destruct (col_pos_merged m) as (E1 & E2 & E3 & E4 & E5).
  rewrite setitem_diff_numeric. cbn [columns]. rewrite E1, E2.
  cbn [result_bind].
  unfold filter_ne0, setitem_with. cbn [columns]. rewrite E3.
  cbn [app]. rewrite E4. cbn [result_bind].
  unfold setitem_const, to_DataFrame, reset_index.
  cbn [columns df_columns app]. rewrite E5. cbn [rows df_rows indexed].
  unfold report_columns.
  simpl. f_equal. f_equal.
  rewrite <- !list_fmap_compose.
  rewrite !fmap_bind, filter_bind, !fmap_bind.
  apply bind_ext_in. intros k _.
  rewrite !fmap_bind, filter_bind, !fmap_bind.
  unfold pair_rows. apply bind_ext_in. intros l _.
  rewrite !fmap_bind, filter_bind, !fmap_bind.
  apply bind_ext_in. intros r _. simpl.
  rewrite filter_cons, filter_nil. unfold cells, cell. simpl.
  destruct (decide _) as [Hd|Hd]; simpl.
  - apply Is_true_true in Hd. by rewrite Hd.
  - apply Is_true_false in Hd. by rewrite Hd.
Qed.
End frame_facts.

Section run.
Context {K : Type} `{EqDecision K} {V : Type} `{Dtype V}.
Implicit Types (w : World K V) (f P Q : Frame K V).

Local Notation "x <- m ;; k" := (bind m (λ x, k))
  (at level 100, m at next level, right associativity).
Local Notation "m ;; k" := (bind m (λ _, k))
  (at level 100, right associativity).

(** ** Running programs *)

Lemma bind_ok {A B} (m : M A) (k : A → M B) w a w' :
  m w = (Ok a, w') → bind m k w = k a w'.
Proof. unfold bind. by intros ->. Qed.

Lemma bind_raise {A B} (m : M A) (k : A → M B) w e w' :
  m w = (Raise e, w') → bind m k w = (Raise e, w').
Proof. unfold bind. by intros ->. Qed.

(** Two continuations that agree after every normal return of [m] give
    the same program. *)
Lemma bind_cong {A B} (m : M A) (k1 k2 : A → M B) w :
  (∀ a w', m w = (Ok a, w') → k1 a w' = k2 a w') →
  bind m k1 w = bind m k2 w.
Proof. unfold bind. destruct (m w) as [[a|e] w']; auto. Qed.

Lemma bind_assoc {A B C} (m : M A) (k : A → M B) (k' : B → M C) w :
  bind (bind m k) k' w = bind m (λ a, bind (k a) k') w.
Proof. unfold bind. by destruct (m w) as [[a|e] w']. Qed.

Lemma new_from_ok (l : ref) (op : Frame K V → result (Frame K V)) w f f' :
  heap w !! l = Some f → op f = Ok f' →
  new_from l op w = (Ok (length (heap w)), set_heap (heap w ++ [f']) w).
Proof.
  intros Hl Hop. unfold new_from, bind, load, lift, alloc.
  by rewrite Hl, Hop.
Qed.

Lemma new_from_inv (l : ref) (op : Frame K V → result (Frame K V)) w a w' :
  new_from l op w = (Ok a, w') →
  ∃ f f', heap w !! l = Some f ∧ op f = Ok f'
          ∧ a = length (heap w) ∧ w' = set_heap (heap w ++ [f']) w.
Proof.
  unfold new_from, bind, load, lift, alloc.
  destruct (heap w !! l) as [f|]; [|done].
  destruct (op f) as [f'|] eqn:Hop; [|done].
  intros [= <- <-]. by eexists _, _.
Qed.

Lemma in_place_ok (l : ref) (op : Frame K V → result (Frame K V)) w f f' :
  heap w !! l = Some f → op f = Ok f' →
  in_place l op w = (Ok tt, set_heap (<[l := f']> (heap w)) w).
Proof.
  intros Hl Hop. unfold in_place, bind, load, lift, store.
  by rewrite Hl, Hop.
Qed.

Lemma in_place_inv (l : ref) (op : Frame K V → result (Frame K V)) w u w' :
  in_place l op w = (Ok u, w') →
  ∃ f f', heap w !! l = Some f ∧ op f = Ok f'
          ∧ w' = set_heap (<[l := f']> (heap w)) w.
Proof.
  unfold in_place, bind, load, lift, store.
  destruct (heap w !! l) as [f|]; [|done].
  destruct (op f) as [f'|] eqn:Hop; [|done].
  intros [= <- <-]. by eexists _, _.
Qed.

Lemma read_of_ok {A} (l : ref) (op : Frame K V → A) w f :
  heap w !! l = Some f → read_of l op w = (Ok (op f), w).
Proof. intros Hl. unfold read_of, bind, load, ret. by rewrite Hl. Qed.

Lemma read_of_inv {A} (l : ref) (op : Frame K V → A) w a w' :
  read_of l op w = (Ok a, w') →
  ∃ f, heap w !! l = Some f ∧ a = op f ∧ w' = w.
Proof.
  unfold read_of, bind, load, ret.
  destruct (heap w !! l) as [f|]; [|done]. intros [= <- <-]. eauto.
Qed.

Lemma value_from_run (l : ref) (op : Frame K V → result (Frame K V)) w f :
  heap w !! l = Some f → value_from l op w = (op f, w).
Proof. intros Hl. unfold value_from, bind, load, lift. by rewrite Hl. Qed.

(** A loop whose body only appends to the accumulator. *)
Lemma for_each_append {A B} (xs : list A) (F : A → B)
    (body : list B → A → M (list B)) (acc : list B) w :
  (∀ acc x, x ∈ xs → body acc x w = (Ok (acc ++ [F x]), w)) →
  for_each xs body acc w = (Ok (acc ++ (F <$> xs)), w).
Proof.
  revert acc. induction xs as [|x xs IH]; intros acc Hbody; simpl.
  - by rewrite app_nil_r.
  - erewrite bind_ok by (apply Hbody; by left).
    rewrite IH by (intros; apply Hbody; by right).
    by rewrite <- app_assoc.
Qed.

(** ** The batches *)

Lemma reconcile_chunk_run (c : positive) (p q : ref) (m : string)
    (common : list (option K)) (acc : list (DataFrame K V)) (i : N) w P Q :
  heap w !! p = Some P → heap w !! q = Some Q →
  reconcile_chunk c p q m common acc i w
  = (result_bind (batch_report m P Q (slice common i (i + Npos c)))
       (λ d, Ok (acc ++ [d])), w).
Proof.
  intros Hp Hq. unfold reconcile_chunk, batch_report.
  unfold bind at 1. rewrite (value_from_run p _ w P Hp).
  destruct (loc _ P) as [pc|e]; [|done]. cbn [result_bind].
  unfold bind at 1. rewrite (value_from_run q _ w Q Hq).
  destruct (loc _ Q) as [qc|e]; [|done]. cbn [result_bind].
  unfold bind at 1, lift at 1.
  destruct (setitem_diff _ _ _ _) as [mg|e]; [|done]. cbn [result_bind].
  unfold bind at 1, lift at 1.
  by destruct (filter_ne0 _ _) as [mm|e].
Qed.
End run.

Lemma unique_app {A} `{EqDecision A} (l l' : list A) :
  unique (l ++ l') = unique l ++ filter (λ y, y ∉ l) (unique l').
Proof.
  induction l as [|x l IH]; simpl.
  - symmetry. apply filter_all, Forall_forall. intros y _. apply not_elem_of_nil.
  - f_equal. rewrite IH, filter_app. f_equal.
    rewrite list_filter_filter. apply list_filter_iff.
    intros y. rewrite not_elem_of_cons. tauto.
Qed.

Lemma unique_app_subset {A} `{EqDecision A} (l l' : list A) :
  NoDup l → (∀ x, x ∈ l' → x ∈ l) → unique (l ++ l') = l.
Proof.
  intros Hnd Hsub. rewrite unique_app, (unique_NoDup l Hnd).
  rewrite filter_none; [apply app_nil_r|].
  apply Forall_forall. intros y Hy Hn. apply Hn, Hsub. by rewrite elem_of_unique in Hy.
Qed.

Lemma join_fmap_bind {A B C} (f : A → list B) (g : B → list C) (l : list A) :
  mjoin ((λ x, f x ≫= g) <$> l) = mjoin (f <$> l) ≫= g.
Proof.
  induction l as [|x l IH]; [done|].
  csimpl. by rewrite bind_app, IH.
Qed.

Section concat_facts.
Context {K : Type} `{EqDecision K} {V : Type} `{Numeric V}.
Implicit Types (row : list (Cell K V)).

(** A row that fits its distinct columns is laid out as it is. *)
Lemma df_get_relayout (cols : list string) row :
  NoDup cols → length row = length cols →
  df_get cols row <$> cols = row.
Proof.
  intros Hnd Hlen. apply list_eq. intros i. rewrite list_lookup_fmap.
  destruct (cols !! i) as [c|] eqn:Hc; simpl.
  - unfold df_get. rewrite (col_pos_lookup cols i c Hnd Hc).
    apply lookup_lt_Some in Hc.
    destruct (lookup_lt_is_Some_2 row i) as [x Hx]; [lia|]. by rewrite Hx.
  - apply lookup_ge_None in Hc. symmetry. apply lookup_ge_None. lia.
Qed.

(** Concatenating frames that have the same distinct columns puts their
    rows one after the other. *)
Lemma concat_same_columns (cols : list string)
    (rss : list (list (list (Cell K V)))) :
  NoDup cols → rss ≠ [] →
  (∀ rs row, rs ∈ rss → row ∈ rs → length row = length cols) →
  concat ((λ rs, {| df_columns := cols; df_rows := rs |}) <$> rss)
  = {| df_columns := cols; df_rows := mjoin rss |}.
Proof.
  intros Hnd Hne Hlen.
  assert (union_columns ((λ rs, {| df_columns := cols; df_rows := rs |})
                           <$> rss) = cols) as Hcols.
  { unfold union_columns. rewrite list_fmap_bind.
    destruct rss as [|rs rss]; [done|]. rewrite bind_cons. simpl.
    apply unique_app_subset; [done|].
    intros c (? & Hc & _)%list_elem_of_bind. done. }
  unfold concat. rewrite Hcols. f_equal.
  rewrite list_fmap_bind. simpl.
  rewrite list_join_bind. apply bind_ext_in. intros rs Hrs. simpl.
  rewrite <- (list_fmap_id rs) at 2. apply list_fmap_ext.
  intros i row Hrow%list_elem_of_lookup_2. simpl.
  apply df_get_relayout; [done|]. by eapply Hlen.
Qed.

Lemma pair_rows_length (m : string) (P Q : Frame K V) (k : option K) row :
  row ∈ pair_rows m P Q k → length row = 5%nat.
Proof.
  unfold pair_rows.
  intros (l & Hrow & _)%list_elem_of_bind.
  apply list_elem_of_bind in Hrow as (r & Hrow & _).
  destruct (ne0_cell _).
  - by apply list_elem_of_singleton in Hrow as ->.
  - by apply elem_of_nil in Hrow.
Qed.

(** The reports of the batches, concatenated, are the report without
    batches. *)
Lemma concat_batches (m : string) (P Q : Frame K V)
    (ids : list (option K)) (c : positive) :
  concat_or_empty
    ((λ i, {| df_columns := report_columns m;
              df_rows := slice ids i (i + Npos c) ≫= pair_rows m P Q |})
       <$> range (N.of_nat (length ids)) c)
  = metric_report m P Q ids.
Proof.
  destruct ids as [|k ids]; [done|].
  remember (k :: ids) as l eqn:Hl.
  assert (metric_report m P Q l
          = {| df_columns := report_columns m;
               df_rows := l ≫= pair_rows m P Q |}) as -> by by subst.
  destruct (range_cons (N.of_nat (length l)) c) as [rest Hrange];
    [subst; simpl; lia|].
  pose proof (slices_range l c) as Hslices. rewrite Hrange in *.
  set (g := λ i, slice l i (i + Npos c) ≫= pair_rows m P Q).
  set (mk := λ rs : list (list (Cell K V)),
               {| df_columns := report_columns m; df_rows := rs |}).
  transitivity (concat (mk <$> (g <$> (0%N :: rest)))).
  { by rewrite <- list_fmap_compose. }
  unfold mk. rewrite concat_same_columns.
  - f_equal. unfold g. by rewrite join_fmap_bind, Hslices.
  - apply NoDup_report_columns.
  - done.
  - intros rs row (i & -> & _)%list_elem_of_fmap Hrow.
    apply list_elem_of_bind in Hrow as (k' & Hrow & _).
    by apply pair_rows_length in Hrow.
Qed.
End concat_facts.

Section engine.
Context {K : Type} `{EqDecision K} {V : Type} `{Numeric V}.
Implicit Types (w : World K V) (f g P Q : Frame K V).

Local Notation "x <- m ;; k" := (bind m (λ x, k))
  (at level 100, m at next level, right associativity).
Local Notation "m ;; k" := (bind m (λ _, k))
  (at level 100, right associativity).

Lemma elem_of_intersection (a b : list (option K)) k :
  k ∈ intersection a b ↔ k ∈ a ∧ k ∈ b.
Proof.
  unfold intersection. rewrite list_elem_of_filter, elem_of_unique. tauto.
Qed.

Lemma NoDup_intersection (a b : list (option K)) : NoDup (intersection a b).
Proof. apply NoDup_filter, NoDup_unique. Qed.

(** Lines 41 to 55 compute the report without batches, whatever the batch
    size. *)
Lemma compare_batches_run (c : positive) (p q : ref) (m : string) w P Q :
  heap w !! p = Some P → heap w !! q = Some Q →
  columns P = [m] → columns Q = [m] →
  compare_batches c p q m w
  = (Ok (metric_report m P Q (intersection (index P) (index Q))), w).
Proof.
  intros Hp Hq HP HQ. unfold compare_batches.
  rewrite (bind_ok _ _ _ _ _ (read_of_ok p index w P Hp)).
  rewrite (bind_ok _ _ _ _ _ (read_of_ok q index w Q Hq)).
  set (common := intersection (index P) (index Q)).
  erewrite bind_ok.
  2:{ apply (for_each_append _
        (λ i, {| df_columns := report_columns m;
                 df_rows := slice common i (i + Npos c) ≫= pair_rows m P Q |})).
      intros acc i _. rewrite (reconcile_chunk_run c p q m common acc i w P Q Hp Hq).
      rewrite batch_report_ok; [done..| |].
      - eapply sublist_NoDup; [apply NoDup_intersection | apply slice_sublist].
      - intros k Hk. apply elem_of_intersection.
        eapply elem_of_sublist; [done | apply slice_sublist]. }
  unfold ret. by rewrite app_nil_l, concat_batches.
Qed.

Lemma reconcile_metric_with_unfold (c : positive) (lp lq : ref) (m : string) w :
  reconcile_metric_with c lp lq m w
  = (pre_columns <- read_of lp names ;;
     post_columns <- read_of lq names ;;
     if bool_decide (m ∉ pre_columns) || bool_decide (m ∉ post_columns)
     then
       log_msg ("Metric " +:+ m +:+ " not found in one of the files") ;;
       ret empty_DataFrame
     else
       pq <- indexed_copies lp lq m ;;
       compare_batches c pq.1 pq.2 m) w.
Proof.
  unfold reconcile_metric_with.
  apply bind_cong. intros pre_columns w1 _.
  apply bind_cong. intros post_columns w2 _.
  destruct (_ || _); [done|].
  unfold indexed_copies.
  repeat (rewrite (bind_assoc _ _ (λ pq, compare_batches c pq.1 pq.2 m));
          apply bind_cong; intros ? ? _).
  done.
Qed.
End engine.

Lemma lookup_app_at {A} (h ext : list A) (i : nat) :
  (h ++ ext) !! (length h + i)%nat = ext !! i.
Proof. induction h as [|x h IH]; [done|]. apply IH. Qed.

Section copies.
Context {K : Type} `{EqDecision K} {V : Type} `{Dtype V}.
Implicit Types (w : World K V) (f g P Q : Frame K V).

Lemma getitem_shape (m : string) f g :
  getitem m f = Ok g →
  indexed f = false ∧ m ≠ "PlayerID" ∧ indexed g = false ∧ columns g = [m]
  ∧ ∃ i, col_pos m (columns f) = Some i
         ∧ rows g = (λ r, {| PlayerID := PlayerID r; vals := [cell r i] |})
                    <$> rows f.
Proof.
  unfold getitem. destruct (indexed f); [done|].
  destruct (decide _); [done|].
  destruct (col_pos m (columns f)) as [i|]; [|done].
  intros [= <-]. eauto 10.
Qed.

Lemma bind_inv {A B} (m : M A) (k : A → M B) w b w' :
  bind m k w = (Ok b, w') →
  ∃ a w1, m w = (Ok a, w1) ∧ k a w1 = (Ok b, w').
Proof. unfold bind. destruct (m w) as [[a|e] w1]; [eauto | done]. Qed.

Lemma set_index_dropna g d :
  indexed g = false → dropna g = Ok d → set_index d = Ok (indexed_copy g).
Proof.
  intros Hg [= <-]. unfold set_index. simpl. by rewrite Hg.
Qed.

(** Lines 36 to 39, step by step. *)
Lemma indexed_copies_run (lp lq : ref) (m : string) w fp gp dp fq gq :
  heap w !! lp = Some fp → getitem m fp = Ok gp → dropna gp = Ok dp →
  (heap w ++ [gp; dp]) !! lq = Some fq → getitem m fq = Ok gq →
  indexed_copies lp lq m w
  = (Ok (S (length (heap w)), S (S (S (length (heap w))))),
     set_heap (heap w ++ [gp; indexed_copy gp; gq; indexed_copy gq]) w).
Proof.
  intros Hlp Hgp Hdp Hlq Hgq.
  destruct (getitem_shape m fp gp Hgp) as (_ & _ & Hip & _).
  destruct (getitem_shape m fq gq Hgq) as (_ & _ & Hiq & _).
  destruct (dropna gq) as [dq|] eqn:Hdq; [|done].
  set (h := heap w) in *.
  unfold indexed_copies.
  erewrite bind_ok by (eapply new_from_ok; eauto).
  erewrite bind_ok.
  2:{ eapply new_from_ok; [|exact Hdp]. simpl. fold h.
      by rewrite <- (Nat.add_0_r (length h)), lookup_app_at. }
  simpl. fold h. rewrite <- app_assoc. simpl.
  erewrite bind_ok by (eapply new_from_ok; [exact Hlq | exact Hgq]).
  simpl. rewrite <- app_assoc. simpl.
  erewrite bind_ok.
  2:{ eapply new_from_ok; [|exact Hdq]. simpl.
      rewrite length_app. simpl. by rewrite lookup_app_at. }
  simpl. rewrite <- app_assoc. simpl.
  rewrite !length_app. simpl.
  erewrite bind_ok.
  2:{ eapply in_place_ok; [|by apply (set_index_dropna gp)]. simpl.
      by rewrite lookup_app_at. }
  simpl. rewrite insert_app_r. simpl.
  erewrite bind_ok.
  2:{ eapply in_place_ok; [|by apply (set_index_dropna gq)]. simpl.
      by rewrite lookup_app_at. }
  simpl. rewrite insert_app_r. simpl.
  unfold ret, set_heap. simpl. do 3 f_equal; lia.
Qed.
End copies.

Section metric.
Context {K : Type} `{EqDecision K} {V : Type} `{Numeric V}.
Implicit Types (w : World K V) (f g P Q : Frame K V).

Lemma indexed_copies_inv (lp lq : ref) (m : string) w pq w' :
  indexed_copies lp lq m w = (Ok pq, w') →
  ∃ gp gq, heap w' !! pq.1 = Some (indexed_copy gp)
           ∧ heap w' !! pq.2 = Some (indexed_copy gq)
           ∧ columns gp = [m] ∧ columns gq = [m].
Proof.
  intros Hrun. pose proof Hrun as Hsteps. unfold indexed_copies in Hsteps.
  apply bind_inv in Hsteps as (a & w1 & H1 & Hsteps).
  apply new_from_inv in H1 as (fp & gp & Hlp & Hgp & -> & ->).
  apply bind_inv in Hsteps as (b & w2 & H2 & Hsteps).
  apply new_from_inv in H2 as (gp' & dp & Hgp' & Hdp & -> & ->).
  simpl in Hgp'. rewrite <- (Nat.add_0_r (length (heap w))) in Hgp'.
  rewrite lookup_app_at in Hgp'. simpl in Hgp'. simplify_eq.
  apply bind_inv in Hsteps as (a' & w3 & H3 & _).
  apply new_from_inv in H3 as (fq & gq & Hlq & Hgq & -> & ->).
  simpl in Hlq. rewrite <- app_assoc in Hlq. simpl in Hlq.
  rewrite (indexed_copies_run lp lq m w fp gp' dp fq gq) in Hrun by done.
  injection Hrun as <- <-.
  destruct (getitem_shape m _ _ Hgp) as (_ & _ & _ & Hcp & _).
  destruct (getitem_shape m _ _ Hgq) as (_ & _ & _ & Hcq & _).
  exists gp', gq. simpl.
  replace (S (length (heap w))) with (length (heap w) + 1)%nat by lia.
  replace (S (S (length (heap w) + 1))) with (length (heap w) + 3)%nat by lia.
  by rewrite !lookup_app_at.
Qed.

(** The batch size does not show in what [reconcile_metric] does. *)
Lemma reconcile_metric_with_batch_size (c1 c2 : positive) (lp lq : ref)
    (m : string) w :
  reconcile_metric_with c1 lp lq m w = reconcile_metric_with c2 lp lq m w.
Proof.
  rewrite !reconcile_metric_with_unfold.
  apply bind_cong. intros pre_columns w1 _.
  apply bind_cong. intros post_columns w2 _.
  destruct (_ || _); [done|].
  apply bind_cong. intros pq w3 Hcopies.
  apply indexed_copies_inv in Hcopies as (gp & gq & Hp & Hq & Hcp & Hcq).
  by rewrite !(compare_batches_run _ _ _ m w3 _ _ Hp Hq Hcp Hcq).
Qed.

Lemma getitem_names (m : string) f g : getitem m f = Ok g → m ∈ names f.
Proof.
  intros (Hi & _ & _ & _ & i & Hpos & _)%getitem_shape.
  unfold names. rewrite Hi. right.
  apply col_pos_Some in Hpos. by eapply list_elem_of_lookup_2.
Qed.

(** [reconcile_metric] on two tables that have the metric. *)
Lemma reconcile_metric_with_run (c : positive) (lp lq : ref) (m : string)
    w fp fq gp gq :
  heap w !! lp = Some fp → heap w !! lq = Some fq →
  getitem m fp = Ok gp → getitem m fq = Ok gq →
  reconcile_metric_with c lp lq m w
  = (Ok (metric_report m (indexed_copy gp) (indexed_copy gq)
           (intersection (index (indexed_copy gp))
                         (index (indexed_copy gq)))),
     set_heap (heap w ++ [gp; indexed_copy gp; gq; indexed_copy gq]) w).
Proof.
  intros Hlp Hlq Hgp Hgq. rewrite reconcile_metric_with_unfold.
  rewrite (bind_ok _ _ _ _ _ (read_of_ok lp names w fp Hlp)).
  rewrite (bind_ok _ _ _ _ _ (read_of_ok lq names w fq Hlq)).
  rewrite !bool_decide_false by
    (intros Hn; apply Hn; by eapply getitem_names).
  cbn [orb].
  destruct (dropna gp) as [dp|] eqn:Hdp; [|done].
  erewrite bind_ok.
  2:{ eapply (indexed_copies_run lp lq m w fp gp dp fq gq); try done.
      by apply lookup_app_l_Some. }
  destruct (getitem_shape m _ _ Hgp) as (_ & _ & _ & Hcp & _).
  destruct (getitem_shape m _ _ Hgq) as (_ & _ & _ & Hcq & _).
  cbn [fst snd].
  apply compare_batches_run; try done; simpl.
  - replace (S (length (heap w))) with (length (heap w) + 1)%nat by lia.
    by rewrite lookup_app_at.
  - replace (S (S (S (length (heap w))))) with (length (heap w) + 3)%nat by lia.
    by rewrite lookup_app_at.
Qed.
End metric.

Lemma unique_fmap_inj {A B} `{EqDecision A} `{EqDecision B} (f : A → B)
    `{!Inj (=) (=) f} (l : list A) :
  unique (f <$> l) = f <$> unique l.
Proof.
  induction l as [|x l IH]; [done|].
  rewrite fmap_cons. cbn [unique]. rewrite fmap_cons. f_equal.
  rewrite IH. clear IH.
  induction (unique l) as [|y u IHu]; [done|].
  rewrite fmap_cons, !filter_cons.
  destruct (decide (f y ≠ f x)) as [Hn|Hn], (decide (y ≠ x)) as [Hm|Hm].
  - rewrite fmap_cons. by f_equal.
  - destruct Hn. f_equal. by destruct (decide (y = x)).
  - destruct Hn. intros Heq. by apply Hm, (inj f).
  - done.
Qed.

Lemma filter_fmap_elem {A B} `{EqDecision A} `{EqDecision B} (f : A → B)
    `{!Inj (=) (=) f} (b u : list A) :
  filter (λ y, y ∈ f <$> b) (f <$> u) = f <$> filter (λ x, x ∈ b) u.
Proof.
  induction u as [|x u IH]; [done|].
  rewrite fmap_cons, !filter_cons, IH.
  destruct (decide (f x ∈ f <$> b)) as [Hin|Hin], (decide (x ∈ b)) as [Hx|Hx].
  - done.
  - destruct Hx. apply list_elem_of_fmap in Hin as (x' & Heq & Hx').
    by apply (inj f) in Heq as ->.
  - destruct Hin. by apply list_elem_of_fmap_2.
  - done.
Qed.

Section tables.
Context {K : Type} `{EqDecision K} {V : Type} `{Numeric V}.
Implicit Types (w : World K V) (t g P Q : Frame K V) (r : Row K V).

Lemma has_metric_getitem t (m : string) :
  has_metric t m →
  ∃ i, col_pos m (columns t) = Some i
       ∧ getitem m t
         = Ok {| indexed := false; columns := [m];
                 rows := (λ r, {| PlayerID := PlayerID r;
                                  vals := [cell r i] |}) <$> rows t |}.
Proof.
  intros (Hi & Hm & Hc). destruct (col_pos_is_Some _ _ Hc) as [i Hpos].
  exists i. split; [done|]. unfold getitem.
  by rewrite Hi, decide_False, Hpos.
Qed.

Lemma indexed_copy_rows (m : string) (i : nat) (rs : list (Row K V)) :
  rows (indexed_copy
          {| indexed := false; columns := [m];
             rows := (λ r, {| PlayerID := PlayerID r; vals := [cell r i] |})
                     <$> rs |})
  = projection_rows i rs.
Proof.
  unfold indexed_copy, projection_rows. simpl. apply list_filter_iff.
  intros r. unfold complete, cells. simpl.
  rewrite andb_true_r, andb_True, !bool_decide_spec. done.
Qed.

Lemma projection_index t (m : string) (i : nat) :
  col_pos m (columns t) = Some i →
  PlayerID <$> projection_rows i (rows t) = Some <$> keys_with_value t m.
Proof.
  intros Hpos. unfold projection_rows, keys_with_value, value_of.
  rewrite Hpos. simpl.
  induction (rows t) as [|r rs IH]; [done|].
  rewrite fmap_cons, filter_cons. simpl. unfold cell at 1. simpl.
  destruct (PlayerID r) as [k|] eqn:Hk, (cell r i) as [v|] eqn:Hv; simpl;
    first [exact IH | f_equal; exact IH].
Qed.

Lemma projection_values_rows (i : nat) (k : K) (rs : list (Row K V)) :
  (λ l, cell l 0) <$> filter (λ r, PlayerID r = Some k) (projection_rows i rs)
  = Some <$> omap (λ r, if decide (PlayerID r = Some k) then cell r i
                        else None) rs.
Proof.
  unfold projection_rows.
  induction rs as [|r rs IH]; [done|].
  rewrite fmap_cons, filter_cons. simpl. unfold cell at 1. simpl.
  destruct (PlayerID r) as [k'|] eqn:Hk, (cell r i) as [v|] eqn:Hv; simpl;
    rewrite ?filter_cons; simpl; repeat case_decide; simplify_eq; simpl;
    first [exact IH | f_equal; exact IH].
Qed.

Lemma projection_values t (m : string) (i : nat) (k : K) P :
  col_pos m (columns t) = Some i → rows P = projection_rows i (rows t) →
  (λ l, cell l 0) <$> rows_at P (Some k) = Some <$> values_at t m k.
Proof.
  intros Hpos HP. unfold rows_at, values_at, value_of.
  rewrite HP, Hpos. apply projection_values_rows.
Qed.

Lemma pair_rows_key_exceptions pre post (m : string) (i j : nat) (k : K) P Q :
  col_pos m (columns pre) = Some i → rows P = projection_rows i (rows pre) →
  col_pos m (columns post) = Some j → rows Q = projection_rows j (rows post) →
  pair_rows m P Q (Some k) = key_exceptions pre post m k.
Proof.
  intros Hi HP Hj HQ. unfold pair_rows, key_exceptions.
  set (body := λ x y : option V,
         if ne0_cell (sub_cell x y)
         then [[key_cell (Some k); num_cell x; num_cell y;
                num_cell (sub_cell x y); Str m]]
         else [] : list (list (Cell K V))).
  transitivity (((λ l, cell l 0) <$> rows_at P (Some k)) ≫= λ x,
                ((λ r, cell r 0) <$> rows_at Q (Some k)) ≫= λ y, body x y).
  { rewrite list_fmap_bind. apply bind_ext_in. intros l _. simpl.
    by rewrite list_fmap_bind. }
  rewrite (projection_values pre m i k P Hi HP).
  rewrite (projection_values post m j k Q Hj HQ).
  rewrite list_fmap_bind. apply bind_ext_in. intros a _. simpl.
  rewrite list_fmap_bind. apply bind_ext_in. intros b _. done.
Qed.

(** [reconcile_metric] in the words of the specification. *)
Lemma reconcile_metric_with_tables (c : positive) (lp lq : ref) (m : string)
    w pre post :
  heap w !! lp = Some pre → heap w !! lq = Some post →
  has_metric pre m → has_metric post m →
  (reconcile_metric_with c lp lq m w).1 = Ok (exception_report pre post m).
Proof.
  intros Hlp Hlq Hpre Hpost.
  destruct (has_metric_getitem pre m Hpre) as (i & Hi & Hgp).
  destruct (has_metric_getitem post m Hpost) as (j & Hj & Hgq).
  rewrite (reconcile_metric_with_run c lp lq m w pre post _ _ Hlp Hlq Hgp Hgq).
  cbn [fst]. f_equal.
  set (P := indexed_copy _). set (Q := indexed_copy _).
  assert (rows P = projection_rows i (rows pre)) as HP
    by apply indexed_copy_rows.
  assert (rows Q = projection_rows j (rows post)) as HQ
    by apply indexed_copy_rows.
  assert (intersection (index P) (index Q)
          = Some <$> common_keys pre post m) as ->.
  { unfold index, intersection, common_keys. rewrite HP, HQ.
    rewrite (projection_index pre m i Hi), (projection_index post m j Hj).
    by rewrite (unique_fmap_inj Some), (filter_fmap_elem Some). }
  assert (∀ l, (Some <$> l) ≫= pair_rows m P Q
               = l ≫= key_exceptions pre post m) as Hrows.
  { intros l. rewrite list_fmap_bind. apply bind_ext_in. intros k' _.
    by apply (pair_rows_key_exceptions pre post m i j). }
  unfold exception_report, metric_report, exception_rows.
  destruct (common_keys pre post m) as [|k ks]; [done|].
  rewrite fmap_cons. f_equal. rewrite <- fmap_cons. apply Hrows.
Qed.
End tables.

Section words.
Context {K : Type} `{EqDecision K} {V : Type} `{Numeric V}.
Implicit Types (w : World K V) (t pre post : Frame K V) (r : Row K V).

Lemma elem_of_values_at t (m : string) (k : K) (v : V) :
  v ∈ values_at t m k ↔ has_value t m k v.
Proof.
  unfold values_at, has_value. rewrite list_elem_of_omap.
  split.
  - intros (r & Hr & Hv). exists r. by destruct (decide _).
  - intros (r & Hr & Hk & Hv). exists r. by rewrite decide_True.
Qed.

Lemma elem_of_keys_with_value t (m : string) (k : K) :
  k ∈ keys_with_value t m ↔ ∃ v, has_value t m k v.
Proof.
  unfold keys_with_value, has_value. rewrite list_elem_of_omap.
  split.
  - intros (r & Hr & Hk).
    destruct (PlayerID r) as [k'|] eqn:Hk'; [|done]. simpl in Hk.
    destruct (value_of t m r) as [v|] eqn:Hv; [|done]. simpl in Hk.
    simplify_eq. eauto.
  - intros (v & r & Hr & Hk & Hv). exists r. by rewrite Hk, Hv.
Qed.

Lemma elem_of_common_keys pre post (m : string) (k : K) :
  k ∈ common_keys pre post m
  ↔ k ∈ keys_with_value pre m ∧ k ∈ keys_with_value post m.
Proof.
  unfold common_keys. rewrite list_elem_of_filter, elem_of_unique. tauto.
Qed.

Lemma NoDup_common_keys pre post (m : string) :
  NoDup (common_keys pre post m).
Proof. apply NoDup_filter, NoDup_unique. Qed.

Lemma keys_with_value_sublist t (m : string) :
  keys_with_value t m `sublist_of` omap PlayerID (rows t).
Proof.
  unfold keys_with_value. induction (rows t) as [|r rs IH]; [done|].
  simpl. destruct (PlayerID r) as [k|]; simpl; [|done].
  destruct (value_of t m r); simpl; by constructor.
Qed.

Lemma common_keys_sublist pre post (m : string) :
  common_keys pre post m `sublist_of` omap PlayerID (rows pre).
Proof.
  unfold common_keys. etrans; [apply sublist_filter|].
  etrans; [apply unique_sublist | apply keys_with_value_sublist].
Qed.

Lemma elem_of_key_exceptions pre post (m : string) (k : K) row :
  row ∈ key_exceptions pre post m k
  ↔ ∃ a b, has_value pre m k a ∧ has_value post m k b
           ∧ nonzero (sub a b) = true ∧ row = exception_row m k a b.
Proof.
  unfold key_exceptions. rewrite list_elem_of_bind. split.
  - intros (a & Hrow & Ha). apply list_elem_of_bind in Hrow as (b & Hrow & Hb).
    apply elem_of_values_at in Ha, Hb.
    destruct (nonzero (sub a b)) eqn:Hnz.
    + apply list_elem_of_singleton in Hrow. eauto 10.
    + by apply elem_of_nil in Hrow.
  - intros (a & b & Ha & Hb & Hnz & ->). exists a. split.
    + apply list_elem_of_bind. exists b. rewrite Hnz.
      split; [by left | by apply elem_of_values_at].
    + by apply elem_of_values_at.
Qed.

Lemma elem_of_exception_rows pre post (m : string) row :
  row ∈ exception_rows pre post m
  ↔ ∃ k a b, has_value pre m k a ∧ has_value post m k b
             ∧ nonzero (sub a b) = true ∧ row = exception_row m k a b.
Proof.
  unfold exception_rows. rewrite list_elem_of_bind. split.
  - intros (k & Hrow & _). apply elem_of_key_exceptions in Hrow. eauto.
  - intros (k & a & b & Ha & Hb & Hnz & ->). exists k. split.
    + apply elem_of_key_exceptions. eauto 10.
    + apply elem_of_common_keys.
      split; apply elem_of_keys_with_value; eauto.
Qed.

(** The rows of the report are the exception rows, also when the report
    is [pd.DataFrame()]. *)
Lemma exception_report_rows pre post (m : string) :
  df_rows (exception_report pre post m) = exception_rows pre post m.
Proof.
  unfold exception_report, exception_rows.
  by destruct (common_keys pre post m).
Qed.

Lemma exception_report_columns pre post (m : string) row :
  row ∈ df_rows (exception_report pre post m) →
  df_columns (exception_report pre post m) = report_columns m.
Proof.
  unfold exception_report. destruct (common_keys pre post m); [|done].
  by intros ?%elem_of_nil.
Qed.

Lemma df_get_exception_row (m : string) (k : K) (a b : V) :
  let get := df_get (report_columns m) (exception_row m k a b) in
  get "PlayerID" = Key k ∧ get (m +:+ "_pre") = Num a
  ∧ get (m +:+ "_post") = Num b ∧ get "diff" = Num (sub a b)
  ∧ get "Metric" = Str m.
Proof.
  pose proof (NoDup_report_columns m) as Hnd. unfold df_get.
  rewrite (col_pos_lookup _ 0 "PlayerID" Hnd) by done.
  rewrite (col_pos_lookup _ 1 (m +:+ "_pre") Hnd) by done.
  rewrite (col_pos_lookup _ 2 (m +:+ "_post") Hnd) by done.
  rewrite (col_pos_lookup _ 3 "diff" Hnd) by done.
  rewrite (col_pos_lookup _ 4 "Metric" Hnd) by done.
  done.
Qed.

Lemma values_at_absent t (m : string) (k : K) (rs : list (Row K V)) :
  k ∉ omap PlayerID rs →
  omap (λ r, if decide (PlayerID r = Some k) then value_of t m r else None) rs
  = [].
Proof.
  induction rs as [|r rs IH]; [done|]. simpl.
  destruct (PlayerID r) as [k'|] eqn:Hk'; simpl.
  - intros [Hne Hnotin]%not_elem_of_cons.
    rewrite decide_False by congruence. auto.
  - intros Hnotin. rewrite ?decide_False by done. auto.
Qed.

Lemma omap_cons {A B} (f : A → option B) (x : A) (l : list A) :
  omap f (x :: l) = match f x with Some y => y :: omap f l | None => omap f l end.
Proof. done. Qed.

Lemma values_at_unique t (m : string) (k : K) :
  NoDup (omap PlayerID (rows t)) → (length (values_at t m k) ≤ 1)%nat.
Proof.
  unfold values_at. induction (rows t) as [|r rs IH]; [simpl; lia|].
  rewrite !omap_cons. destruct (decide (PlayerID r = Some k)) as [Hk|Hk].
  - rewrite Hk. intros [Hnotin Hnd]%NoDup_cons.
    rewrite (values_at_absent t m k rs Hnotin).
    destruct (value_of t m r); simpl; lia.
  - intros Hnd. apply IH. destruct (PlayerID r); [|done].
    by apply NoDup_cons in Hnd as [_ Hnd].
Qed.

Lemma key_exceptions_unique pre post (m : string) (k : K) :
  NoDup (omap PlayerID (rows pre)) → NoDup (omap PlayerID (rows post)) →
  (length (key_exceptions pre post m k) ≤ 1)%nat.
Proof.
  intros Hpre%(values_at_unique pre m k) Hpost%(values_at_unique post m k).
  unfold key_exceptions.
  destruct (values_at pre m k) as [|a [|]]; simpl in *; [lia| |lia].
  destruct (values_at post m k) as [|b [|]]; simpl in *; [lia| |lia].
  destruct (nonzero (sub a b)); simpl; lia.
Qed.
End words.

Section claims.
Context {K : Type} `{EqDecision K} {V : Type} `{Numeric V}.
Implicit Types (w : World K V) (t pre post : Frame K V) (r : Row K V).

(** C1, for a metric with numeric values.  On two tables keyed by their
    [PlayerID] column that have the metric as a value column, of a numeric
    dtype, [reconcile_metric] returns a report whose rows are all
    numeric-diff exception rows, and the row of key [k] with the values
    [a] and [b] is in the report if and only if [k] has the non-null value
    [a] in [pre], the non-null value [b] in [post], and [a - b] is not
    zero.  A key without a non-null value on one of the two sides has no
    row at all. *)
Theorem reconcile_metric_exception_iff (lp lq : ref) (metric : string)
    w pre post :
  heap w !! lp = Some pre → heap w !! lq = Some post →
  has_metric pre metric → has_metric post metric →
  ∃ out, (reconcile_metric lp lq metric w).1 = Ok out
    ∧ (∀ row, row ∈ df_rows out →
         ∃ k a b, row = exception_row metric k a b)
    ∧ (∀ k a b, exception_row metric k a b ∈ df_rows out
         ↔ has_value pre metric k a ∧ has_value post metric k b
           ∧ nonzero (sub a b) = true)
    ∧ (∀ k, (∀ a, ¬ has_value pre metric k a)
            ∨ (∀ b, ¬ has_value post metric k b) →
         ∀ row, row ∈ df_rows out →
                df_get (df_columns out) row "PlayerID" ≠ Key k).
Proof.
  intros Hlp Hlq Hpre Hpost. eexists. split.
  { by apply reconcile_metric_with_tables. }
  split; [|split].
  - rewrite exception_report_rows.
    intros row (k & a & b & _ & _ & _ & ->)%elem_of_exception_rows. eauto.
  - rewrite exception_report_rows.
    intros k a b. rewrite elem_of_exception_rows. split.
    + intros (k' & a' & b' & Ha & Hb & Hnz & [= -> -> ->]). done.
    + intros (Ha & Hb & Hnz). eauto 10.
  - intros k Hnull row Hrow.
    rewrite (exception_report_columns pre post metric row Hrow).
    rewrite exception_report_rows in Hrow.
    apply elem_of_exception_rows in Hrow as (k' & a & b & Ha & Hb & _ & ->).
    destruct (df_get_exception_row metric k' a b) as (-> & _).
    intros [= ->]. destruct Hnull as [Hnull|Hnull]; by eapply Hnull.
Qed.

(** C2.  Any two positive batch sizes give the same result and leave the
    same world, on every input; [reconcile_metric] is the instance with
    batches of [CHUNK_SIZE] keys. *)
Theorem reconcile_metric_batch_size_irrelevant (c1 c2 : positive)
    (lp lq : ref) (metric : string) w :
  reconcile_metric_with c1 lp lq metric w
  = reconcile_metric_with c2 lp lq metric w
  ∧ reconcile_metric lp lq metric w = reconcile_metric_with c1 lp lq metric w.
Proof.
  split; [|unfold reconcile_metric]; apply reconcile_metric_with_batch_size.
Qed.

(** C4.  When the metric is not a column of one of the two tables,
    [reconcile_metric] returns [pd.DataFrame()] without raising, and its
    only effect is one more line in the log. *)
Theorem reconcile_metric_missing_metric (lp lq : ref) (metric : string)
    w pre post :
  heap w !! lp = Some pre → heap w !! lq = Some post →
  metric ∉ names pre ∨ metric ∉ names post →
  reconcile_metric lp lq metric w
  = (Ok empty_DataFrame,
     set_log (log w ++ ["Metric " +:+ metric
                        +:+ " not found in one of the files"]) w).
Proof.
  intros Hlp Hlq Hmissing. unfold reconcile_metric, reconcile_metric_with.
  rewrite (bind_ok _ _ _ _ _ (read_of_ok lp names w pre Hlp)).
  rewrite (bind_ok _ _ _ _ _ (read_of_ok lq names w post Hlq)).
  assert (bool_decide (metric ∉ names pre)
          || bool_decide (metric ∉ names post) = true) as ->.
  { apply orb_true_iff. rewrite !bool_decide_eq_true. done. }
  done.
Qed.

(** C5.  The rows of the report are the exception rows of the common keys,
    key after key: the common keys are those of [pre], each once, in the
    order of the rows of [pre], that [post] has too; the report is the
    reports of the batches one after the other, and the rows of a key
    carry that key. *)
Theorem reconcile_metric_row_order (lp lq : ref) (metric : string)
    w pre post :
  heap w !! lp = Some pre → heap w !! lq = Some post →
  has_metric pre metric → has_metric post metric →
  let common := common_keys pre post metric in
  ∃ out, (reconcile_metric lp lq metric w).1 = Ok out
    ∧ df_rows out = common ≫= key_exceptions pre post metric
    ∧ df_rows out
      = mjoin ((λ i, slice common i (i + Npos CHUNK_SIZE)
                     ≫= key_exceptions pre post metric)
                 <$> range (N.of_nat (length common)) CHUNK_SIZE)
    ∧ common `sublist_of` omap PlayerID (rows pre)
    ∧ NoDup common
    ∧ (∀ k, k ∈ common ↔ k ∈ keys_with_value pre metric
                          ∧ k ∈ keys_with_value post metric)
    ∧ (∀ k row, row ∈ key_exceptions pre post metric k →
         df_get (report_columns metric) row "PlayerID" = Key k).
Proof.
  intros Hlp Hlq Hpre Hpost common. eexists. split.
  { by apply reconcile_metric_with_tables. }
  rewrite exception_report_rows. unfold exception_rows. fold common.
  split; [done|]. split.
  { by rewrite join_fmap_bind, slices_range. }
  split; [apply common_keys_sublist|]. split; [apply NoDup_common_keys|].
  split; [apply elem_of_common_keys|].
  intros k row (a & b & _ & _ & _ & ->)%elem_of_key_exceptions.
  apply df_get_exception_row.
Qed.

(** C6.  Every row of the report of [reconcile_metric] is laid out under
    the columns [PlayerID], [{metric}_pre], [{metric}_post], [diff] and
    [Metric]; it holds a key, a value [a] that the key has in [pre], a
    value [b] that it has in [post], their difference [a - b], which is
    not zero, and the name of the metric. *)
Theorem reconcile_metric_row_columns (lp lq : ref) (metric : string)
    w pre post :
  heap w !! lp = Some pre → heap w !! lq = Some post →
  has_metric pre metric → has_metric post metric →
  ∃ out, (reconcile_metric lp lq metric w).1 = Ok out
    ∧ ∀ row, row ∈ df_rows out →
        df_columns out
        = ["PlayerID"; metric +:+ "_pre"; metric +:+ "_post"; "diff";
           "Metric"]
        ∧ ∃ k a b,
            has_value pre metric k a ∧ has_value post metric k b
            ∧ df_get (df_columns out) row "PlayerID" = Key k
            ∧ df_get (df_columns out) row (metric +:+ "_pre") = Num a
            ∧ df_get (df_columns out) row (metric +:+ "_post") = Num b
            ∧ df_get (df_columns out) row "diff" = Num (sub a b)
            ∧ nonzero (sub a b) = true
            ∧ df_get (df_columns out) row "Metric" = Str metric.
Proof.
  intros Hlp Hlq Hpre Hpost. eexists. split.
  { by apply reconcile_metric_with_tables. }
  intros row Hrow.
  rewrite (exception_report_columns pre post metric row Hrow).
  split; [done|].
  rewrite exception_report_rows in Hrow.
  apply elem_of_exception_rows in Hrow as (k & a & b & Ha & Hb & Hnz & ->).
  exists k, a, b.
  destruct (df_get_exception_row metric k a b) as (? & ? & ? & ? & ?).
  done.
Qed.

(** C10.  When no key occurs twice in [pre] and none occurs twice in
    [post], no key occurs twice in the [PlayerID] column of the report. *)
Theorem reconcile_metric_unique_keys (lp lq : ref) (metric : string)
    w pre post :
  heap w !! lp = Some pre → heap w !! lq = Some post →
  has_metric pre metric → has_metric post metric →
  NoDup (omap PlayerID (rows pre)) → NoDup (omap PlayerID (rows post)) →
  ∃ out, (reconcile_metric lp lq metric w).1 = Ok out
    ∧ NoDup ((λ row, df_get (df_columns out) row "PlayerID")
               <$> df_rows out).
Proof.
  intros Hlp Hlq Hpre Hpost Hupre Hupost. eexists. split.
  { by apply reconcile_metric_with_tables. }
  rewrite exception_report_rows.
  assert (∀ row, row ∈ exception_rows pre post metric →
            df_columns (exception_report pre post metric)
            = report_columns metric) as Hcols.
  { intros row Hrow. apply (exception_report_columns _ _ _ row).
    by rewrite exception_report_rows. }
  unfold exception_rows in *. rewrite fmap_bind.
  apply NoDup_bind.
  - intros k1 k2 c _ _ Hc1 Hc2.
    apply list_elem_of_fmap in Hc1 as (row1 & -> & Hrow1).
    apply list_elem_of_fmap in Hc2 as (row2 & Heq & Hrow2).
    rewrite (Hcols row1) in Heq.
    2:{ apply list_elem_of_bind. exists k1. split; [done|].
        apply elem_of_common_keys.
        apply elem_of_key_exceptions in Hrow1 as (a & b & Ha & Hb & _).
        split; apply elem_of_keys_with_value; eauto. }
    apply elem_of_key_exceptions in Hrow1 as (a1 & b1 & _ & _ & _ & ->).
    apply elem_of_key_exceptions in Hrow2 as (a2 & b2 & _ & _ & _ & ->).
    destruct (df_get_exception_row metric k1 a1 b1) as (E1 & _).
    destruct (df_get_exception_row metric k2 a2 b2) as (E2 & _).
    rewrite E1, E2 in Heq. by injection Heq.
  - intros k _.
    pose proof (key_exceptions_unique pre post metric k Hupre Hupost) as Hlen.
    destruct (key_exceptions pre post metric k) as [|row [|]];
      simpl in *; [constructor | | lia].
    apply NoDup_singleton.
  - apply NoDup_common_keys.
Qed.
End claims.

Lemma reconcile_metric_exception_iff_witness :
  heap SpecExample.world !! 0%nat = Some SpecExample.pre
  ∧ heap SpecExample.world !! 1%nat = Some SpecExample.post
  ∧ has_metric SpecExample.pre "Balance"
  ∧ has_metric SpecExample.post "Balance"
  ∧ ∃ out, (reconcile_metric 0 1 "Balance" SpecExample.world).1 = Ok out
      ∧ (∀ row, row ∈ df_rows out →
           ∃ k a b, row = exception_row "Balance" k a b)
      ∧ (∀ k a b, exception_row "Balance" k a b ∈ df_rows out
           ↔ has_value SpecExample.pre "Balance" k a
             ∧ has_value SpecExample.post "Balance" k b
             ∧ nonzero (sub a b) = true)
      ∧ (∀ k, (∀ a, ¬ has_value SpecExample.pre "Balance" k a)
              ∨ (∀ b, ¬ has_value SpecExample.post "Balance" k b) →
           ∀ row, row ∈ df_rows out →
                  df_get (df_columns out) row "PlayerID" ≠ Key k).
Proof.
  assert (has_metric SpecExample.pre "Balance") as Hpre.
  { repeat split; [discriminate | constructor]. }
  assert (has_metric SpecExample.post "Balance") as Hpost.
  { repeat split; [discriminate | constructor]. }
  split; [reflexivity|]. split; [reflexivity|].
  split; [exact Hpre|]. split; [exact Hpost|].
  apply (reconcile_metric_exception_iff 0 1 "Balance" SpecExample.world
           SpecExample.pre SpecExample.post);
    [reflexivity | reflexivity | exact Hpre | exact Hpost].
Defined.

(** C1 as stated fails on a metric whose values are text, such as the
    dates of a file: key 1 has a value in both tables and the values
    differ, but [reconcile_metric] returns no report, so no row for
    key 1; line 50 raises [TypeError]. *)
Lemma reconcile_metric_text_metric :
  let w := DateExample.world in
  let pre := DateExample.pre_logins in
  let post := DateExample.post_logins in
  heap w !! 0%nat = Some pre ∧ heap w !! 1%nat = Some post
  ∧ has_metric pre "LastLoginDate" ∧ has_metric post "LastLoginDate"
  ∧ has_value pre "LastLoginDate" 1%Z (Text "2024-01-31")
  ∧ has_value post "LastLoginDate" 1%Z (Text "2024-02-15")
  ∧ Text "2024-01-31" ≠ Text "2024-02-15"
  ∧ (reconcile_metric 0 1 "LastLoginDate" w).1
    = Raise (TypeError "unsupported operand type(s) for -: 'str' and 'str'")
  ∧ ¬ ∃ out, (reconcile_metric 0 1 "LastLoginDate" w).1 = Ok out.
Proof.
  intros w pre post.
  assert ((reconcile_metric 0 1 "LastLoginDate" w).1
          = Raise (TypeError
                     "unsupported operand type(s) for -: 'str' and 'str'"))
    as Hrun by by vm_compute.
  split; [reflexivity|]. split; [reflexivity|].
  split; [repeat split; [discriminate | constructor]|].
  split; [repeat split; [discriminate | constructor]|].
  split.
  { exists (DateExample.row 1 (Some (Text "2024-01-31"))).
    split; [constructor | by split]. }
  split.
  { exists (DateExample.row 1 (Some (Text "2024-02-15"))).
    split; [constructor | by split]. }
  split; [discriminate|]. split; [exact Hrun|].
  intros [out Hout]. rewrite Hrun in Hout. discriminate.
Qed.


Lemma reconcile_metric_missing_metric_witness :
  heap SpecExample.world !! 0%nat = Some SpecExample.pre
  ∧ heap SpecExample.world !! 2%nat = Some SpecExample.post_activity
  ∧ ("Balance" ∉ names SpecExample.pre
     ∨ "Balance" ∉ names SpecExample.post_activity)
  ∧ reconcile_metric 0 2 "Balance" SpecExample.world
    = (Ok empty_DataFrame,
       set_log (log SpecExample.world
                ++ ["Metric " +:+ "Balance"
                    +:+ " not found in one of the files"])
               SpecExample.world).
Proof.
  assert ("Balance" ∉ names SpecExample.pre
          ∨ "Balance" ∉ names SpecExample.post_activity) as Hmissing.
  { right. apply (bool_decide_unpack _). vm_compute. exact I. }
  split; [reflexivity|]. split; [reflexivity|]. split; [exact Hmissing|].
  apply (reconcile_metric_missing_metric 0 2 "Balance" SpecExample.world
           SpecExample.pre SpecExample.post_activity);
    [reflexivity | reflexivity | exact Hmissing].
Defined.

Lemma reconcile_metric_row_order_witness :
  heap SpecExample.world !! 0%nat = Some SpecExample.pre
  ∧ heap SpecExample.world !! 1%nat = Some SpecExample.post
  ∧ has_metric SpecExample.pre "Balance"
  ∧ has_metric SpecExample.post "Balance"
  ∧ ∃ out, (reconcile_metric 0 1 "Balance" SpecExample.world).1 = Ok out
      ∧ df_rows out
        = common_keys SpecExample.pre SpecExample.post "Balance"
          ≫= key_exceptions SpecExample.pre SpecExample.post "Balance".
Proof.
  assert (has_metric SpecExample.pre "Balance") as Hpre.
  { repeat split; [discriminate | constructor]. }
  assert (has_metric SpecExample.post "Balance") as Hpost.
  { repeat split; [discriminate | constructor]. }
  split; [reflexivity|]. split; [reflexivity|].
  split; [exact Hpre|]. split; [exact Hpost|].
  destruct (reconcile_metric_row_order 0 1 "Balance" SpecExample.world
              SpecExample.pre SpecExample.post eq_refl eq_refl Hpre Hpost)
    as (out & Hout & Hrows & _).
  exists out. split; [exact Hout | exact Hrows].
Defined.

Lemma reconcile_metric_row_columns_witness :
  heap SpecExample.world !! 0%nat = Some SpecExample.pre
  ∧ heap SpecExample.world !! 1%nat = Some SpecExample.post
  ∧ has_metric SpecExample.pre "Balance"
  ∧ has_metric SpecExample.post "Balance"
  ∧ ∃ out, (reconcile_metric 0 1 "Balance" SpecExample.world).1 = Ok out
      ∧ ∀ row, row ∈ df_rows out →
          df_columns out
          = ["PlayerID"; "Balance_pre"; "Balance_post"; "diff"; "Metric"].
Proof.
  assert (has_metric SpecExample.pre "Balance") as Hpre.
  { repeat split; [discriminate | constructor]. }
  assert (has_metric SpecExample.post "Balance") as Hpost.
  { repeat split; [discriminate | constructor]. }
  split; [reflexivity|]. split; [reflexivity|].
  split; [exact Hpre|]. split; [exact Hpost|].
  destruct (reconcile_metric_row_columns 0 1 "Balance" SpecExample.world
              SpecExample.pre SpecExample.post eq_refl eq_refl Hpre Hpost)
    as (out & Hout & Hrows).
  exists out. split; [exact Hout|].
  intros row Hrow. exact (proj1 (Hrows row Hrow)).
Defined.

Lemma reconcile_metric_unique_keys_witness :
  heap SpecExample.world !! 0%nat = Some SpecExample.pre
  ∧ heap SpecExample.world !! 1%nat = Some SpecExample.post
  ∧ has_metric SpecExample.pre "Balance"
  ∧ has_metric SpecExample.post "Balance"
  ∧ NoDup (omap PlayerID (rows SpecExample.pre))
  ∧ NoDup (omap PlayerID (rows SpecExample.post))
  ∧ ∃ out, (reconcile_metric 0 1 "Balance" SpecExample.world).1 = Ok out
      ∧ NoDup ((λ row, df_get (df_columns out) row "PlayerID")
                 <$> df_rows out).
Proof.
  assert (has_metric SpecExample.pre "Balance") as Hpre.
  { repeat split; [discriminate | constructor]. }
  assert (has_metric SpecExample.post "Balance") as Hpost.
  { repeat split; [discriminate | constructor]. }
  assert (NoDup (omap PlayerID (rows SpecExample.pre))) as Hupre.
  { apply (bool_decide_unpack _). vm_compute. exact I. }
  assert (NoDup (omap PlayerID (rows SpecExample.post))) as Hupost.
  { apply (bool_decide_unpack _). vm_compute. exact I. }
  split; [reflexivity|]. split; [reflexivity|].
  split; [exact Hpre|]. split; [exact Hpost|].
  split; [exact Hupre|]. split; [exact Hupost|].
  apply (reconcile_metric_unique_keys 0 1 "Balance" SpecExample.world
           SpecExample.pre SpecExample.post);
    [reflexivity | reflexivity | exact Hpre | exact Hpost
     | exact Hupre | exact Hupost].
Defined.

(** The first example of the specification: key 1 has no difference, key
    3 a null, and key 2 is reported. *)
Example reconcile_metric_example :
  (reconcile_metric 0 1 "Balance" SpecExample.world).1
  = Ok {| df_columns :=
            ["PlayerID"; "Balance_pre"; "Balance_post"; "diff"; "Metric"];
          df_rows :=
            [[Key 2%Z; Num 200%Z; Num 250%Z; Num (-50)%Z; Str "Balance"]] |}.
Proof. reflexivity. Qed.

(** On 64-bit integers the difference is zero exactly when the two values
    are equal, wrap-around or not. *)
Lemma int64_sub_nonzero (a b : Z) :
  Int64.in_range a → Int64.in_range b →
  nonzero (sub a b) = true ↔ a ≠ b.
Proof.
  unfold Int64.in_range, nonzero, sub. simpl.
  unfold Int64.nonzero, Int64.sub, Int64.wrap, Int64.half_modulus,
    Int64.modulus.
  intros Ha Hb. rewrite negb_true_iff, Z.eqb_neq.
  split; intros Hne Heq; apply Hne; [subst; by rewrite Z.sub_diag|].
  assert ((a - b + 2 ^ 63) mod 2 ^ 64 = 2 ^ 63)%Z as Hmod by lia.
  destruct (Z.lt_ge_cases (a - b + 2 ^ 63) 0) as [Hneg|Hpos].
  - rewrite <- (Z.mod_add _ 1) in Hmod by lia.
    rewrite Z.mod_small in Hmod by lia. lia.
  - destruct (Z.lt_ge_cases (a - b + 2 ^ 63) (2 ^ 64)) as [Hlt|Hge].
    + rewrite Z.mod_small in Hmod by lia. lia.
    + rewrite <- (Z.mod_add _ (-1)) in Hmod by lia.
      rewrite Z.mod_small in Hmod by lia. lia.
Qed.

Section frame_rule.
Context {K : Type} `{EqDecision K} {V : Type} `{Dtype V}.
Implicit Types (w : World K V) (f g : Frame K V).

Local Notation "x <- m ;; k" := (bind m (λ x, k))
  (at level 100, m at next level, right associativity).
Local Notation "m ;; k" := (bind m (λ _, k))
  (at level 100, right associativity).

Lemma keeps_bind {A B} (h0 : list (Frame K V)) (m : M A) (k : A → M B) (P : A → Prop)
    (Q : B → Prop) :
  keeps h0 m P → (∀ a, P a → keeps h0 (k a) Q) → keeps h0 (bind m k) Q.
Proof.
  intros Hm Hk w r w' Hpre. unfold bind.
  destruct (m w) as [[a|e] w1] eqn:Hrun.
  - destruct (Hm w _ w1 Hpre Hrun) as [Hpre1 Hpost]. intros Hk'.
    eapply (Hk a); eauto.
  - destruct (Hm w _ w1 Hpre Hrun) as [Hpre1 _]. intros [= <- <-].
    split; [done|]. by intros a.
Qed.

Lemma keeps_ret {A} (h0 : list (Frame K V)) (a : A) (P : A → Prop) : P a → keeps h0 (ret a) P.
Proof. intros Ha w r w' Hpre [= <- <-]. split; [done|]. by intros ? [= <-]. Qed.

Lemma keeps_lift {A} (h0 : list (Frame K V)) (r : result A) : keeps h0 (lift r) (λ _, True).
Proof. by intros w r' w' Hpre [= <- <-]. Qed.

Lemma keeps_load (h0 : list (Frame K V)) (l : ref) : keeps h0 (load (K:=K) (V:=V) l) (λ _, True).
Proof.
  intros w r w' Hpre. unfold load.
  by destruct (heap w !! l); intros [= <- <-].
Qed.

Lemma keeps_alloc (h0 : list (Frame K V)) f : keeps h0 (alloc f) (λ a, length h0 ≤ a)%nat.
Proof.
  intros w r w' Hpre [= <- <-]. simpl. split.
  - by apply prefix_app_r.
  - intros a [= <-]. by apply prefix_length.
Qed.

Lemma keeps_store (h0 : list (Frame K V)) (l : ref) f :
  (length h0 ≤ l)%nat → keeps h0 (store l f) (λ _, True).
Proof.
  intros Hl w r w' [k Hk] [= <- <-]. simpl. split; [|done].
  rewrite Hk. exists (<[l - length h0 := f]> k).
  by rewrite insert_app_r_alt.
Qed.

Lemma keeps_log_msg (h0 : list (Frame K V)) (msg : string) :
  keeps h0 (log_msg (K:=K) (V:=V) msg) (λ _, True).
Proof. by intros w r w' Hpre [= <- <-]. Qed.

Lemma keeps_new_from (h0 : list (Frame K V)) (l : ref) (op : Frame K V → result (Frame K V)) :
  keeps h0 (new_from l op) (λ a, length h0 ≤ a)%nat.
Proof.
  unfold new_from.
  eapply keeps_bind; [apply keeps_load|]. intros f _.
  eapply keeps_bind; [apply keeps_lift|]. intros f' _.
  apply keeps_alloc.
Qed.

Lemma keeps_in_place (h0 : list (Frame K V)) (l : ref) (op : Frame K V → result (Frame K V)) :
  (length h0 ≤ l)%nat → keeps h0 (in_place l op) (λ _, True).
Proof.
  intros Hl. unfold in_place.
  eapply keeps_bind; [apply keeps_load|]. intros f _.
  eapply keeps_bind; [apply keeps_lift|]. intros f' _.
  by apply keeps_store.
Qed.

Lemma keeps_read_of {A} (h0 : list (Frame K V)) (l : ref) (op : Frame K V → A) :
  keeps h0 (read_of l op) (λ _, True).
Proof.
  unfold read_of.
  eapply keeps_bind; [apply keeps_load|]. intros f _. by apply keeps_ret.
Qed.

Lemma keeps_value_from (h0 : list (Frame K V)) (l : ref) (op : Frame K V → result (Frame K V)) :
  keeps h0 (value_from l op) (λ _, True).
Proof.
  unfold value_from.
  eapply keeps_bind; [apply keeps_load|]. intros f _. apply keeps_lift.
Qed.

Lemma keeps_for_each {A B} (h0 : list (Frame K V)) (xs : list A)
    (body : B → A → M B) (acc : B) :
  (∀ acc x, keeps h0 (body acc x) (λ _, True)) →
  keeps h0 (for_each xs body acc) (λ _, True).
Proof.
  intros Hbody. revert acc. induction xs as [|x xs IH]; intros acc; simpl.
  - by apply keeps_ret.
  - eapply keeps_bind; [apply Hbody|]. intros acc' _. apply IH.
Qed.

Lemma keeps_reconcile_chunk (h0 : list (Frame K V)) (c : positive) (p q : ref) (m : string)
    (common : list (option K)) (acc : list (DataFrame K V)) (i : N) :
  keeps h0 (reconcile_chunk c p q m common acc i) (λ _, True).
Proof.
  unfold reconcile_chunk.
  eapply keeps_bind; [apply keeps_value_from|]. intros pre_chunk _.
  eapply keeps_bind; [apply keeps_value_from|]. intros post_chunk _.
  eapply keeps_bind; [apply keeps_lift|]. intros merged _.
  eapply keeps_bind; [apply keeps_lift|]. intros mismatches _.
  by apply keeps_ret.
Qed.

Lemma keeps_reconcile_metric_with (h0 : list (Frame K V)) (c : positive)
    (lp lq : ref) (m : string) :
  keeps h0 (reconcile_metric_with c lp lq m) (λ _, True).
Proof.
  unfold reconcile_metric_with.
  eapply keeps_bind; [apply keeps_read_of|]. intros pre_columns _.
  eapply keeps_bind; [apply keeps_read_of|]. intros post_columns _.
  destruct (_ || _).
  { eapply keeps_bind; [apply keeps_log_msg|]. intros _ _. by apply keeps_ret. }
  eapply keeps_bind; [apply keeps_new_from|]. intros p0 _.
  eapply keeps_bind; [apply keeps_new_from|]. intros p Hp.
  eapply keeps_bind; [apply keeps_new_from|]. intros q0 _.
  eapply keeps_bind; [apply keeps_new_from|]. intros q Hq.
  eapply keeps_bind; [by apply keeps_in_place|]. intros _ _.
  eapply keeps_bind; [by apply keeps_in_place|]. intros _ _.
  eapply keeps_bind; [apply keeps_read_of|]. intros pre_index _.
  eapply keeps_bind; [apply keeps_read_of|]. intros post_index _.
  eapply keeps_bind.
  { apply keeps_for_each. intros acc i. apply keeps_reconcile_chunk. }
  intros result _. by apply keeps_ret.
Qed.

Lemma keeps_reconcile_login (h0 : list (Frame K V)) (pre_ids : list (option K)) (lq : ref) :
  keeps h0 (reconcile_login pre_ids lq) (λ _, True).
Proof.
  unfold reconcile_login.
  eapply keeps_bind; [apply keeps_new_from|]. intros q0 _.
  eapply keeps_bind; [apply keeps_new_from|]. intros q Hq.
  eapply keeps_bind; [by apply keeps_in_place|]. intros _ _.
  eapply keeps_bind; [apply keeps_read_of|]. intros post_index _.
  by apply keeps_ret.
Qed.

(** C9.  Whatever they return, [reconcile_metric] and [reconcile_login]
    leave every frame of the store as it was, the tables they are given
    among them: the store after the call begins with the store before it,
    and only the copies that follow are re-indexed in place. *)
Theorem reconcile_leaves_inputs (lp lq : ref) (metric : string)
    (pre_ids : list (option K)) w pre post :
  heap w !! lp = Some pre → heap w !! lq = Some post →
  let after_metric := (reconcile_metric lp lq metric w).2 in
  let after_login := (reconcile_login pre_ids lq w).2 in
  heap after_metric !! lp = Some pre ∧ heap after_metric !! lq = Some post
  ∧ heap after_login !! lq = Some post
  ∧ heap w `prefix_of` heap after_metric
  ∧ heap w `prefix_of` heap after_login.
Proof.
  intros Hlp Hlq after_metric after_login.
  assert (heap w `prefix_of` heap after_metric) as Hmetric.
  { subst after_metric. unfold reconcile_metric.
    destruct (reconcile_metric_with CHUNK_SIZE lp lq metric w) as [r w'] eqn:E.
    simpl.
    by apply (keeps_reconcile_metric_with (heap w) CHUNK_SIZE lp lq metric
                w r w'). }
  assert (heap w `prefix_of` heap after_login) as Hlogin.
  { subst after_login.
    destruct (reconcile_login pre_ids lq w) as [r w'] eqn:E.
    simpl. by apply (keeps_reconcile_login (heap w) pre_ids lq w r w'). }
  repeat split; try done.
  - by eapply prefix_lookup_Some.
  - by eapply prefix_lookup_Some.
  - by eapply prefix_lookup_Some.
Qed.
End frame_rule.

Lemma reconcile_leaves_inputs_witness :
  heap SpecExample.world !! 0%nat = Some SpecExample.pre
  ∧ heap SpecExample.world !! 1%nat = Some SpecExample.post
  ∧ let after_metric :=
      (reconcile_metric 0 1 "Balance" SpecExample.world).2 in
    let after_login :=
      (reconcile_login SpecExample.pre_keys 1 SpecExample.world).2 in
    heap after_metric !! 0%nat = Some SpecExample.pre
    ∧ heap after_metric !! 1%nat = Some SpecExample.post
    ∧ heap after_login !! 1%nat = Some SpecExample.post
    ∧ heap SpecExample.world `prefix_of` heap after_metric
    ∧ heap SpecExample.world `prefix_of` heap after_login.
Proof.
  split; [reflexivity|]. split; [reflexivity|].
  apply (reconcile_leaves_inputs 0 1 "Balance" SpecExample.pre_keys
           SpecExample.world SpecExample.pre SpecExample.post); reflexivity.
Defined.

Section login.
Context {K : Type} `{EqDecision K} {V : Type} `{Dtype V}.
Implicit Types (w : World K V) (f g : Frame K V).

Lemma reconcile_login_run (pre_ids : list (option K)) (lq : ref) w post g :
  heap w !! lq = Some post → getitem "LastLoginDate" post = Ok g →
  reconcile_login pre_ids lq w
  = (Ok (missing_post
           (filter (λ pid, pid ∉ index (indexed_copy g)) pre_ids)),
     set_heap (heap w ++ [g; indexed_copy g]) w).
Proof.
  intros Hlq Hg. unfold reconcile_login.
  destruct (getitem_shape _ _ _ Hg) as (_ & _ & Hig & _).
  destruct (dropna g) as [d|] eqn:Hd; [|done].
  erewrite bind_ok by (eapply new_from_ok; eauto).
  erewrite bind_ok.
  2:{ eapply new_from_ok; [|exact Hd]. simpl.
      by rewrite <- (Nat.add_0_r (length (heap w))), lookup_app_at. }
  simpl. rewrite <- app_assoc, length_app. simpl.
  erewrite bind_ok.
  2:{ eapply in_place_ok; [|by apply (set_index_dropna g)]. simpl.
      by rewrite lookup_app_at. }
  simpl. rewrite insert_app_r. simpl.
  erewrite bind_ok.
  2:{ apply read_of_ok. simpl. by rewrite lookup_app_at. }
  done.
Qed.

(** X18.  On a post table keyed by its [PlayerID] column that has a
    [LastLoginDate] column, [reconcile_login] returns the frame with the
    columns [PlayerID], [Metric] and [Status] and one row
    [key, "LastLoginDate", "Missing Post"] for each element of [pre_ids],
    in the order of [pre_ids], that is not the key of a post row with a
    non-null [LastLoginDate]; it returns no other row. *)
Theorem reconcile_login_missing_post (pre_ids : list (option K)) (lq : ref)
    w post :
  heap w !! lq = Some post → has_metric post "LastLoginDate" →
  (reconcile_login pre_ids lq w).1
  = Ok {| df_columns := ["PlayerID"; "Metric"; "Status"];
          df_rows :=
            (λ pid, [key_cell pid; Str "LastLoginDate"; Str "Missing Post"])
            <$> filter (λ pid, pid ∉ Some <$> keys_with_value post
                                                "LastLoginDate")
                       pre_ids |}.
Proof.
  intros Hlq Hpost.
  destruct (has_metric_getitem post _ Hpost) as (i & Hi & Hg).
  rewrite (reconcile_login_run pre_ids lq w post _ Hlq Hg). cbn [fst].
  unfold index. rewrite indexed_copy_rows.
  by rewrite (projection_index post "LastLoginDate" i Hi).
Qed.

(** What [validate_file] does is decided by the file alone. *)
Lemma validate_file_run (path : string)
    (required_cols : option (list string)) w :
  validate_file (Some path) required_cols w
  = match files w !! path with
    | Some (Csv cols body) =>
        (Ok (Some (S (length (heap w)))),
         set_log (log w ++ validation_log path cols required_cols)
           (set_heap (heap w ++ [table_of cols (take_N 100 body);
                                 table_of cols body]) w))
    | Some (Garbage err) =>
        (Ok None, set_log (log w ++ ["Validation failed: " +:+ err]) w)
    | None =>
        (Ok None,
         set_log (log w ++ ["Validation failed: [Errno 2] No such file or directory: '"
                            +:+ path +:+ "'"]) w)
    end.
Proof.
  unfold validate_file, try_except.
  destruct (files w !! path) as [[err|cols body]|] eqn:Hfile.
  - unfold bind at 1, read_csv at 1. by rewrite Hfile.
  - unfold bind at 1, read_csv at 1. rewrite Hfile. unfold alloc at 1.
    set (w1 := set_heap _ w).
    erewrite bind_ok.
    2:{ apply read_of_ok. subst w1. simpl.
        by rewrite <- (Nat.add_0_r (length (heap w))), lookup_app_at. }
    unfold bind at 1, log_msg at 1.
    change (names _) with ("PlayerID" :: cols).
    unfold path_basename.
    assert (∀ (k : M (option ref)) w2,
              bind match required_cols with
                   | Some ((_ :: _) as required) =>
                       let missing :=
                         filter (λ col, col ∉ "PlayerID" :: cols) required in
                       match missing with
                       | _ :: _ =>
                           log_msg ("Warning: Missing columns in "
                                    +:+ basename path +:+ ": "
                                    +:+ join_with ", " missing)
                       | [] => ret tt
                       end
                   | _ => ret tt
                   end (λ _, k) w2
              = k (set_log
                     (log w2 ++ match missing_columns cols required_cols with
                                | [] => []
                                | missing => [missing_message path missing]
                                end) w2))
      as Hreq.
    { intros k w2. unfold missing_columns.
      destruct required_cols as [[|c required]|].
      - unfold bind, ret. cbn [set_log]. rewrite app_nil_r. by destruct w2.
      - cbv zeta. destruct (filter _ (c :: required)) as [|c' missing].
        + unfold bind, ret. cbn [set_log]. rewrite app_nil_r. by destruct w2.
        + done.
      - unfold bind, ret. cbn [set_log]. rewrite app_nil_r. by destruct w2. }
    rewrite Hreq. subst w1.
    unfold bind, read_csv, set_log, set_heap. cbn [files heap log ui].
    rewrite Hfile.
    unfold alloc, ret, table_of, validation_log, columns_message, set_heap.
    cbn [files heap log ui].
    rewrite length_app, <- !app_assoc. cbn [length app].
    do 3 f_equal. lia.
  - unfold bind at 1, read_csv at 1. by rewrite Hfile.
Qed.
End login.

Lemma reconcile_login_missing_post_witness :
  heap SpecExample.world !! 2%nat = Some SpecExample.post_activity
  ∧ has_metric SpecExample.post_activity "LastLoginDate"
  ∧ (reconcile_login SpecExample.pre_keys 2 SpecExample.world).1
    = Ok {| df_columns := ["PlayerID"; "Metric"; "Status"];
            df_rows :=
              (λ pid, [key_cell pid; Str "LastLoginDate"; Str "Missing Post"])
              <$> filter (λ pid, pid ∉ Some <$> keys_with_value
                                    SpecExample.post_activity "LastLoginDate")
                         SpecExample.pre_keys |}.
Proof.
  assert (has_metric SpecExample.post_activity "LastLoginDate") as Hpost.
  { repeat split; [discriminate | constructor]. }
  split; [reflexivity|]. split; [exact Hpost|].
  apply (reconcile_login_missing_post SpecExample.pre_keys 2
           SpecExample.world SpecExample.post_activity); [reflexivity | exact Hpost].
Defined.

(** C3.  The post table of the first example of the specification has
    no [LastLoginDate] column, so none of the keys 1, 2 and 3 has a date in
    it and the claim has one row for each of them.  [reconcile_login]
    raises [KeyError] at line 59 instead, where [reconcile_metric], asked
    for the same column of the same table, logs a message and returns the
    empty report.  A run whose post login file is that table ends with
    the [KeyError]: nothing is shown and the temporary files stay on
    disk. *)
Lemma reconcile_login_without_date_column :
  let w := SpecExample.world in
  let ts := "20240131_120000" in
  let run :=
    run_reconciliation "Ann Lee" "Bob Ray" ts SpecExample.undated_uploads w in
  heap w !! 1%nat = Some SpecExample.post
  ∧ ("LastLoginDate" ∉ names SpecExample.post)
  ∧ keys_with_value SpecExample.post "LastLoginDate" = []
  ∧ (reconcile_login SpecExample.pre_keys 1 w).1
    = Raise (KeyError "LastLoginDate")
  ∧ (reconcile_login SpecExample.pre_keys 1 w).1
    ≠ Ok (missing_post
            (filter (λ pid, pid ∉ Some <$> keys_with_value SpecExample.post
                                             "LastLoginDate")
                    SpecExample.pre_keys))
  ∧ reconcile_metric 0 1 "LastLoginDate" w
    = (Ok empty_DataFrame,
       set_log ["Metric LastLoginDate not found in one of the files"] w)
  ∧ run.1 = Raise (KeyError "LastLoginDate")
  ∧ ui run.2 = []
  ∧ files run.2 !! temp_path ts "pre"
    = Some (Csv (columns SpecExample.pre) (rows SpecExample.pre))
  ∧ files run.2 !! temp_path ts "login"
    = Some (Csv (columns SpecExample.post) (rows SpecExample.post)).
Proof.
  intros w ts run. split; [reflexivity|]. split.
  { unfold names. simpl. rewrite !not_elem_of_cons.
    repeat split; (discriminate || apply not_elem_of_nil). }
  split; [reflexivity|]. split; [reflexivity|]. split; [discriminate|].
  split; [reflexivity|]. by vm_compute.
Qed.

(** The second example of the specification: of the keys 1, 2 and 3 only
    key 2 has no date in the post activity table. *)
Example reconcile_login_example :
  (reconcile_login SpecExample.pre_keys 2 SpecExample.world).1
  = Ok {| df_columns := ["PlayerID"; "Metric"; "Status"];
          df_rows := [[Key 2%Z; Str "LastLoginDate"; Str "Missing Post"]] |}.
Proof. reflexivity. Qed.

Lemma string_length_app (s t : string) :
  String.length (s +:+ t) = (String.length s + String.length t)%nat.
Proof. induction s as [|c s IH]; simpl; [done | by rewrite IH]. Qed.

Lemma string_app_inv_tail (s t u : string) : s +:+ u = t +:+ u → s = t.
Proof.
  revert t. induction s as [|c s IH]; intros [|c' t] Heq; simpl in *.
  - done.
  - apply (f_equal String.length) in Heq. simpl in Heq.
    rewrite !string_length_app in Heq. simpl in Heq. lia.
  - apply (f_equal String.length) in Heq. simpl in Heq.
    rewrite !string_length_app in Heq. simpl in Heq. lia.
  - injection Heq as -> Heq. f_equal. by apply IH.
Qed.

Lemma temp_path_inj (ts l1 l2 : string) :
  temp_path ts l1 = temp_path ts l2 → l1 = l2.
Proof.
  unfold temp_path. intros Heq%(inj (String.app "temp_")).
  by apply string_app_inv_tail in Heq.
Qed.

Section uploads.
Context {K : Type} `{EqDecision K} {V : Type} `{Dtype V}.
Implicit Types (w : World K V) (ups : list (string * option (Content K V))).

Local Notation "x <- m ;; k" := (bind m (λ x, k))
  (at level 100, m at next level, right associativity).
Local Notation "m ;; k" := (bind m (λ _, k))
  (at level 100, right associativity).

Lemma set_files_id w : set_files (files w) w = w.
Proof. by destruct w. Qed.

(** Lines 95 to 102 write the uploads to their temporary paths. *)
Lemma save_uploads_run (ts : string) ups w :
  save_uploads ts ups w
  = (Ok (saved_paths ts ups), set_files (saved_files ts ups (files w)) w).
Proof.
  unfold save_uploads.
  enough (∀ acc w,
            for_each ups
              (λ paths '(label, file),
                 match file with
                 | Some file =>
                     let path := temp_path ts label in
                     write_file path file ;; ret (paths ++ [(label, path)])
                 | None => ret paths
                 end) acc w
            = (Ok (acc ++ saved_paths ts ups),
               set_files (saved_files ts ups (files w)) w)) as Hgen
    by apply Hgen.
  induction ups as [|[label [c|]] ups IH]; intros acc w'.
  - simpl. by rewrite app_nil_r, set_files_id.
  - simpl. unfold bind at 1. unfold bind at 1, write_file at 1, ret at 1.
    rewrite IH. by rewrite <- app_assoc.
  - simpl. unfold bind at 1, ret at 1. by rewrite IH.
Qed.

Lemma paths_get_absent (ts label : string) ups :
  label ∉ ups.*1 → paths_get (saved_paths ts ups) label = None.
Proof.
  unfold paths_get. induction ups as [|[label' [c|]] ups IH]; [done| |].
  - intros [Hne Hnotin]%not_elem_of_cons. simpl in *.
    rewrite decide_False by done. specialize (IH Hnotin).
    destruct (list_find _ (saved_paths ts ups)); [done|done].
  - intros [_ Hnotin]%not_elem_of_cons. by apply IH.
Qed.

Lemma paths_get_saved (ts label : string) ups :
  NoDup ups.*1 →
  paths_get (saved_paths ts ups) label
  = (λ _, temp_path ts label) <$> upload_at label ups.
Proof.
  induction ups as [|[label' [c|]] ups IH]; [done| |];
    intros [Hnotin Hnd]%NoDup_cons; simpl in *.
  - destruct (decide (label' = label)) as [->|Hne].
    + unfold paths_get. simpl. by rewrite decide_True.
    + rewrite <- IH by done. unfold paths_get. simpl.
      rewrite decide_False by done.
      by destruct (list_find _ (saved_paths ts ups)) as [[? [? ?]]|].
  - destruct (decide (label' = label)) as [->|Hne].
    + by apply paths_get_absent.
    + by apply IH.
Qed.

Lemma saved_files_other (ts : string) ups (fs : gmap string (Content K V))
    (p : string) :
  (∀ label, label ∈ ups.*1 → p ≠ temp_path ts label) →
  saved_files ts ups fs !! p = fs !! p.
Proof.
  unfold saved_files. revert fs.
  induction ups as [|[label' [c|]] ups IH]; intros fs Hp; [done| |]; simpl.
  - rewrite IH by (intros; apply Hp; by right).
    apply lookup_insert_ne. symmetry. apply Hp. by left.
  - apply IH. intros; apply Hp; by right.
Qed.

Lemma saved_files_upload (ts label : string) ups
    (fs : gmap string (Content K V)) (c : Content K V) :
  NoDup ups.*1 → upload_at label ups = Some c →
  saved_files ts ups fs !! temp_path ts label = Some c.
Proof.
  unfold saved_files. revert fs.
  induction ups as [|[label' o] ups IH]; intros fs; [done|].
  intros [Hnotin Hnd]%NoDup_cons. simpl in *.
  destruct (decide (label' = label)) as [->|Hne].
  - intros ->. fold (saved_files ts ups (<[temp_path ts label := c]> fs)).
    rewrite saved_files_other; [apply lookup_insert_eq|].
    intros l Hl Heq%temp_path_inj. by subst.
  - intros Hup. by apply IH.
Qed.
End uploads.

Section loading.
Context {K : Type} `{EqDecision K} {V : Type} `{Dtype V}.
Implicit Types (w : World K V) (ups : list (string * option (Content K V))).

Local Notation "x <- m ;; k" := (bind m (λ x, k))
  (at level 100, m at next level, right associativity).
Local Notation "m ;; k" := (bind m (λ _, k))
  (at level 100, right associativity).


Lemma validate_file_upload (path : string) (c : Content K V) w :
  files w !! path = Some c →
  validate_file (Some path) None w
  = (Ok (loaded_ref (Some c) (heap w)),
     set_log (log w ++ validation_entries path c)
       (set_heap (loaded_heap (Some c) (heap w)) w)).
Proof.
  intros Hfile. rewrite validate_file_run, Hfile.
  destruct c as [err|cols body]; [|done]. by destruct w.
Qed.

Lemma validate_optional_upload (ts label : string) ups w
    (fs : gmap string (Content K V)) :
  NoDup ups.*1 → files w = saved_files ts ups fs →
  validate_optional (saved_paths ts ups) label w
  = (Ok (loaded_ref (upload_at label ups) (heap w)),
     set_log (log w ++ optional_entries ts label (upload_at label ups))
       (set_heap (loaded_heap (upload_at label ups) (heap w)) w)).
Proof.
  intros Hnd Hfiles. unfold validate_optional.
  rewrite (paths_get_saved ts label ups Hnd).
  destruct (upload_at label ups) as [c|] eqn:Hup; simpl.
  - apply validate_file_upload. rewrite Hfiles.
    by apply saved_files_upload.
  - unfold ret. rewrite app_nil_r. by destruct w.
Qed.

Lemma NoDup_labels (up : Uploads (K:=K) (V:=V)) : NoDup (labelled up).*1.
Proof.
  change (NoDup ["pre"; "prelogin"; "int"; "sub"; "login"]).
  apply (bool_decide_unpack (NoDup _)). by vm_compute.
Qed.

(** Lines 94 to 108, in closed form. *)
Lemma load_uploads_run (ts : string) (up : Uploads) w :
  load_uploads ts up w = (Ok (loaded ts up (heap w)), loaded_world ts up w).
Proof.
  unfold load_uploads.
  rewrite (bind_ok _ _ _ _ _ (save_uploads_run ts (labelled up) w)).
  pose proof (NoDup_labels up) as Hnd.
  set (fs := saved_files ts (labelled up) (files w)).
  erewrite bind_ok.
  2:{ rewrite (paths_get_saved ts "pre" _ Hnd).
      change (upload_at "pre" (labelled up)) with (pre_file up).
      instantiate (1 := set_log (log w ++ pre_entries ts (pre_file up))
                          (set_heap (heap_after_pre up (heap w))
                             (set_files fs w))).
      instantiate (1 := loaded_ref (pre_file up) (heap w)).
      destruct (pre_file up) as [c|] eqn:Hpre; simpl.
      - rewrite (validate_file_upload _ c).
        { unfold heap_after_pre. by rewrite Hpre. }
        apply (saved_files_upload ts "pre" (labelled up) (files w) c Hnd).
        by rewrite <- Hpre.
      - unfold heap_after_pre. rewrite Hpre. done. }
  erewrite bind_ok
    by (by apply (validate_optional_upload ts "prelogin" _ _ (files w) Hnd)).
  erewrite bind_ok
    by (by apply (validate_optional_upload ts "int" _ _ (files w) Hnd)).
  erewrite bind_ok
    by (by apply (validate_optional_upload ts "sub" _ _ (files w) Hnd)).
  erewrite bind_ok
    by (by apply (validate_optional_upload ts "login" _ _ (files w) Hnd)).
  unfold ret, loaded, loaded_world, loaded_log, heap_after_login,
    heap_after_sub, heap_after_int, heap_after_pre_login, heap_after_pre.
  simpl. by rewrite <- !app_assoc.
Qed.
End loading.

Section blindness.
Context {K : Type} `{EqDecision K} {V : Type} `{Dtype V}.
Implicit Types (w : World K V) (f g : Frame K V).

Local Notation "x <- m ;; k" := (bind m (λ x, k))
  (at level 100, m at next level, right associativity).
Local Notation "m ;; k" := (bind m (λ _, k))
  (at level 100, right associativity).

Lemma blind_bind {A B} (m : M (K:=K) (V:=V) A) (k : A → M B) :
  blind m → (∀ a, blind (k a)) → blind (bind m k).
Proof.
  intros Hm Hk w w' Hheap Hui. unfold bind.
  destruct (Hm w w' Hheap Hui) as (Hr & Hh & Hu & Hf).
  destruct (m w) as [[a|e] w1], (m w') as [[a'|e'] w1']; simpl in *;
    simplify_eq.
  - destruct (Hk a' w1 w1' Hh Hu) as (? & ? & ? & Hf').
    repeat split; try done. by rewrite Hf'.
  - done.
Qed.

Lemma blind_ret {A} (a : A) : blind (ret (K:=K) (V:=V) a).
Proof. by intros w w' Hheap Hui. Qed.

Lemma blind_lift {A} (r : result A) : blind (lift (K:=K) (V:=V) r).
Proof. by intros w w' Hheap Hui. Qed.

Lemma blind_load (l : ref) : blind (load (K:=K) (V:=V) l).
Proof.
  intros w w' Hheap Hui. unfold load. rewrite <- Hheap.
  by destruct (heap w !! l).
Qed.

Lemma blind_alloc f : blind (alloc f).
Proof. intros w w' Hheap Hui. unfold alloc. simpl. by rewrite Hheap. Qed.

Lemma blind_store (l : ref) f : blind (store l f).
Proof. intros w w' Hheap Hui. unfold store. simpl. by rewrite Hheap. Qed.

Lemma blind_log_msg (msg : string) : blind (log_msg (K:=K) (V:=V) msg).
Proof. by intros w w' Hheap Hui. Qed.

Lemma blind_show (x : Widget K V) : blind (show x).
Proof. intros w w' Hheap Hui. unfold show. simpl. by rewrite Hui. Qed.

Lemma blind_st_error (msg : string) : blind (st_error (K:=K) (V:=V) msg).
Proof. intros w w' Hheap Hui. unfold st_error. simpl. by rewrite Hui. Qed.

Lemma blind_new_from (l : ref) (op : Frame K V → result (Frame K V)) :
  blind (new_from l op).
Proof.
  unfold new_from. apply blind_bind; [apply blind_load|]. intros f.
  apply blind_bind; [apply blind_lift|]. intros f'. apply blind_alloc.
Qed.

Lemma blind_in_place (l : ref) (op : Frame K V → result (Frame K V)) :
  blind (in_place l op).
Proof.
  unfold in_place. apply blind_bind; [apply blind_load|]. intros f.
  apply blind_bind; [apply blind_lift|]. intros f'. apply blind_store.
Qed.

Lemma blind_read_of {A} (l : ref) (op : Frame K V → A) :
  blind (read_of l op).
Proof.
  unfold read_of. apply blind_bind; [apply blind_load|]. intros f.
  apply blind_ret.
Qed.

Lemma blind_value_from (l : ref) (op : Frame K V → result (Frame K V)) :
  blind (value_from l op).
Proof.
  unfold value_from. apply blind_bind; [apply blind_load|]. intros f.
  apply blind_lift.
Qed.

Lemma blind_for_each {A B} (xs : list A)
    (body : B → A → M (K:=K) (V:=V) B) (acc : B) :
  (∀ acc x, blind (body acc x)) → blind (for_each xs body acc).
Proof.
  intros Hbody. revert acc. induction xs as [|x xs IH]; intros acc; simpl.
  - apply blind_ret.
  - apply blind_bind; [apply Hbody|]. intros acc'. apply IH.
Qed.

Lemma blind_reconcile_metric (lp lq : ref) (m : string) :
  blind (reconcile_metric (K:=K) (V:=V) lp lq m).
Proof.
  unfold reconcile_metric, reconcile_metric_with.
  apply blind_bind; [apply blind_read_of|]. intros pre_columns.
  apply blind_bind; [apply blind_read_of|]. intros post_columns.
  destruct (_ || _).
  { apply blind_bind; [apply blind_log_msg|]. intros _. apply blind_ret. }
  apply blind_bind; [apply blind_new_from|]. intros p0.
  apply blind_bind; [apply blind_new_from|]. intros p.
  apply blind_bind; [apply blind_new_from|]. intros q0.
  apply blind_bind; [apply blind_new_from|]. intros q.
  apply blind_bind; [apply blind_in_place|]. intros _.
  apply blind_bind; [apply blind_in_place|]. intros _.
  apply blind_bind; [apply blind_read_of|]. intros pre_index.
  apply blind_bind; [apply blind_read_of|]. intros post_index.
  apply blind_bind; [|intros result; apply blind_ret].
  apply blind_for_each. intros acc i. unfold reconcile_chunk.
  apply blind_bind; [apply blind_value_from|]. intros pre_chunk.
  apply blind_bind; [apply blind_value_from|]. intros post_chunk.
  apply blind_bind; [apply blind_lift|]. intros merged.
  apply blind_bind; [apply blind_lift|]. intros mismatches.
  apply blind_ret.
Qed.

Lemma blind_reconcile_login (pre_ids : list (option K)) (lq : ref) :
  blind (reconcile_login (V:=V) pre_ids lq).
Proof.
  unfold reconcile_login.
  apply blind_bind; [apply blind_new_from|]. intros q0.
  apply blind_bind; [apply blind_new_from|]. intros q.
  apply blind_bind; [apply blind_in_place|]. intros _.
  apply blind_bind; [apply blind_read_of|]. intros post_index.
  apply blind_ret.
Qed.

Lemma blind_reconcile_all (preparer reviewer ts : string) (pre_df : ref)
    (pre_login_df int_df sub_df login_df : option ref) :
  blind (reconcile_all (K:=K) (V:=V) preparer reviewer ts pre_df
           pre_login_df int_df sub_df login_df).
Proof.
  unfold reconcile_all.
  apply blind_bind.
  { destruct int_df; [|apply blind_ret].
    apply blind_bind; [apply blind_reconcile_metric|]. intros ?.
    apply blind_ret. }
  intros results1. apply blind_bind.
  { destruct sub_df; [|apply blind_ret].
    apply blind_bind; [apply blind_reconcile_metric|]. intros ?.
    apply blind_ret. }
  intros results2. apply blind_bind.
  { destruct login_df as [login_df|]; [|apply blind_ret].
    destruct pre_login_df as [pre_login_df|].
    - apply blind_bind; [apply blind_reconcile_metric|]. intros ?.
      apply blind_ret.
    - apply blind_bind; [apply blind_load|]. intros f.
      apply blind_bind; [apply blind_lift|]. intros pre_ids.
      apply blind_bind; [apply blind_reconcile_login|]. intros ?.
      apply blind_ret. }
  intros results3. destruct (negb _); [|apply blind_show].
  apply blind_bind; [apply blind_lift|]. intros metrics.
  apply blind_bind; [apply blind_show|]. intros _.
  apply blind_bind; [apply blind_show|]. intros _.
  apply blind_show.
Qed.

Lemma blind_report_or_error (preparer reviewer ts : string) (l : Loaded) :
  blind (report_or_error (K:=K) (V:=V) preparer reviewer ts l).
Proof.
  unfold report_or_error.
  destruct (pre_of l); [apply blind_reconcile_all | apply blind_st_error].
Qed.
End blindness.

Section handler.
Context {K : Type} `{EqDecision K} {V : Type} `{Dtype V}.
Implicit Types (w : World K V) (ups : list (string * option (Content K V))).

Local Notation "x <- m ;; k" := (bind m (λ x, k))
  (at level 100, m at next level, right associativity).
Local Notation "m ;; k" := (bind m (λ _, k))
  (at level 100, right associativity).

Lemma elem_of_saved_paths (ts p : string) ups :
  p ∈ (saved_paths ts ups).*2 →
  ∃ label c, (label, Some c) ∈ ups ∧ p = temp_path ts label.
Proof.
  induction ups as [|[label [c|]] ups IH]; simpl.
  - by intros ?%elem_of_nil.
  - intros [->|Hp]%elem_of_cons.
    + exists label, c. split; [by left | done].
    + destruct (IH Hp) as (l & c' & Hin & ->). exists l, c'.
      split; [by right | done].
  - intros Hp. destruct (IH Hp) as (l & c' & Hin & ->). exists l, c'.
    split; [by right | done].
Qed.

Lemma upload_at_elem (label : string) (c : option (Content K V)) ups :
  NoDup ups.*1 → (label, c) ∈ ups → upload_at label ups = c.
Proof.
  induction ups as [|[label' o] ups IH]; [by intros _ ?%elem_of_nil|].
  intros [Hnotin Hnd]%NoDup_cons [[= -> ->]|Hin]%elem_of_cons; simpl in *.
  - by rewrite decide_True.
  - rewrite decide_False; [by apply IH|].
    intros ->. apply Hnotin. apply list_elem_of_fmap. by exists (label, c).
Qed.

Lemma NoDup_saved_paths (ts : string) ups :
  NoDup ups.*1 → NoDup (saved_paths ts ups).*2.
Proof.
  induction ups as [|[label [c|]] ups IH]; simpl; [constructor| |];
    intros [Hnotin Hnd]%NoDup_cons; [|by apply IH].
  constructor; [|by apply IH].
  intros (l & c' & Hin & ->%temp_path_inj)%elem_of_saved_paths.
  apply Hnotin. apply list_elem_of_fmap. by exists (l, Some c').
Qed.

(** Lines 155 and 156 remove the temporary files and nothing else. *)
Lemma remove_temporaries_run (paths : list (string * string)) w :
  NoDup paths.*2 → (∀ p, p ∈ paths.*2 → is_Some (files w !! p)) →
  ∃ fs, remove_temporaries paths w = (Ok tt, set_files fs w).
Proof.
  unfold remove_temporaries. revert w.
  induction paths as [|[label p] paths IH]; intros w Hnd Hfiles; simpl in *.
  - exists (files w). by rewrite set_files_id.
  - apply NoDup_cons in Hnd as [Hnotin Hnd].
    destruct (Hfiles p ltac:(by left)) as [c Hc].
    unfold bind at 1, remove_file at 1. rewrite Hc.
    destruct (IH (set_files (delete p (files w)) w) Hnd) as [fs Hrun].
    { intros p' Hp'. simpl. rewrite lookup_delete_ne.
      - apply Hfiles. by right.
      - by intros ->. }
    exists fs. by rewrite Hrun.
Qed.

Lemma remove_saved_uploads (ts : string) ups w :
  NoDup ups.*1 → (∃ fs0, files w = saved_files ts ups fs0) →
  ∃ fs, remove_temporaries (saved_paths ts ups) w = (Ok tt, set_files fs w).
Proof.
  intros Hnd [fs0 Hfiles]. apply remove_temporaries_run.
  - by apply NoDup_saved_paths.
  - intros p (label & c & Hin & ->)%elem_of_saved_paths.
    rewrite Hfiles. exists c. apply saved_files_upload; [done|].
    by apply upload_at_elem.
Qed.

(** The handler after its two checks: load, then report or error, then
    clean up unless a reconciliation raised. *)
Lemma run_reconciliation_loaded (preparer reviewer ts : string)
    (up : Uploads) w :
  pre_file up ≠ None → preparer ≠ "" → reviewer ≠ "" →
  run_reconciliation preparer reviewer ts up w
  = match report_or_error preparer reviewer ts (loaded ts up (heap w))
            (loaded_world ts up w) with
    | (Ok _, w2) => remove_temporaries (saved_paths ts (labelled up)) w2
    | (Raise e, w2) => (Raise e, w2)
    end.
Proof.
  intros Hpre Hp Hr. unfold run_reconciliation.
  rewrite bool_decide_false by done.
  rewrite !bool_decide_false by done. cbn [orb].
  rewrite (bind_ok _ _ _ _ _ (load_uploads_run ts up w)).
  unfold bind. by destruct (report_or_error _ _ _ _ _) as [[[]|e] w2].
Qed.

Lemma report_or_error_files (preparer reviewer ts : string) (l : Loaded) w :
  files (report_or_error preparer reviewer ts l w).2 = files w.
Proof.
  by destruct (blind_report_or_error preparer reviewer ts l w w) as (_&_&_&?).
Qed.

(** The references and the store that loading gives are those of the run
    without an optional file that does not parse. *)
Lemma loaded_without_upload (ts label e : string) (up : Uploads)
    (h : list (Frame K V)) :
  label ∈ ["prelogin"; "int"; "sub"; "login"] →
  optional_upload label up = Some (Garbage e) →
  heap_after_login (without_upload label up) h = heap_after_login up h
  ∧ ∀ preparer reviewer,
      report_or_error (K:=K) (V:=V) preparer reviewer ts
        (loaded ts (without_upload label up) h)
      = report_or_error preparer reviewer ts (loaded ts up h).
Proof.
  intros Hlabel Hup.
  unfold report_or_error, loaded, heap_after_login, heap_after_sub,
    heap_after_int, heap_after_pre_login, heap_after_pre.
  repeat (apply elem_of_cons in Hlabel as [->|Hlabel]);
    [| | | |by apply elem_of_nil in Hlabel];
    unfold optional_upload, without_upload in *; simpl in *; rewrite Hup; done.
Qed.
End handler.

Section reconciliations.
Context {K : Type} `{EqDecision K} {V : Type} `{Dtype V}.
Implicit Types (w : World K V) (l : Loaded).

Local Notation "x <- m ;; k" := (bind m (λ x, k))
  (at level 100, m at next level, right associativity).
Local Notation "m ;; k" := (bind m (λ _, k))
  (at level 100, right associativity).

Lemma bind_run {A B} (m m' : M (K:=K) (V:=V) A) (k k' : A → M B) w :
  m w = m' w → (∀ a w', m w = (Ok a, w') → k a w' = k' a w') →
  bind m k w = bind m' k' w.
Proof.
  intros Hm Hk. unfold bind. rewrite <- Hm.
  destruct (m w) as [[a|e] w']; auto.
Qed.

Lemma bind_ret_r {A} (m : M (K:=K) (V:=V) A) w : bind m ret w = m w.
Proof. unfold bind, ret. by destruct (m w) as [[a|e] w']. Qed.

Lemma for_each_app {A B} (xs ys : list A) (body : B → A → M (K:=K) (V:=V) B)
    (acc : B) w :
  for_each (xs ++ ys) body acc w
  = bind (for_each xs body acc) (λ acc', for_each ys body acc') w.
Proof.
  revert acc w. induction xs as [|x xs IH]; intros acc w; simpl; [done|].
  rewrite bind_assoc. apply bind_cong. intros acc' w' _. apply IH.
Qed.

Lemma for_each_one {A B} (x : A) (body : B → A → M (K:=K) (V:=V) B)
    (acc : B) w :
  for_each [x] body acc w = body acc x w.
Proof. simpl. apply bind_ret_r. Qed.

Lemma perform_compare l (pre post : Source) (metric : string)
    (pre_df post_df : ref) w :
  loaded_table pre l = Some pre_df → loaded_table post l = Some post_df →
  perform l (Compare pre post metric) w
  = reconcile_metric pre_df post_df metric w.
Proof. intros Hpre Hpost. unfold perform, table. by rewrite Hpre, Hpost. Qed.

Lemma perform_presence l (pre post : Source) (pre_df post_df : ref) w :
  loaded_table pre l = Some pre_df → loaded_table post l = Some post_df →
  perform l (Presence pre post) w
  = (f <- load pre_df ;;
     pre_ids <- lift (player_ids f) ;;
     reconcile_login pre_ids post_df) w.
Proof. intros Hpre Hpost. unfold perform, table. by rewrite Hpre, Hpost. Qed.

Lemma bind_for_each_app {A B C} (xs ys : list A)
    (body : B → A → M (K:=K) (V:=V) B) (acc : B) (k : B → M C) w :
  bind (for_each (xs ++ ys) body acc) k w
  = bind (for_each xs body acc) (λ acc', bind (for_each ys body acc') k) w.
Proof.
  rewrite <- bind_assoc. apply bind_run; [apply for_each_app | done].
Qed.

(** After loading, the handler carries out the reconciliations due and
    shows their reports. *)
Lemma report_or_error_due (preparer reviewer ts : string) (up : Uploads)
    (h : list (Frame K V)) w :
  parses (pre_file up) = true →
  report_or_error preparer reviewer ts (loaded ts up h) w
  = (results <- perform_all (loaded ts up h) (due up) ;;
     show_report preparer reviewer ts (concat_or_empty results)) w.
Proof.
  intros Hpre. unfold report_or_error.
  set (l := loaded ts up h).
  assert (pre_of l = loaded_ref (pre_file up) h) as Hl by done.
  destruct (pre_file up) as [[e|cols body]|] eqn:Epre; try done.
  rewrite Hl. cbn [loaded_ref].
  set (pre_df := S (length h)).
  assert (loaded_table PreBalances l = Some pre_df) as Hpre_df.
  { cbn [loaded_table]. by rewrite Hl. }
  assert (int_of l = loaded_ref (post_int_file up)
                       (heap_after_pre_login up h)) as Hint by done.
  assert (sub_of l = loaded_ref (post_sub_file up)
                       (heap_after_int up h)) as Hsub by done.
  assert (login_of l = loaded_ref (post_login_file up)
                         (heap_after_sub up h)) as Hlogin by done.
  assert (pre_login_of l = loaded_ref (pre_login_file up)
                             (heap_after_pre up h)) as Hprelogin by done.
  unfold reconcile_all, perform_all, due.
  rewrite bind_for_each_app. apply bind_run.
  { rewrite Hint.
    destruct (post_int_file up) as [[e|c b]|]; cbn [loaded_ref parses];
      [done| |done].
    rewrite for_each_one. apply bind_run; [|done].
    symmetry. apply perform_compare; [done|]. cbn [loaded_table].
    by rewrite Hint. }
  intros results1 w1 _.
  rewrite bind_for_each_app. apply bind_run.
  { rewrite Hsub.
    destruct (post_sub_file up) as [[e|c b]|]; cbn [loaded_ref parses];
      [done| |done].
    rewrite for_each_one. apply bind_run; [|done].
    symmetry. apply perform_compare; [done|]. cbn [loaded_table].
    by rewrite Hsub. }
  intros results2 w2 _.
  apply bind_run; [|done].
  rewrite Hlogin, Hprelogin.
  destruct (post_login_file up) as [[e|c b]|]; cbn [loaded_ref parses];
    [done| |done].
  assert (∀ results,
            (f <- load pre_df ;;
             pre_ids <- lift (player_ids f) ;;
             r <- reconcile_login pre_ids (S (length (heap_after_sub up h))) ;;
             ret (results ++ [r])) w2
            = for_each [Presence PreBalances PostLogin]
                (λ results x, r <- perform l x ;; ret (results ++ [r]))
                results w2) as Hpresence.
  { intros results. rewrite for_each_one. symmetry.
    transitivity
      (bind (f <- load pre_df ;;
             pre_ids <- lift (player_ids f) ;;
             reconcile_login pre_ids (S (length (heap_after_sub up h))))
            (λ r, ret (results ++ [r])) w2).
    - apply bind_run; [|done]. apply perform_presence; [done|].
      cbn [loaded_table]. by rewrite Hlogin.
    - rewrite bind_assoc. apply bind_cong. intros f w3 _.
      apply bind_assoc. }
  destruct (pre_login_file up) as [[e'|c' b']|]; cbn [loaded_ref parses].
  - apply Hpresence.
  - rewrite for_each_one. apply bind_run; [|done].
    symmetry. apply perform_compare; cbn [loaded_table].
    + by rewrite Hprelogin.
    + by rewrite Hlogin.
  - apply Hpresence.
Qed.
End reconciliations.

Section failures.
Context {K : Type} `{EqDecision K} {V : Type} `{Dtype V}.
Implicit Types (w : World K V).

Local Notation "x <- m ;; k" := (bind m (λ x, k))
  (at level 100, m at next level, right associativity).
Local Notation "m ;; k" := (bind m (λ _, k))
  (at level 100, right associativity).

(** The run when the pre-balances file does not parse. *)
Lemma run_reconciliation_pre_failed (preparer reviewer ts err : string)
    (up : Uploads) w :
  pre_file up = Some (Garbage err) → preparer ≠ "" → reviewer ≠ "" →
  ∃ fs, run_reconciliation preparer reviewer ts up w
        = (Ok tt,
           set_files fs (set_ui (ui w ++ [StError pre_failed_message])
                                (loaded_world ts up w))).
Proof.
  intros Hpre Hp Hr.
  rewrite run_reconciliation_loaded by (done || by rewrite Hpre).
  unfold report_or_error, loaded. cbn [pre_of]. rewrite Hpre. cbn [loaded_ref].
  unfold st_error. cbn [ui loaded_world].
  apply remove_saved_uploads; [apply NoDup_labels|].
  by exists (files w).
Qed.

(** The run with an optional file that does not parse, next to the run
    without that file. *)
Lemma run_reconciliation_without (preparer reviewer ts label e : string)
    (up : Uploads) w :
  label ∈ ["prelogin"; "int"; "sub"; "login"] →
  optional_upload label up = Some (Garbage e) →
  let run := run_reconciliation preparer reviewer ts up w in
  let run' :=
    run_reconciliation preparer reviewer ts (without_upload label up) w in
  run.1 = run'.1 ∧ ui run.2 = ui run'.2 ∧ heap run.2 = heap run'.2.
Proof.
  intros Hlabel Hup run run'. subst run run'.
  destruct (decide (pre_file up = None)) as [Hpre|Hpre].
  { unfold run_reconciliation. cbn [pre_file without_upload].
    by rewrite !bool_decide_true by done. }
  destruct (decide (preparer = "")) as [Hp|Hp].
  { unfold run_reconciliation. cbn [pre_file without_upload].
    rewrite !(bool_decide_false (pre_file up = None)) by done.
    by rewrite !(bool_decide_true (preparer = "")) by done. }
  destruct (decide (reviewer = "")) as [Hr|Hr].
  { unfold run_reconciliation. cbn [pre_file without_upload].
    rewrite !(bool_decide_false (pre_file up = None)) by done.
    rewrite !(bool_decide_true (reviewer = "")) by done.
    by rewrite !orb_true_r. }
  rewrite !run_reconciliation_loaded by done.
  destruct (loaded_without_upload ts label e up (heap w) Hlabel Hup)
    as [Hheap Hprog].
  rewrite Hprog.
  set (prog := report_or_error preparer reviewer ts (loaded ts up (heap w))).
  set (w1 := loaded_world ts up w).
  set (w1' := loaded_world ts (without_upload label up) w).
  destruct (blind_report_or_error preparer reviewer ts
              (loaded ts up (heap w)) w1 w1') as (Hres & Hh & Hu & Hf).
  { subst w1 w1'. simpl. by rewrite Hheap. }
  { done. }
  pose proof (report_or_error_files preparer reviewer ts
                (loaded ts up (heap w)) w1') as Hf'.
  fold prog in Hres, Hh, Hu, Hf, Hf'.
  destruct (prog w1) as [[[]|e1] w2], (prog w1') as [[[]|e1'] w2'];
    simpl in Hres, Hh, Hu, Hf, Hf'; simplify_eq; [|done].
  destruct (remove_saved_uploads ts (labelled up) w2 (NoDup_labels up))
    as [fs ->]; [by exists (files w); rewrite Hf|].
  destruct (remove_saved_uploads ts (labelled (without_upload label up)) w2'
              (NoDup_labels _)) as [fs' ->];
    [by exists (files w); rewrite Hf'|].
  done.
Qed.

(** The run whose pre-balances file parses: loading, the reconciliations
    due, the report, the clean-up. *)
Lemma run_reconciliation_due (preparer reviewer ts : string) (up : Uploads)
    w :
  parses (pre_file up) = true → preparer ≠ "" → reviewer ≠ "" →
  run_reconciliation preparer reviewer ts up w
  = (l <- load_uploads ts up ;;
     results <- perform_all l (due up) ;;
     show_report preparer reviewer ts (concat_or_empty results) ;;
     remove_temporaries (paths_of l)) w.
Proof.
  intros Hpre Hp Hr. unfold run_reconciliation.
  rewrite bool_decide_false by (intros Hnone; by rewrite Hnone in Hpre).
  rewrite !bool_decide_false by done. cbn [orb].
  rewrite !(bind_ok _ _ _ _ _ (load_uploads_run ts up w)).
  rewrite <- bind_assoc. apply bind_run; [|done].
  by apply report_or_error_due.
Qed.

(** A reconciliation that is due reads sources that parse. *)
Lemma due_reads_parsed (up : Uploads (K:=K) (V:=V)) (x : Reconciliation)
    (s : Source) :
  parses (pre_file up) = true → x ∈ due up → s ∈ reads x →
  parses (upload s up) = true.
Proof.
  intros Hpre Hx Hs. unfold due in Hx.
  destruct (parses (post_int_file up)) eqn:E1,
           (parses (post_sub_file up)) eqn:E2,
           (parses (post_login_file up)) eqn:E3,
           (parses (pre_login_file up)) eqn:E4;
    simpl in Hx;
    repeat (apply elem_of_cons in Hx as [->|Hx]);
    try (by apply elem_of_nil in Hx);
    simpl in Hs;
    repeat (apply elem_of_cons in Hs as [->|Hs]);
    try (by apply elem_of_nil in Hs); done.
Qed.

(** An optional source that does not parse counts as one that is not
    there. *)
Lemma due_without_upload (up : Uploads (K:=K) (V:=V)) (s : Source)
    (e : string) :
  s ≠ PreBalances → upload s up = Some (Garbage e) →
  due (without_upload (label_of s) up) = due up.
Proof.
  intros Hs Hup. unfold due.
  destruct s; try done; simpl in Hup; simpl; by rewrite Hup.
Qed.

(** C7.  When the pre-balances file does not parse, loading returns no
    pre table; the run ends normally with one widget more on the page, the
    error message of the failed pre file, which is neither of the other two
    error messages; the store and the log are those that loading left, so
    no reconciliation ran, and the log holds the error text.  When the
    pre-balances file parses, the run loads the files, carries out the
    reconciliations that are due, in their order, shows the report of what
    they returned and removes the temporary files.  A reconciliation is
    due when its post file parses, so it reads files that parse only, and
    an optional file that does not parse leaves due what is due without
    it: the run then returns what the run without that upload returns and
    leaves the same page and the same store.  For [LastLoginDate] the
    reconciliation due is the comparison of the values when the pre login
    file parses, and the check of the presence of the keys of the
    pre-balances table when it does not. *)
Theorem pre_failure_is_fatal_optional_failure_is_not
    (preparer reviewer ts : string) (up : Uploads) w :
  (∀ err, pre_file up = Some (Garbage err) → preparer ≠ "" → reviewer ≠ "" →
     let run := run_reconciliation preparer reviewer ts up w in
     load_uploads ts up w = (Ok (loaded ts up (heap w)), loaded_world ts up w)
     ∧ pre_of (loaded ts up (heap w)) = None
     ∧ run.1 = Ok tt
     ∧ ui run.2 = ui w ++ [StError pre_failed_message]
     ∧ heap run.2 = heap (loaded_world ts up w)
     ∧ log run.2 = log (loaded_world ts up w)
     ∧ "Validation failed: " +:+ err ∈ log run.2
     ∧ pre_failed_message ≠ "Please upload the Pre-Migration file."
     ∧ pre_failed_message ≠ "Please enter both preparer and reviewer names.")
  ∧ (parses (pre_file up) = true → preparer ≠ "" → reviewer ≠ "" →
       run_reconciliation preparer reviewer ts up w
       = (l <- load_uploads ts up ;;
          results <- perform_all l (due up) ;;
          show_report preparer reviewer ts (concat_or_empty results) ;;
          remove_temporaries (paths_of l)) w
       ∧ ∀ x s, x ∈ due up → s ∈ reads x → parses (upload s up) = true)
  ∧ (∀ s e, s ≠ PreBalances → upload s up = Some (Garbage e) →
       due (without_upload (label_of s) up) = due up)
  ∧ (∀ label e, label ∈ ["prelogin"; "int"; "sub"; "login"] →
       optional_upload label up = Some (Garbage e) →
       let run := run_reconciliation preparer reviewer ts up w in
       let run' :=
         run_reconciliation preparer reviewer ts (without_upload label up) w in
       run.1 = run'.1 ∧ ui run.2 = ui run'.2 ∧ heap run.2 = heap run'.2)
  ∧ (parses (post_login_file up) = true →
       (parses (pre_login_file up) = true →
          Compare PreLogin PostLogin "LastLoginDate" ∈ due up
          ∧ Presence PreBalances PostLogin ∉ due up)
       ∧ (parses (pre_login_file up) = false →
            Presence PreBalances PostLogin ∈ due up
            ∧ Compare PreLogin PostLogin "LastLoginDate" ∉ due up)).
Proof.
  split; [|split; [|split; [|split]]].
  - intros err Hpre Hp Hr run.
    destruct (run_reconciliation_pre_failed preparer reviewer ts err up w
                Hpre Hp Hr) as [fs Hrun].
    subst run. rewrite Hrun. cbn [fst snd].
    split; [apply load_uploads_run|].
    split; [unfold loaded; cbn [pre_of]; by rewrite Hpre|].
    repeat split; try done.
    cbn [log set_files set_ui loaded_world]. unfold loaded_log.
    rewrite Hpre. cbn [pre_entries validation_entries].
    apply elem_of_app. right. by left.
  - intros Hpre Hp Hr. split; [by apply run_reconciliation_due|].
    intros x s. by apply due_reads_parsed.
  - apply due_without_upload.
  - intros label e. apply run_reconciliation_without.
  - intros Hlogin. unfold due. rewrite Hlogin.
    split; intros Hprelogin; rewrite Hprelogin;
      destruct (parses (post_int_file up)), (parses (post_sub_file up));
      simpl;
      (split;
       [repeat first [by left | right]
       |intros Hin;
        repeat (apply elem_of_cons in Hin as [Hin|Hin]; [discriminate|]);
        by apply elem_of_nil in Hin]).
Qed.

(** C8.  What [validate_file] does is decided by the file alone.  A file
    that parses gives, whatever columns are required, the reference of a
    table with all the rows of the file, read after the sample of at most
    100 rows; the log gets the line of the columns found and, when required
    columns are missing, one line with exactly those, which are the
    required columns that the file does not have.  A file that does not
    parse, or no file, gives [None] and the error text in the log. *)
Theorem validate_file_result (path : string)
    (required_cols : option (list string)) w :
  match files w !! path with
  | Some (Csv cols body) =>
      ∃ df w',
        validate_file (Some path) required_cols w = (Ok (Some df), w')
        ∧ heap w' !! df = Some (table_of cols body)
        ∧ heap w'
          = heap w ++ [table_of cols (take_N 100 body); table_of cols body]
        ∧ log w'
          = log w
            ++ columns_message path cols
               :: match missing_columns cols required_cols with
                  | [] => []
                  | missing => [missing_message path missing]
                  end
        ∧ ∀ col, col ∈ missing_columns cols required_cols
                 ↔ (∃ required, required_cols = Some required
                                ∧ col ∈ required)
                   ∧ col ∉ "PlayerID" :: cols
  | Some (Garbage err) =>
      validate_file (Some path) required_cols w
      = (Ok None, set_log (log w ++ ["Validation failed: " +:+ err]) w)
  | None =>
      validate_file (Some path) required_cols w
      = (Ok None,
         set_log (log w ++ ["Validation failed: [Errno 2] No such file or directory: '"
                            +:+ path +:+ "'"]) w)
  end.
Proof.
  rewrite validate_file_run.
  destruct (files w !! path) as [[err|cols body]|]; [done| |done].
  eexists _, _. split; [done|]. cbn [heap log set_log set_heap].
  split.
  { replace (S (length (heap w))) with (length (heap w) + 1)%nat by lia.
    by rewrite lookup_app_at. }
  split; [done|]. split; [done|].
  intros col. unfold missing_columns.
  destruct required_cols as [required|].
  - rewrite list_elem_of_filter. split.
    + intros [Hmissing Hin]. split; [by exists required | done].
    + intros [(required' & [= <-] & Hin) Hmissing]. done.
  - split; [by intros ?%elem_of_nil | by intros [(? & ? & _) _]].
Qed.
End failures.

Lemma pre_failure_is_fatal_optional_failure_is_not_witness :
  (let up := SpecExample.failing_uploads in
   let w := SpecExample.world in
   pre_file up = Some (Garbage "Error tokenizing data")
   ∧ "Ann Lee" ≠ "" ∧ "Bob Ray" ≠ ""
   ∧ PostInteractive ≠ PreBalances
   ∧ upload PostInteractive up = Some (Garbage "No columns to parse from file")
   ∧ "int" ∈ ["prelogin"; "int"; "sub"; "login"]
   ∧ optional_upload "int" up = Some (Garbage "No columns to parse from file")
   ∧ (let run :=
        run_reconciliation "Ann Lee" "Bob Ray" "20240131_120000" up w in
      run.1 = Ok tt
      ∧ ui run.2 = ui w ++ [StError pre_failed_message])
   ∧ due (without_upload "int" up) = due up
   ∧ (let run :=
        run_reconciliation "Ann Lee" "Bob Ray" "20240131_120000" up w in
      let run' := run_reconciliation "Ann Lee" "Bob Ray" "20240131_120000"
                    (without_upload "int" up) w in
      run.1 = run'.1 ∧ ui run.2 = ui run'.2 ∧ heap run.2 = heap run'.2))
  ∧ (let up := DateExample.uploads in
     let w := DateExample.world in
     parses (pre_file up) = true
     ∧ "Ann Lee" ≠ "" ∧ "Bob Ray" ≠ ""
     ∧ parses (post_login_file up) = true
     ∧ parses (pre_login_file up) = false
     ∧ run_reconciliation "Ann Lee" "Bob Ray" "20240131_120000" up w
       = bind (load_uploads "20240131_120000" up) (λ l,
         bind (perform_all l (due up)) (λ results,
         bind (show_report "Ann Lee" "Bob Ray" "20240131_120000"
                 (concat_or_empty results)) (λ _,
         remove_temporaries (paths_of l)))) w
     ∧ Presence PreBalances PostLogin ∈ due up).
Proof.
  split.
  - intros up w.
    assert ("int" ∈ ["prelogin"; "int"; "sub"; "login"]) as Hlabel
      by (right; left).
    destruct (pre_failure_is_fatal_optional_failure_is_not
                "Ann Lee" "Bob Ray" "20240131_120000" up w)
      as (Hfatal & _ & Hdue & Hsoft & _).
    split; [reflexivity|]. split; [discriminate|]. split; [discriminate|].
    split; [discriminate|]. split; [reflexivity|].
    split; [exact Hlabel|]. split; [reflexivity|]. split; [|split].
    + destruct (Hfatal "Error tokenizing data" eq_refl
                  ltac:(discriminate) ltac:(discriminate))
        as (_ & _ & Hres & Hui & _).
      split; [exact Hres | exact Hui].
    + exact (Hdue PostInteractive "No columns to parse from file"
               ltac:(discriminate) eq_refl).
    + exact (Hsoft "int" "No columns to parse from file" Hlabel eq_refl).
  - intros up w.
    destruct (pre_failure_is_fatal_optional_failure_is_not
                "Ann Lee" "Bob Ray" "20240131_120000" up w)
      as (_ & Hrun & _ & _ & Hlogin).
    split; [reflexivity|]. split; [discriminate|]. split; [discriminate|].
    split; [reflexivity|]. split; [reflexivity|]. split.
    + exact (proj1 (Hrun eq_refl ltac:(discriminate) ltac:(discriminate))).
    + exact (proj1 (proj2 (Hlogin eq_refl) eq_refl)).
Defined.

(** C7 as stated fails for the pre login file: when it does not parse, the
    [LastLoginDate] reconciliation is not disabled.  The run reports the
    key 2 of the pre-balances table, which the post login table does not
    have, as a [LastLoginDate] exception, and the run without the two
    login files reports nothing. *)
Lemma run_reconciliation_pre_login_failure :
  let up := DateExample.uploads in
  let w := DateExample.world in
  let report : DataFrame Z Scalar :=
    {| df_columns := ["PlayerID"; "Metric"; "Status"];
       df_rows := [[Key 2%Z; Str "LastLoginDate"; Str "Missing Post"]] |} in
  pre_login_file up = Some (Garbage "Error tokenizing data")
  ∧ ui (run_reconciliation "Ann Lee" "Bob Ray" "20240131_120000" up w).2
    = [Summary "Ann Lee" "Bob Ray" "20240131_120000" 1 ["LastLoginDate"];
       StDataframe report;
       DownloadButton "exceptions_Ann_Lee_20240131_120000.csv" report]
  ∧ ui (run_reconciliation "Ann Lee" "Bob Ray" "20240131_120000"
          (without_upload "login" (without_upload "prelogin" up)) w).2
    = [NoMismatches "Ann Lee" "Bob Ray" "20240131_120000"].
Proof. intros up w report. split; [reflexivity|]. by vm_compute. Qed.


(** * Further properties of the code *)

(** ** [validate_file] never raises *)

Section validation.
Context {K : Type} `{EqDecision K} {V : Type} `{Dtype V}.
Implicit Types (w : World K V).

End validation.

(** ** The batches of lines 44 and 45 *)

Lemma range_from_length (fuel : nat) (i stop : N) (c : positive) :
  (N.to_nat stop - N.to_nat i ≤ fuel)%nat →
  length (range_from fuel i stop c)
  = ((N.to_nat stop - N.to_nat i + Pos.to_nat c - 1) / Pos.to_nat c)%nat.
Proof.
  revert i. induction fuel as [|fuel IH]; intros i Hfuel; simpl.
  - replace (N.to_nat stop - N.to_nat i)%nat with 0%nat by lia.
    symmetry. apply Nat.div_small. lia.
  - destruct (N.ltb_spec i stop) as [Hlt|Hge]; simpl.
    + rewrite IH by lia.
      replace (N.to_nat (i + N.pos c)) with (N.to_nat i + Pos.to_nat c)%nat
        by lia.
      destruct (le_lt_dec (Pos.to_nat c) (N.to_nat stop - N.to_nat i))
        as [Hle|Hlt'].
      * replace (N.to_nat stop - N.to_nat i + Pos.to_nat c - 1)%nat
          with ((N.to_nat stop - (N.to_nat i + Pos.to_nat c)
                 + Pos.to_nat c - 1)
                + 1 * Pos.to_nat c)%nat by lia.
        rewrite Nat.div_add by lia. lia.
      * replace (N.to_nat stop - (N.to_nat i + Pos.to_nat c))%nat
          with 0%nat by lia.
        rewrite (Nat.div_small (0 + _ - 1)) by lia.
        symmetry.
        replace (N.to_nat stop - N.to_nat i + Pos.to_nat c - 1)%nat
          with ((N.to_nat stop - N.to_nat i - 1) + 1 * Pos.to_nat c)%nat
          by lia.
        rewrite Nat.div_add by lia. rewrite Nat.div_small by lia. done.
    + replace (N.to_nat stop - N.to_nat i)%nat with 0%nat by lia.
      symmetry. apply Nat.div_small. lia.
Qed.

Lemma range_from_bounds (fuel : nat) (i stop : N) (c : positive) (j : N) :
  j ∈ range_from fuel i stop c → (i ≤ j < stop)%N.
Proof.
  revert i. induction fuel as [|fuel IH]; intros i; simpl.
  - by intros ?%elem_of_nil.
  - destruct (N.ltb_spec i stop) as [Hlt|Hge]; [|by intros ?%elem_of_nil].
    intros [->|Hj%IH]%elem_of_cons; lia.
Qed.

(** X2.  The batches [common_ids[i:i + chunk_size]] for [i] in
    [range(0, len(common_ids), chunk_size)] are a partition of the keys:
    put end to end they are the keys, every batch holds at least one key
    and at most [chunk_size], and there are [len / chunk_size] of them,
    rounded up. *)
Theorem batches_partition {A} (l : list A) (chunk_size : positive) :
  let starts := range (N.of_nat (length l)) chunk_size in
  let batches := (λ i, slice l i (i + Npos chunk_size)) <$> starts in
  mjoin batches = l
  ∧ Forall (λ b, (0 < length b ≤ Pos.to_nat chunk_size)%nat) batches
  ∧ length batches
    = ((length l + Pos.to_nat chunk_size - 1) / Pos.to_nat chunk_size)%nat.
Proof.
  intros starts batches. split; [apply slices_range|]. split.
  - apply Forall_fmap, Forall_forall. intros i Hi. simpl.
    apply range_from_bounds in Hi. rewrite slice_take_drop.
    rewrite length_take, length_drop. lia.
  - subst batches starts. rewrite length_fmap. unfold range.
    rewrite range_from_length by lia.
    rewrite Nat2N.id. by rewrite Nat.sub_0_r.
Qed.

(** ** More about the report of [reconcile_metric] *)

Lemma omap_Forall2 {A B C} (f : A → option C) (g : B → option C)
    (l : list A) (l' : list B) :
  Forall2 (λ x y, f x = g y) l l' → omap f l = omap g l'.
Proof.
  induction 1 as [|x y l l' Hxy _ IH]; [done|]. rewrite !omap_cons.
  by rewrite Hxy, IH.
Qed.

Section inputs.
Context {K : Type} `{EqDecision K} {V : Type} `{Numeric V}.
Implicit Types (w : World K V) (t pre post : Frame K V) (r : Row K V).

Lemma exception_rows_nil pre post (m : string) :
  exception_rows pre post m = []
  ↔ ∀ k a b, has_value pre m k a → has_value post m k b →
             nonzero (sub a b) = false.
Proof.
  split.
  - intros Hnil k a b Ha Hb. destruct (nonzero (sub a b)) eqn:Hnz; [|done].
    assert (exception_row m k a b ∈ exception_rows pre post m) as Hin.
    { apply elem_of_exception_rows. eauto 10. }
    rewrite Hnil in Hin. by apply elem_of_nil in Hin.
  - intros Hall. destruct (exception_rows pre post m) as [|row rows] eqn:E;
      [done|].
    assert (row ∈ exception_rows pre post m) as Hin by (rewrite E; by left).
    apply elem_of_exception_rows in Hin as (k & a & b & Ha & Hb & Hnz & _).
    by rewrite (Hall k a b Ha Hb) in Hnz.
Qed.

(** X3.  The two reports without rows.  When the two tables have no key in
    common, the loop does not run and the report is [pd.DataFrame()], with
    no column at all; when they have one, the report has its five
    columns.  Either way the report is without rows exactly when no key
    has a value in [pre] and a value in [post] whose difference is not
    zero. *)
Theorem reconcile_metric_empty_reports (lp lq : ref) (metric : string)
    w pre post :
  heap w !! lp = Some pre → heap w !! lq = Some post →
  has_metric pre metric → has_metric post metric →
  ∃ out, (reconcile_metric lp lq metric w).1 = Ok out
    ∧ (common_keys pre post metric = [] → out = empty_DataFrame)
    ∧ (common_keys pre post metric ≠ [] →
         df_columns out = report_columns metric)
    ∧ (df_rows out = []
       ↔ ∀ k a b, has_value pre metric k a → has_value post metric k b →
                  nonzero (sub a b) = false).
Proof.
  intros Hlp Hlq Hpre Hpost. eexists. split.
  { by apply reconcile_metric_with_tables. }
  split; [|split].
  - unfold exception_report. by intros ->.
  - unfold exception_report. by destruct (common_keys pre post metric).
  - rewrite exception_report_rows. apply exception_rows_nil.
Qed.

(** X4.  A table reconciled with itself, or with a copy of itself, has no
    exception, provided its keys are distinct and a value minus itself is
    zero.  The two arguments may be the same frame: [reconcile_metric]
    works on copies. *)
Theorem reconcile_metric_same_table (lp lq : ref) (metric : string) w t :
  (∀ a : V, nonzero (sub a a) = false) →
  heap w !! lp = Some t → heap w !! lq = Some t →
  has_metric t metric → NoDup (omap PlayerID (rows t)) →
  ∃ out, (reconcile_metric lp lq metric w).1 = Ok out ∧ df_rows out = [].
Proof.
  intros Hsub Hlp Hlq Ht Hnd. eexists. split.
  { by apply reconcile_metric_with_tables. }
  rewrite exception_report_rows. apply exception_rows_nil.
  intros k a b Ha%elem_of_values_at Hb%elem_of_values_at.
  pose proof (values_at_unique t metric k Hnd) as Hlen.
  destruct (values_at t metric k) as [|v [|]]; simpl in Hlen; [| |lia].
  - by apply elem_of_nil in Ha.
  - apply list_elem_of_singleton in Ha, Hb. subst. apply Hsub.
Qed.

(** Rows that agree on the key and on the metric. *)
Lemma keys_with_value_agree t t' (m : string) :
  Forall2 (λ r r', PlayerID r = PlayerID r'
                   ∧ value_of t m r = value_of t' m r') (rows t) (rows t') →
  keys_with_value t m = keys_with_value t' m.
Proof.
  intros Hrows. unfold keys_with_value. apply omap_Forall2.
  eapply Forall2_impl; [exact Hrows|]. by intros r r' [-> ->].
Qed.

Lemma values_at_agree t t' (m : string) (k : K) :
  Forall2 (λ r r', PlayerID r = PlayerID r'
                   ∧ value_of t m r = value_of t' m r') (rows t) (rows t') →
  values_at t m k = values_at t' m k.
Proof.
  intros Hrows. unfold values_at. apply omap_Forall2.
  eapply Forall2_impl; [exact Hrows|]. by intros r r' [-> ->].
Qed.

Lemma exception_report_agree pre pre' post post' (m : string) :
  common_keys pre post m = common_keys pre' post' m →
  (∀ k, values_at pre m k = values_at pre' m k) →
  (∀ k, values_at post m k = values_at post' m k) →
  exception_report pre post m = exception_report pre' post' m.
Proof.
  intros Hkeys Hpre Hpost. unfold exception_report, exception_rows.
  rewrite Hkeys. destruct (common_keys pre' post' m) as [|k ks]; [done|].
  f_equal. apply bind_ext_in. intros k' _. unfold key_exceptions.
  by rewrite Hpre, Hpost.
Qed.

(** X5.  [reconcile_metric] reads the key and the metric column of its
    tables and nothing else: two pairs of tables whose rows agree, one
    by one, on the key and on the metric give the same report, whatever
    other columns they have and wherever the metric column stands. *)
Theorem reconcile_metric_reads_key_and_metric (lp lq lp' lq' : ref)
    (metric : string) w w' pre post pre' post' :
  heap w !! lp = Some pre → heap w !! lq = Some post →
  heap w' !! lp' = Some pre' → heap w' !! lq' = Some post' →
  has_metric pre metric → has_metric post metric →
  has_metric pre' metric → has_metric post' metric →
  Forall2 (λ r r', PlayerID r = PlayerID r'
                   ∧ value_of pre metric r = value_of pre' metric r')
          (rows pre) (rows pre') →
  Forall2 (λ r r', PlayerID r = PlayerID r'
                   ∧ value_of post metric r = value_of post' metric r')
          (rows post) (rows post') →
  (reconcile_metric lp lq metric w).1 = (reconcile_metric lp' lq' metric w').1.
Proof.
  intros Hlp Hlq Hlp' Hlq' Hpre Hpost Hpre' Hpost' Hrows_pre Hrows_post.
  unfold reconcile_metric.
  rewrite (reconcile_metric_with_tables _ lp lq metric w pre post)
    by done.
  rewrite (reconcile_metric_with_tables _ lp' lq' metric w' pre' post')
    by done.
  f_equal. apply exception_report_agree.
  - unfold common_keys.
    by rewrite (keys_with_value_agree pre pre' metric),
      (keys_with_value_agree post post' metric).
  - intros k. by apply values_at_agree.
  - intros k. by apply values_at_agree.
Qed.

(** X6.  When the keys of [post] are distinct, the order of its rows does
    not matter: the report, rows and order of rows, is that of any
    rearrangement of [post].  The order comes from [pre] alone. *)
Theorem reconcile_metric_post_order (lp lq lq' : ref) (metric : string)
    w pre post post' :
  heap w !! lp = Some pre → heap w !! lq = Some post →
  heap w !! lq' = Some post' →
  has_metric pre metric → has_metric post metric →
  indexed post' = false → columns post' = columns post →
  rows post' ≡ₚ rows post →
  NoDup (omap PlayerID (rows post)) →
  (reconcile_metric lp lq' metric w).1 = (reconcile_metric lp lq metric w).1.
Proof.
  intros Hlp Hlq Hlq' Hpre Hpost Hi Hcols Hperm Hnd.
  assert (has_metric post' metric) as Hpost'.
  { destruct Hpost as (_ & Hm & Hc). by rewrite <- Hcols in Hc. }
  unfold reconcile_metric.
  rewrite (reconcile_metric_with_tables _ lp lq metric w pre post) by done.
  rewrite (reconcile_metric_with_tables _ lp lq' metric w pre post') by done.
  f_equal.
  assert (keys_with_value post' metric ≡ₚ keys_with_value post metric)
    as Hkeys.
  { unfold keys_with_value, value_of. rewrite Hcols.
    by apply omap_Permutation. }
  assert (∀ k, values_at post' metric k = values_at post metric k) as Hvals.
  { intros k.
    assert (values_at post' metric k ≡ₚ values_at post metric k) as Hp.
    { unfold values_at, value_of. rewrite Hcols. by apply omap_Permutation. }
    pose proof (values_at_unique post metric k Hnd) as Hlen.
    destruct (values_at post metric k) as [|v [|]]; simpl in Hlen; [| |lia].
    - by apply Permutation_nil_r.
    - by apply Permutation_singleton_r. }
  apply exception_report_agree; [|done|done].
  unfold common_keys. apply list_filter_iff. intros k. by rewrite Hkeys.
Qed.
End inputs.

Section login_inputs.
Context {K : Type} `{EqDecision K} {V : Type} `{Dtype V}.
Implicit Types (w : World K V) (t pre post : Frame K V) (r : Row K V).

(** ** [reconcile_login] without the column *)

Lemma reconcile_login_no_column (pre_ids : list (option K)) (lq : ref)
    w post :
  heap w !! lq = Some post → indexed post = false →
  "LastLoginDate" ∉ columns post →
  reconcile_login pre_ids lq w = (Raise (KeyError "LastLoginDate"), w).
Proof.
  intros Hlq Hi Hc. unfold reconcile_login, new_from.
  unfold bind at 1. unfold bind at 1. unfold load at 1. rewrite Hlq.
  unfold bind at 1, lift at 1, getitem. rewrite Hi.
  rewrite decide_False by done.
  by rewrite (proj2 (col_pos_None _ _) Hc).
Qed.

(** X7.  [reconcile_login] has no check for its column: on every post
    table without a [LastLoginDate] column, and for every list of keys, it
    raises [KeyError] at line 59, before it has made a copy or written a
    line to the log. *)
Theorem reconcile_login_missing_column (pre_ids : list (option K)) (lq : ref)
    w post :
  heap w !! lq = Some post → indexed post = false →
  "LastLoginDate" ∉ columns post →
  reconcile_login pre_ids lq w = (Raise (KeyError "LastLoginDate"), w).
Proof. apply reconcile_login_no_column. Qed.
End login_inputs.

Lemma reconcile_metric_empty_reports_witness :
  heap SpecExample.world !! 0%nat = Some SpecExample.pre
  ∧ heap SpecExample.world !! 1%nat = Some SpecExample.post
  ∧ has_metric SpecExample.pre "Balance"
  ∧ has_metric SpecExample.post "Balance"
  ∧ ∃ out, (reconcile_metric 0 1 "Balance" SpecExample.world).1 = Ok out
      ∧ (common_keys SpecExample.pre SpecExample.post "Balance" ≠ [] →
           df_columns out = report_columns "Balance").
Proof.
  assert (has_metric SpecExample.pre "Balance") as Hpre.
  { repeat split; [discriminate | constructor]. }
  assert (has_metric SpecExample.post "Balance") as Hpost.
  { repeat split; [discriminate | constructor]. }
  split; [reflexivity|]. split; [reflexivity|].
  split; [exact Hpre|]. split; [exact Hpost|].
  destruct (reconcile_metric_empty_reports 0 1 "Balance" SpecExample.world
              SpecExample.pre SpecExample.post eq_refl eq_refl Hpre Hpost)
    as (out & Hout & _ & Hcols & _).
  exists out. split; [exact Hout | exact Hcols].
Defined.

Lemma reconcile_metric_same_table_witness :
  (∀ a : Z, nonzero (sub a a) = false)
  ∧ heap SpecExample.world !! 0%nat = Some SpecExample.pre
  ∧ has_metric SpecExample.pre "Balance"
  ∧ NoDup (omap PlayerID (rows SpecExample.pre))
  ∧ ∃ out, (reconcile_metric 0 0 "Balance" SpecExample.world).1 = Ok out
           ∧ df_rows out = [].
Proof.
  assert (∀ a : Z, nonzero (sub a a) = false) as Hsub.
  { intros a. simpl. unfold Int64.nonzero, Int64.sub. by rewrite Z.sub_diag. }
  assert (has_metric SpecExample.pre "Balance") as Hpre.
  { repeat split; [discriminate | constructor]. }
  assert (NoDup (omap PlayerID (rows SpecExample.pre))) as Hnd.
  { apply (bool_decide_unpack _). vm_compute. exact I. }
  split; [exact Hsub|]. split; [reflexivity|]. split; [exact Hpre|].
  split; [exact Hnd|].
  apply (reconcile_metric_same_table 0 0 "Balance" SpecExample.world
           SpecExample.pre Hsub eq_refl eq_refl Hpre Hnd).
Defined.

Lemma reconcile_metric_reads_key_and_metric_witness :
  let w := MoreExamples.world in
  heap w !! 0%nat = Some SpecExample.pre
  ∧ heap w !! 1%nat = Some SpecExample.post
  ∧ heap w !! 2%nat = Some MoreExamples.pre_wide
  ∧ has_metric SpecExample.pre "Balance"
  ∧ has_metric SpecExample.post "Balance"
  ∧ has_metric MoreExamples.pre_wide "Balance"
  ∧ Forall2 (λ r r', PlayerID r = PlayerID r'
                     ∧ value_of SpecExample.pre "Balance" r
                       = value_of MoreExamples.pre_wide "Balance" r')
            (rows SpecExample.pre) (rows MoreExamples.pre_wide)
  ∧ Forall2 (λ r r', PlayerID r = PlayerID r'
                     ∧ value_of SpecExample.post "Balance" r
                       = value_of SpecExample.post "Balance" r')
            (rows SpecExample.post) (rows SpecExample.post)
  ∧ (reconcile_metric 0 1 "Balance" w).1 = (reconcile_metric 2 1 "Balance" w).1.
Proof.
  intros w.
  assert (has_metric SpecExample.pre "Balance") as Hpre.
  { repeat split; [discriminate | constructor]. }
  assert (has_metric SpecExample.post "Balance") as Hpost.
  { repeat split; [discriminate | constructor]. }
  assert (has_metric MoreExamples.pre_wide "Balance") as Hwide.
  { repeat split; [discriminate | right; constructor]. }
  assert (Forall2 (λ r r', PlayerID r = PlayerID r'
                     ∧ value_of SpecExample.pre "Balance" r
                       = value_of MoreExamples.pre_wide "Balance" r')
            (rows SpecExample.pre) (rows MoreExamples.pre_wide)) as Hrows.
  { repeat constructor. }
  assert (Forall2 (λ r r', PlayerID r = PlayerID r'
                     ∧ value_of SpecExample.post "Balance" r
                       = value_of SpecExample.post "Balance" r')
            (rows SpecExample.post) (rows SpecExample.post)) as Hrows'.
  { repeat constructor. }
  split; [reflexivity|]. split; [reflexivity|]. split; [reflexivity|].
  split; [exact Hpre|]. split; [exact Hpost|]. split; [exact Hwide|].
  split; [exact Hrows|]. split; [exact Hrows'|].
  apply (reconcile_metric_reads_key_and_metric 0 1 2 1 "Balance" w w
           SpecExample.pre SpecExample.post MoreExamples.pre_wide
           SpecExample.post eq_refl eq_refl eq_refl eq_refl
           Hpre Hpost Hwide Hpost Hrows Hrows').
Defined.

Lemma reconcile_metric_post_order_witness :
  let w := MoreExamples.world in
  heap w !! 0%nat = Some SpecExample.pre
  ∧ heap w !! 1%nat = Some SpecExample.post
  ∧ heap w !! 3%nat = Some MoreExamples.post_reversed
  ∧ has_metric SpecExample.pre "Balance"
  ∧ has_metric SpecExample.post "Balance"
  ∧ rows MoreExamples.post_reversed ≡ₚ rows SpecExample.post
  ∧ NoDup (omap PlayerID (rows SpecExample.post))
  ∧ (reconcile_metric 0 3 "Balance" w).1 = (reconcile_metric 0 1 "Balance" w).1.
Proof.
  intros w.
  assert (has_metric SpecExample.pre "Balance") as Hpre.
  { repeat split; [discriminate | constructor]. }
  assert (has_metric SpecExample.post "Balance") as Hpost.
  { repeat split; [discriminate | constructor]. }
  assert (rows MoreExamples.post_reversed ≡ₚ rows SpecExample.post) as Hperm.
  { apply perm_swap. }
  assert (NoDup (omap PlayerID (rows SpecExample.post))) as Hnd.
  { apply (bool_decide_unpack _). vm_compute. exact I. }
  split; [reflexivity|]. split; [reflexivity|]. split; [reflexivity|].
  split; [exact Hpre|]. split; [exact Hpost|]. split; [exact Hperm|].
  split; [exact Hnd|].
  apply (reconcile_metric_post_order 0 1 3 "Balance" w SpecExample.pre
           SpecExample.post MoreExamples.post_reversed
           eq_refl eq_refl eq_refl Hpre Hpost eq_refl eq_refl Hperm Hnd).
Defined.

Lemma reconcile_login_missing_column_witness :
  heap SpecExample.world !! 1%nat = Some SpecExample.post
  ∧ indexed SpecExample.post = false
  ∧ ("LastLoginDate" ∉ columns SpecExample.post)
  ∧ reconcile_login SpecExample.pre_keys 1 SpecExample.world
    = (Raise (KeyError "LastLoginDate"), SpecExample.world).
Proof.
  assert ("LastLoginDate" ∉ columns SpecExample.post) as Hc.
  { apply (bool_decide_unpack _). vm_compute. exact I. }
  split; [reflexivity|]. split; [reflexivity|]. split; [exact Hc|].
  apply (reconcile_login_missing_column SpecExample.pre_keys 1
           SpecExample.world SpecExample.post eq_refl eq_refl Hc).
Defined.


(** ** The summary of the exceptions (lines 124 to 153) *)

Lemma omap_app' {A B} (f : A → option B) (l l' : list A) :
  omap f (l ++ l') = omap f l ++ omap f l'.
Proof.
  induction l as [|x l IH]; [done|]. rewrite <- app_comm_cons, !omap_cons, IH.
  by destruct (f x).
Qed.

Lemma omap_fmap' {A B C} (g : A → B) (f : B → option C) (l : list A) :
  omap f (g <$> l) = omap (λ x, f (g x)) l.
Proof.
  induction l as [|x l IH]; [done|]. rewrite fmap_cons, !omap_cons, IH. done.
Qed.

Lemma omap_ext_in {A B} (f g : A → option B) (l : list A) :
  (∀ x, x ∈ l → f x = g x) → omap f l = omap g l.
Proof.
  induction l as [|x l IH]; intros Hfg; [done|]. rewrite !omap_cons.
  rewrite Hfg by (by left). rewrite IH by (intros; apply Hfg; by right). done.
Qed.


Lemma lookup_second {A} (h : list A) (x y : A) (rest : list A) :
  (h ++ x :: y :: rest) !! S (length h) = Some y.
Proof.
  replace (S (length h)) with (length h + 1)%nat by lia.
  by rewrite lookup_app_at.
Qed.

Section summary.
Context {K : Type} `{EqDecision K} {V : Type} `{Dtype V}.
Implicit Types (w : World K V) (d : DataFrame K V)
  (ds : list (DataFrame K V)) (row : list (Cell K V)).

Local Notation "x <- m ;; k" := (bind m (λ x, k))
  (at level 100, m at next level, right associativity).
Local Notation "m ;; k" := (bind m (λ _, k))
  (at level 100, right associativity).

(** A cell of a row laid out under more columns is the cell it was. *)
Lemma df_get_relaid (U cols : list string) row (c : string) :
  NoDup U → (c ∈ cols → c ∈ U) →
  df_get U (df_get cols row <$> U) c = df_get cols row c.
Proof.
  intros Hnd Hsub. unfold df_get at 1.
  destruct (col_pos c U) as [i|] eqn:Hpos.
  - apply col_pos_Some in Hpos. by rewrite list_lookup_fmap, Hpos.
  - apply col_pos_None in Hpos. unfold df_get.
    destruct (col_pos c cols) as [j|] eqn:Hj; [|done].
    destruct Hpos. apply Hsub. apply col_pos_Some in Hj.
    by eapply list_elem_of_lookup_2.
Qed.

Lemma elem_of_union_columns ds (c : string) :
  c ∈ union_columns ds ↔ ∃ d, d ∈ ds ∧ c ∈ df_columns d.
Proof.
  unfold union_columns. rewrite elem_of_unique, list_elem_of_bind.
  split; intros (d & ? & ?); eauto.
Qed.

Lemma concat_rows_length ds :
  length (df_rows (concat ds)) = total_rows ds.
Proof.
  unfold concat, total_rows. cbn [df_rows].
  generalize (union_columns ds). intros U.
  induction ds as [|d ds IH]; [done|].
  rewrite bind_cons, length_app, length_fmap, IH. done.
Qed.

Lemma metric_tag_text (cols : list string) row (s : string) :
  df_get cols row "Metric" = Str s → "Metric" ∈ cols.
Proof.
  unfold df_get. destruct (col_pos "Metric" cols) as [i|] eqn:Hpos; [|done].
  intros _. apply col_pos_Some in Hpos. by eapply list_elem_of_lookup_2.
Qed.

Lemma metric_tags_concat ds :
  metric_tags (concat ds) = ds ≫= metric_tags.
Proof.
  unfold metric_tags, concat. cbn [df_rows df_columns].
  assert (∀ d, d ∈ ds → ∀ c, c ∈ df_columns d → c ∈ union_columns ds) as Hsub.
  { intros d Hd c Hc. apply elem_of_union_columns. eauto. }
  assert (NoDup (union_columns ds)) as Hnd by apply NoDup_unique.
  revert Hsub Hnd. generalize (union_columns ds). intros U Hsub Hnd.
  induction ds as [|d ds IH]; [done|].
  rewrite !bind_cons, omap_app', omap_fmap'. f_equal.
  - apply omap_ext_in. intros row _. unfold metric_tag.
    rewrite df_get_relaid; [done | done |]. apply Hsub. by left.
  - apply IH. intros d' Hd'. apply Hsub. by right.
Qed.

Lemma metric_cells_tags (cols : list string) (rows : list (list (Cell K V))) :
  (∀ row, row ∈ rows → ∃ s, df_get cols row "Metric" = Str s) →
  foldr (λ row acc,
           match df_get cols row "Metric" with
           | Str s => result_bind acc (λ l, Ok (s :: l))
           | _ => Raise (ValueError "expected str instance")
           end) (Ok []) rows
  = Ok (omap (metric_tag cols) rows).
Proof.
  induction rows as [|row rows IH]; intros Htext; [done|].
  rewrite omap_cons. cbn [foldr]. unfold metric_tag at 1.
  destruct (Htext row) as [s ->]; [by left|].
  rewrite IH by (intros; apply Htext; by right). done.
Qed.

(** [metric_names] of a report whose rows are all tagged. *)
Lemma metric_names_tags d :
  "Metric" ∈ df_columns d →
  (∀ row, row ∈ df_rows d →
          ∃ s, df_get (df_columns d) row "Metric" = Str s) →
  metric_names d = Ok (merge_sort String.le (unique (metric_tags d))).
Proof.
  intros Hcol Htext. unfold metric_names.
  destruct (col_pos_is_Some _ _ Hcol) as [i ->].
  by rewrite (metric_cells_tags _ _ Htext).
Qed.

Lemma elem_of_metric_tags d (s : string) :
  s ∈ metric_tags d
  ↔ ∃ row, row ∈ df_rows d ∧ df_get (df_columns d) row "Metric" = Str s.
Proof.
  unfold metric_tags. rewrite list_elem_of_omap. unfold metric_tag.
  split; intros (row & Hrow & Hcell); exists row; split; try done.
  - by destruct (df_get _ _ _); simplify_eq.
  - by rewrite Hcell.
Qed.

Lemma metric_names_spec d :
  "Metric" ∈ df_columns d →
  (∀ row, row ∈ df_rows d →
          ∃ s, df_get (df_columns d) row "Metric" = Str s) →
  ∃ metrics, metric_names d = Ok metrics
    ∧ StronglySorted String.le metrics
    ∧ NoDup metrics
    ∧ ∀ s, s ∈ metrics
           ↔ ∃ row, row ∈ df_rows d
                    ∧ df_get (df_columns d) row "Metric" = Str s.
Proof.
  intros Hcol Htext. rewrite (metric_names_tags d Hcol Htext).
  eexists. split; [done|].
  split; [apply (StronglySorted_merge_sort _)|].
  split.
  { rewrite merge_sort_Permutation. apply NoDup_unique. }
  intros s. rewrite merge_sort_Permutation, elem_of_unique.
  apply elem_of_metric_tags.
Qed.

(** X8.  The metrics of the summary,
    [sorted(all_ex['Metric'].unique())]: on a report that has a [Metric]
    column of text, each metric that tags a row is listed once, and the
    list is in alphabetical order. *)
Theorem metric_names_sorted_distinct d :
  "Metric" ∈ df_columns d →
  (∀ row, row ∈ df_rows d →
          ∃ s, df_get (df_columns d) row "Metric" = Str s) →
  ∃ metrics, metric_names d = Ok metrics
    ∧ StronglySorted String.le metrics
    ∧ NoDup metrics
    ∧ ∀ s, s ∈ metrics
           ↔ ∃ row, row ∈ df_rows d
                    ∧ df_get (df_columns d) row "Metric" = Str s.
Proof. apply metric_names_spec. Qed.

(** The metrics of a report that is all about one metric. *)
Lemma metric_names_one d (m : string) :
  "Metric" ∈ df_columns d → df_rows d ≠ [] →
  (∀ row, row ∈ df_rows d → df_get (df_columns d) row "Metric" = Str m) →
  metric_names d = Ok [m].
Proof.
  intros Hcol Hne Hall.
  destruct (metric_names_spec d Hcol) as (ms & -> & _ & Hnd & Hin).
  { intros row Hrow. exists m. by apply Hall. }
  f_equal.
  assert (∀ s, s ∈ ms ↔ s = m) as Hms.
  { intros s. rewrite Hin. split.
    - intros (row & Hrow & Hcell). rewrite (Hall row Hrow) in Hcell.
      by injection Hcell.
    - intros ->. destruct (df_rows d) as [|row rows] eqn:E; [done|].
      exists row. split; [by left | apply Hall; by left]. }
  destruct ms as [|a ms].
  - exfalso. by eapply not_elem_of_nil, Hms.
  - assert (a = m) as -> by (apply Hms; by left).
    destruct ms as [|b ms]; [done|].
    assert (b = m) as -> by (apply Hms; right; by left).
    apply NoDup_cons in Hnd as [Hnd _]. destruct Hnd. by left.
Qed.

Lemma tagged_concat ds :
  (∀ d row, d ∈ ds → row ∈ df_rows d →
            ∃ s, df_get (df_columns d) row "Metric" = Str s) →
  ∀ row, row ∈ df_rows (concat ds) →
         ∃ s, df_get (df_columns (concat ds)) row "Metric" = Str s.
Proof.
  intros Htag row. unfold concat. cbn [df_rows df_columns].
  intros (d & Hrow & Hd)%list_elem_of_bind.
  apply list_elem_of_fmap in Hrow as (row' & -> & Hrow').
  destruct (Htag d row' Hd Hrow') as [s Hs]. exists s.
  rewrite df_get_relaid; [done | apply NoDup_unique |].
  intros Hc. apply elem_of_union_columns. eauto.
Qed.

Lemma bind_ret_l {A B} (a : A) (k : A → M (K:=K) (V:=V) B) w :
  bind (ret a) k w = k a w.
Proof. done. Qed.

(** [reconcile_all] is the three reconciliations, then [show_report]. *)
Lemma reconcile_all_unfold (preparer reviewer ts : string) (pre_df : ref)
    (pre_login_df int_df sub_df login_df : option ref) :
  reconcile_all (K:=K) (V:=V) preparer reviewer ts pre_df pre_login_df int_df
    sub_df login_df
  = (results <- match int_df with
               | Some int_df =>
                   r <- reconcile_metric pre_df int_df "InteractiveBalance" ;;
                   ret ([] ++ [r])
               | None => ret []
               end ;;
     results <- match sub_df with
               | Some sub_df =>
                   r <- reconcile_metric pre_df sub_df "SubscriptionBalance" ;;
                   ret (results ++ [r])
               | None => ret results
               end ;;
     results <- match login_df, pre_login_df with
               | Some login_df, Some pre_login_df =>
                   r <- reconcile_metric pre_login_df login_df "LastLoginDate" ;;
                   ret (results ++ [r])
               | Some login_df, None =>
                   f <- load pre_df ;;
                   pre_ids <- lift (player_ids f) ;;
                   r <- reconcile_login pre_ids login_df ;;
                   ret (results ++ [r])
               | None, _ => ret results
               end ;;
     show_report preparer reviewer ts (concat_or_empty results)).
Proof. reflexivity. Qed.

Lemma show_report_run (preparer reviewer ts : string) d
    (metrics : list string) w :
  (df_empty d = false → metric_names d = Ok metrics) →
  show_report preparer reviewer ts d w
  = (Ok tt, set_ui (ui w ++ report_widgets preparer reviewer ts d metrics) w).
Proof.
  intros Hm. unfold show_report, report_widgets.
  destruct (df_empty d); cbn [negb]; [done|].
  rewrite Hm by done. unfold bind, lift, show, set_ui. simpl.
  by rewrite <- !app_assoc.
Qed.

(** The page for the reports [ds]. *)
Lemma show_report_concat (preparer reviewer ts : string) ds w :
  (∀ d row, d ∈ ds → row ∈ df_rows d →
            ∃ s, df_get (df_columns d) row "Metric" = Str s) →
  show_report preparer reviewer ts (concat_or_empty ds) w
  = (Ok tt,
     set_ui (ui w
             ++ match total_rows ds with
                | O => [NoMismatches preparer reviewer ts]
                | S _ =>
                    [Summary preparer reviewer ts (total_rows ds)
                       (merge_sort String.le (unique (ds ≫= metric_tags)));
                     StDataframe (concat_or_empty ds);
                     DownloadButton ("exceptions_" +:+ replace_spaces preparer
                                     +:+ "_" +:+ ts +:+ ".csv")
                                    (concat_or_empty ds)]
                end) w).
Proof.
  intros Htag.
  destruct ds as [|d0 ds0]; [done|].
  remember (d0 :: ds0) as ds eqn:Hds.
  assert (concat_or_empty ds = concat ds) as -> by by subst.
  pose proof (concat_rows_length ds) as Hlen.
  destruct (total_rows ds) as [|n] eqn:Htotal.
  - unfold show_report, df_empty.
    destruct (df_rows (concat ds)); [done | simpl in Hlen; lia].
  - rewrite (show_report_run preparer reviewer ts (concat ds)
               (merge_sort String.le (unique (ds ≫= metric_tags)))).
    + unfold report_widgets.
      assert (df_empty (concat ds) = false) as ->; [|by rewrite Hlen].
      unfold df_empty.
      destruct (df_rows (concat ds)) as [|row rows] eqn:Hrows;
        [simpl in Hlen; lia|].
      destruct (tagged_concat ds Htag row) as [s Hs]; [rewrite Hrows; by left|].
      apply metric_tag_text in Hs.
      by destruct (df_columns (concat ds)); [apply elem_of_nil in Hs|].
    + intros Hne. rewrite <- metric_tags_concat. apply metric_names_tags.
      * destruct (df_rows (concat ds)) as [|row rows] eqn:Hrows;
          [simpl in Hlen; lia|].
        destruct (tagged_concat ds Htag row) as [s Hs];
          [rewrite Hrows; by left|].
        by apply metric_tag_text in Hs.
      * by apply tagged_concat.
Qed.

(** X9.  The page for a list of reports whose rows are all tagged with a
    metric, as those of [reconcile_metric] and [reconcile_login] are.
    Without a row in any report the page says that there is no mismatch,
    also when the list is empty.  Otherwise the summary counts the rows of
    all the reports together and lists the metrics of their rows, each
    once, in alphabetical order; the table and the download hold the
    concatenation of the reports. *)
Theorem summary_of_reports (preparer reviewer ts : string) ds w :
  (∀ d row, d ∈ ds → row ∈ df_rows d →
            ∃ s, df_get (df_columns d) row "Metric" = Str s) →
  show_report preparer reviewer ts (concat_or_empty ds) w
  = (Ok tt,
     set_ui (ui w
             ++ match total_rows ds with
                | O => [NoMismatches preparer reviewer ts]
                | S _ =>
                    [Summary preparer reviewer ts (total_rows ds)
                       (merge_sort String.le (unique (ds ≫= metric_tags)));
                     StDataframe (concat_or_empty ds);
                     DownloadButton ("exceptions_" +:+ replace_spaces preparer
                                     +:+ "_" +:+ ts +:+ ".csv")
                                    (concat_or_empty ds)]
                end) w)
  ∧ length (df_rows (concat_or_empty ds)) = total_rows ds.
Proof.
  intros Htag. split; [by apply show_report_concat|].
  destruct ds as [|d ds]; [done|]. apply concat_rows_length.
Qed.
End summary.

Lemma metric_names_sorted_distinct_witness :
  let d : DataFrame Z Z :=
    missing_post [Some 2%Z; Some 5%Z] in
  "Metric" ∈ df_columns d
  ∧ (∀ row, row ∈ df_rows d →
            ∃ s, df_get (df_columns d) row "Metric" = Str s)
  ∧ ∃ metrics, metric_names d = Ok metrics
      ∧ StronglySorted String.le metrics ∧ NoDup metrics.
Proof.
  intros d.
  assert ("Metric" ∈ df_columns d) as Hcol by (right; left).
  assert (∀ row, row ∈ df_rows d →
            ∃ s, df_get (df_columns d) row "Metric" = Str s) as Htext.
  { intros row (pid & -> & _)%list_elem_of_fmap. by eexists. }
  split; [exact Hcol|]. split; [exact Htext|].
  destruct (metric_names_sorted_distinct d Hcol Htext)
    as (metrics & Hm & Hsorted & Hnd & _).
  exists metrics. split; [exact Hm|]. split; [exact Hsorted | exact Hnd].
Defined.

Lemma summary_of_reports_witness :
  let ds : list (DataFrame Z Z) :=
    [missing_post [Some 2%Z]; empty_DataFrame; missing_post [Some 5%Z]] in
  (∀ d row, d ∈ ds → row ∈ df_rows d →
            ∃ s, df_get (df_columns d) row "Metric" = Str s)
  ∧ length (df_rows (concat_or_empty ds)) = total_rows ds.
Proof.
  intros ds.
  assert (∀ d row, d ∈ ds → row ∈ df_rows d →
            ∃ s, df_get (df_columns d) row "Metric" = Str s) as Htag.
  { intros d row Hd Hrow. subst ds.
    repeat (apply elem_of_cons in Hd as [->|Hd]).
    - apply list_elem_of_fmap in Hrow as (pid & -> & _). by eexists.
    - by apply elem_of_nil in Hrow.
    - apply list_elem_of_fmap in Hrow as (pid & -> & _). by eexists.
    - by apply elem_of_nil in Hd. }
  split; [exact Htag|].
  exact (proj2 (summary_of_reports "Ann Lee" "Bob Ray" "20240131_120000" ds
                  SpecExample.world Htag)).
Defined.


(** ** What loading gives back *)

Section round_trip.
Context {K : Type} `{EqDecision K} {V : Type} `{Dtype V}.
Implicit Types (w : World K V) (h : list (Frame K V)).

Lemma loaded_heap_prefix (c : option (Content K V)) h :
  h `prefix_of` loaded_heap c h.
Proof.
  destruct c as [[err|cols body]|]; simpl; [done| |done].
  by apply prefix_app_r.
Qed.

Lemma loaded_ref_table (c : option (Content K V)) h h' :
  loaded_heap c h `prefix_of` h' →
  match c with
  | Some (Csv cols body) =>
      ∃ df, loaded_ref c h = Some df ∧ h' !! df = Some (table_of cols body)
  | _ => loaded_ref c h = None
  end.
Proof.
  intros Hprefix. destruct c as [[err|cols body]|]; [done| |done].
  eexists. split; [done|].
  eapply prefix_lookup_Some; [apply lookup_second | done].
Qed.

(** X10.  Lines 94 to 108 never raise, and every upload comes back as it
    was: the upload of each source is on disk under its own temporary
    path, whatever else was uploaded; a source whose upload parses is
    given a table that holds all the rows of the upload, not the sample of
    100 rows; a source without an upload, or with one that does not parse,
    is given [None]. *)
Theorem load_uploads_round_trip (ts : string) (up : Uploads) w :
  ∃ l w', load_uploads ts up w = (Ok l, w')
    ∧ ∀ s : Source,
        (∀ c, upload s up = Some c →
              files w' !! temp_path ts (label_of s) = Some c)
        ∧ match upload s up with
          | Some (Csv cols body) =>
              ∃ df, loaded_table s l = Some df
                    ∧ heap w' !! df = Some (table_of cols body)
          | _ => loaded_table s l = None
          end.
Proof.
  rewrite load_uploads_run. eexists _, _. split; [done|].
  intros s. split.
  { intros c Hc. cbn [files loaded_world].
    apply saved_files_upload; [apply NoDup_labels|]. by destruct s. }
  cbn [heap loaded_world].
  pose proof (loaded_heap_prefix (post_login_file up)
                (heap_after_sub up (heap w))) as H5.
  pose proof (loaded_heap_prefix (post_sub_file up)
                (heap_after_int up (heap w))) as H4.
  pose proof (loaded_heap_prefix (post_int_file up)
                (heap_after_pre_login up (heap w))) as H3.
  pose proof (loaded_heap_prefix (pre_login_file up)
                (heap_after_pre up (heap w))) as H2.
  fold (heap_after_login up (heap w)) in H5.
  fold (heap_after_sub up (heap w)) in H4.
  fold (heap_after_int up (heap w)) in H3.
  fold (heap_after_pre_login up (heap w)) in H2.
  destruct s; cbn [upload loaded_table].
  - apply (loaded_ref_table (pre_file up) (heap w)).
    fold (heap_after_pre up (heap w)).
    etrans; [exact H2|]. etrans; [exact H3|]. etrans; [exact H4|]. exact H5.
  - apply (loaded_ref_table (pre_login_file up) (heap_after_pre up (heap w))).
    fold (heap_after_pre_login up (heap w)).
    etrans; [exact H3|]. etrans; [exact H4|]. exact H5.
  - apply (loaded_ref_table (post_int_file up)
             (heap_after_pre_login up (heap w))).
    fold (heap_after_int up (heap w)). etrans; [exact H4|]. exact H5.
  - apply (loaded_ref_table (post_sub_file up) (heap_after_int up (heap w))).
    fold (heap_after_sub up (heap w)). exact H5.
  - apply (loaded_ref_table (post_login_file up) (heap_after_sub up (heap w))).
    done.
Qed.
End round_trip.

(** ** The reports on the page *)

Section reports_of_any_dtype.
Context {K : Type} `{EqDecision K} {V : Type} `{Dtype V}.
Implicit Types (w : World K V) (d : DataFrame K V) (pre post : Frame K V).

Local Notation "x <- m ;; k" := (bind m (λ x, k))
  (at level 100, m at next level, right associativity).
Local Notation "m ;; k" := (bind m (λ _, k))
  (at level 100, right associativity).

Lemma reconcile_metric_with_missing (c : positive) (lp lq : ref) (m : string)
    w pre post :
  heap w !! lp = Some pre → heap w !! lq = Some post →
  m ∉ names pre ∨ m ∉ names post →
  reconcile_metric_with c lp lq m w
  = (Ok empty_DataFrame,
     set_log (log w ++ ["Metric " +:+ m +:+ " not found in one of the files"])
             w).
Proof.
  intros Hlp Hlq Hmissing. unfold reconcile_metric_with.
  rewrite (bind_ok _ _ _ _ _ (read_of_ok lp names w pre Hlp)).
  rewrite (bind_ok _ _ _ _ _ (read_of_ok lq names w post Hlq)).
  assert (bool_decide (m ∉ names pre) || bool_decide (m ∉ names post) = true)
    as ->.
  { apply orb_true_iff. rewrite !bool_decide_eq_true. done. }
  done.
Qed.

Lemma metric_tags_missing_post (missing : list (option K)) :
  metric_tags (missing_post (V:=V) missing)
  = (λ _, "LastLoginDate") <$> missing.
Proof.
  unfold metric_tags, missing_post. cbn [df_rows df_columns].
  by rewrite omap_fmap', list_fmap_alt.
Qed.






Lemma reconcile_all_interactive_missing (preparer reviewer ts : string)
    (lp li : ref) w pre post :
  heap w !! lp = Some pre → heap w !! li = Some post →
  "InteractiveBalance" ∉ names pre ∨ "InteractiveBalance" ∉ names post →
  reconcile_all preparer reviewer ts lp None (Some li) None None w
  = (Ok tt,
     set_ui (ui w ++ [NoMismatches preparer reviewer ts])
       (set_log (log w ++ ["Metric InteractiveBalance not found in one of the files"])
          w)).
Proof.
  intros Hlp Hli Hmissing. rewrite reconcile_all_unfold.
  unfold reconcile_metric.
  rewrite (bind_ok _ _ _ _ _
             (bind_ok _ _ _ _ _
                (reconcile_metric_with_missing _ lp li _ w pre post
                   Hlp Hli Hmissing))).
  done.
Qed.


Lemma reconcile_all_login_no_column (preparer reviewer ts : string)
    (lp ll : ref) w pre post :
  heap w !! lp = Some pre → heap w !! ll = Some post →
  indexed pre = false → indexed post = false →
  "LastLoginDate" ∉ columns post →
  reconcile_all preparer reviewer ts lp None None None (Some ll) w
  = (Raise (KeyError "LastLoginDate"), w).
Proof.
  intros Hlp Hll Hpre Hpost Hc. rewrite reconcile_all_unfold.
  rewrite !bind_ret_l.
  erewrite bind_raise; [done|].
  unfold bind at 1, load at 1. rewrite Hlp.
  unfold bind at 1, lift at 1, player_ids. rewrite Hpre.
  by rewrite (bind_raise _ _ _ _ _
                (reconcile_login_no_column _ ll w post Hll Hpost Hc)).
Qed.
End reports_of_any_dtype.

Section reports.
Context {K : Type} `{EqDecision K} {V : Type} `{Numeric V}.
Implicit Types (w : World K V) (d : DataFrame K V) (pre post : Frame K V).

Local Notation "x <- m ;; k" := (bind m (λ x, k))
  (at level 100, m at next level, right associativity).
Local Notation "m ;; k" := (bind m (λ _, k))
  (at level 100, right associativity).






End reports.

(** ** Whole runs *)

Section temporary_files.
Context {K : Type} `{EqDecision K} {V : Type} `{Dtype V}.
Implicit Types (w : World K V)
  (ups : list (string * option (Content K V))).

(** Lines 155 and 156: which files are left. *)
Lemma remove_temporaries_files (paths : list (string * string)) w :
  NoDup paths.*2 → (∀ p, p ∈ paths.*2 → is_Some (files w !! p)) →
  ∃ fs, remove_temporaries paths w = (Ok tt, set_files fs w)
        ∧ ∀ p, fs !! p = if decide (p ∈ paths.*2) then None
                         else files w !! p.
Proof.
  unfold remove_temporaries. revert w.
  induction paths as [|[label p] paths IH]; intros w Hnd Hfiles; simpl in *.
  - exists (files w). rewrite set_files_id. split; [done|].
    intros p. done.
  - apply NoDup_cons in Hnd as [Hnotin Hnd].
    destruct (Hfiles p ltac:(by left)) as [c Hc].
    unfold bind at 1, remove_file at 1. rewrite Hc.
    destruct (IH (set_files (delete p (files w)) w) Hnd) as (fs & Hrun & Hfs).
    { intros p' Hp'. simpl. rewrite lookup_delete_ne.
      - apply Hfiles. by right.
      - by intros ->. }
    exists fs. split; [by rewrite Hrun|].
    intros p'. rewrite Hfs. simpl.
    destruct (decide (p' ∈ paths.*2)) as [Hin|Hin].
    + by rewrite decide_True by by right.
    + destruct (decide (p' = p)) as [->|Hne].
      * rewrite decide_True by by left. apply lookup_delete_eq.
      * rewrite decide_False by (by intros [?|?]%elem_of_cons).
        by apply lookup_delete_ne.
Qed.

Lemma saved_files_unsaved (ts : string) ups (fs : gmap string (Content K V))
    (p : string) :
  p ∉ (saved_paths ts ups).*2 → saved_files ts ups fs !! p = fs !! p.
Proof.
  unfold saved_files. revert fs.
  induction ups as [|[label [c|]] ups IH]; intros fs Hp; [done| |]; simpl in *.
  - apply not_elem_of_cons in Hp as [Hne Hp].
    rewrite IH by done. by apply lookup_insert_ne.
  - by apply IH.
Qed.

Lemma saved_paths_elem (ts label : string) (c : Content K V) ups :
  (label, Some c) ∈ ups → temp_path ts label ∈ (saved_paths ts ups).*2.
Proof.
  induction ups as [|[label' [c'|]] ups IH]; simpl.
  - by intros ?%elem_of_nil.
  - intros [[= -> ->]|Hin]%elem_of_cons; [by left | right; by apply IH].
  - intros [[=]|Hin]%elem_of_cons. by apply IH.
Qed.

(** The handler after a reconciliation that returned, and after one that
    raised. *)
Lemma run_reconciliation_returned (preparer reviewer ts : string)
    (up : Uploads) w (u : unit) w2 :
  pre_file up ≠ None → preparer ≠ "" → reviewer ≠ "" →
  report_or_error preparer reviewer ts (loaded ts up (heap w))
    (loaded_world ts up w) = (Ok u, w2) →
  ∃ fs, run_reconciliation preparer reviewer ts up w
        = (Ok tt, set_files fs w2)
        ∧ ∀ p, fs !! p
               = if decide (p ∈ (saved_paths ts (labelled up)).*2) then None
                 else files w !! p.
Proof.
  intros Hpre Hp Hr Hrun. rewrite run_reconciliation_loaded by done.
  pose proof (report_or_error_files preparer reviewer ts
                (loaded ts up (heap w)) (loaded_world ts up w)) as Hfiles.
  rewrite Hrun in Hfiles |- *. cbn [snd loaded_world files] in Hfiles.
  destruct (remove_temporaries_files (saved_paths ts (labelled up)) w2)
    as (fs & Hrm & Hfs).
  { apply NoDup_saved_paths, NoDup_labels. }
  { intros p (label & c & Hin & ->)%elem_of_saved_paths.
    rewrite Hfiles. exists c. apply saved_files_upload; [apply NoDup_labels|].
    apply upload_at_elem; [apply NoDup_labels | done]. }
  exists fs. split; [done|].
  intros p. rewrite Hfs. destruct (decide _) as [|Hnotin]; [done|].
  rewrite Hfiles. by apply saved_files_unsaved.
Qed.

Lemma run_reconciliation_raised (preparer reviewer ts : string)
    (up : Uploads) w (e : exn) w2 :
  pre_file up ≠ None → preparer ≠ "" → reviewer ≠ "" →
  report_or_error preparer reviewer ts (loaded ts up (heap w))
    (loaded_world ts up w) = (Raise e, w2) →
  run_reconciliation preparer reviewer ts up w = (Raise e, w2)
  ∧ files w2 = saved_files ts (labelled up) (files w).
Proof.
  intros Hpre Hp Hr Hrun. rewrite run_reconciliation_loaded by done.
  pose proof (report_or_error_files preparer reviewer ts
                (loaded ts up (heap w)) (loaded_world ts up w)) as Hfiles.
  rewrite Hrun in Hfiles |- *. done.
Qed.

(** X16.  The temporary files of a run that got past its two checks.  A
    file that is not the temporary file of an upload is left as it was.
    When the run returns, the temporary file of every upload is gone;
    when it raises, the temporary file of every upload is still on disk,
    with the upload in it. *)
Theorem run_reconciliation_temporary_files (preparer reviewer ts : string)
    (up : Uploads) w :
  pre_file up ≠ None → preparer ≠ "" → reviewer ≠ "" →
  let run := run_reconciliation preparer reviewer ts up w in
  (∀ p, (∀ label c, (label, Some c) ∈ labelled up → p ≠ temp_path ts label) →
        files run.2 !! p = files w !! p)
  ∧ match run.1 with
    | Ok _ =>
        ∀ label c, (label, Some c) ∈ labelled up →
                   files run.2 !! temp_path ts label = None
    | Raise _ =>
        ∀ label c, (label, Some c) ∈ labelled up →
                   files run.2 !! temp_path ts label = Some c
    end.
Proof.
  intros Hpre Hp Hr run. subst run.
  assert (∀ p, (∀ label c, (label, Some c) ∈ labelled up →
                           p ≠ temp_path ts label) →
               p ∉ (saved_paths ts (labelled up)).*2) as Hother.
  { intros p Hne (label & c & Hin & ->)%elem_of_saved_paths.
    by eapply Hne. }
  destruct (report_or_error preparer reviewer ts (loaded ts up (heap w))
              (loaded_world ts up w)) as [[u|e] w2] eqn:Hrun.
  - destruct (run_reconciliation_returned preparer reviewer ts up w u w2
                Hpre Hp Hr Hrun) as (fs & -> & Hfs).
    cbn [fst snd files set_files]. split.
    + intros p Hne. rewrite Hfs. by rewrite decide_False by by apply Hother.
    + intros label c Hin. rewrite Hfs.
      by rewrite decide_True by by eapply saved_paths_elem.
  - destruct (run_reconciliation_raised preparer reviewer ts up w e w2
                Hpre Hp Hr Hrun) as (-> & Hfiles).
    cbn [fst snd]. rewrite Hfiles. split.
    + intros p Hne. by apply saved_files_unsaved, Hother.
    + intros label c Hin.
      apply saved_files_upload; [apply NoDup_labels|].
      apply upload_at_elem; [apply NoDup_labels | done].
Qed.
End temporary_files.

Section runs_of_any_dtype.
Context {K : Type} `{EqDecision K} {V : Type} `{Dtype V}.
Implicit Types (w : World K V) (d : DataFrame K V) (pre post : Frame K V)
  (ups : list (string * option (Content K V))).

Local Notation "x <- m ;; k" := (bind m (λ x, k))
  (at level 100, m at next level, right associativity).
Local Notation "m ;; k" := (bind m (λ _, k))
  (at level 100, right associativity).




(** X14.  A run with the pre file and a post LastLoginDate file that has
    no [LastLoginDate] column, and without a pre LastLogin file: the run
    does not return, it raises the [KeyError] of [reconcile_login]; the
    page gets nothing, no message either, and the temporary files of the
    two uploads stay on disk. *)
Theorem run_reconciliation_login_without_column
    (preparer reviewer ts : string)
    (pre_cols : list string) (pre_body : list (Row K V))
    (login_cols : list string) (login_body : list (Row K V)) w :
  preparer ≠ "" → reviewer ≠ "" → "LastLoginDate" ∉ login_cols →
  let up := {| pre_file := Some (Csv pre_cols pre_body);
               pre_login_file := None;
               post_int_file := None;
               post_sub_file := None;
               post_login_file := Some (Csv login_cols login_body) |} in
  let run := run_reconciliation preparer reviewer ts up w in
  run.1 = Raise (KeyError "LastLoginDate")
  ∧ ui run.2 = ui w
  ∧ files run.2 !! temp_path ts "pre" = Some (Csv pre_cols pre_body)
  ∧ files run.2 !! temp_path ts "login" = Some (Csv login_cols login_body).
Proof.
  intros Hp Hr Hc up run.
  set (h := heap w). set (pre := table_of pre_cols pre_body).
  set (sample := table_of pre_cols (take_N 100 pre_body)).
  pose proof (reconcile_all_login_no_column preparer reviewer ts
                (S (length h)) (S (length (h ++ [sample; pre])))
                (loaded_world ts up w) pre
                (table_of login_cols login_body)) as Hall.
  destruct (run_reconciliation_raised preparer reviewer ts up w
              (KeyError "LastLoginDate") (loaded_world ts up w))
    as (Hrun & Hfiles); [done | done | done | |].
  { apply Hall; [|by (cbn; fold h; apply lookup_second)|done|done|done].
    cbn. fold h. rewrite <- app_assoc. apply lookup_second. }
  subst run. rewrite Hrun. cbn [fst snd]. split; [done|]. split; [done|].
  rewrite Hfiles.
  split; (apply saved_files_upload; [apply NoDup_labels | done]).
Qed.

(** X15.  The message that there is no mismatch is also what a run shows
    that compared nothing: a run with the pre file alone; and a run with
    the pre file and a post InteractiveBalance file when the column is
    missing from one of the two, where the only trace is the line
    [Metric InteractiveBalance not found in one of the files] in the
    log. *)
Theorem run_reconciliation_nothing_compared (preparer reviewer ts : string)
    (pre_cols : list string) (pre_body : list (Row K V))
    (int_cols : list string) (int_body : list (Row K V)) w :
  preparer ≠ "" → reviewer ≠ "" →
  (let up := {| pre_file := Some (Csv pre_cols pre_body);
                pre_login_file := None;
                post_int_file := None;
                post_sub_file := None;
                post_login_file := None |} in
   let run := run_reconciliation preparer reviewer ts up w in
   run.1 = Ok tt ∧ ui run.2 = ui w ++ [NoMismatches preparer reviewer ts])
  ∧ ("InteractiveBalance" ∉ pre_cols ∨ "InteractiveBalance" ∉ int_cols →
     let up := {| pre_file := Some (Csv pre_cols pre_body);
                  pre_login_file := None;
                  post_int_file := Some (Csv int_cols int_body);
                  post_sub_file := None;
                  post_login_file := None |} in
     let run := run_reconciliation preparer reviewer ts up w in
     run.1 = Ok tt
     ∧ ui run.2 = ui w ++ [NoMismatches preparer reviewer ts]
     ∧ log run.2
       = log w ++ [columns_message (temp_path ts "pre") pre_cols;
                   columns_message (temp_path ts "int") int_cols;
                   "Metric InteractiveBalance not found in one of the files"]).
Proof.
  intros Hp Hr. split.
  - intros up run.
    destruct (run_reconciliation_returned preparer reviewer ts up w tt
                (set_ui (ui w ++ [NoMismatches preparer reviewer ts])
                        (loaded_world ts up w))
                ltac:(done) Hp Hr) as (fs & Hrun & _); [done|].
    subst run. by rewrite Hrun.
  - intros Hmissing up run.
    set (h := heap w). set (pre := table_of pre_cols pre_body).
    set (sample := table_of pre_cols (take_N 100 pre_body)).
    pose proof (reconcile_all_interactive_missing preparer reviewer ts
                  (S (length h)) (S (length (h ++ [sample; pre])))
                  (loaded_world ts up w) pre
                  (table_of int_cols int_body)) as Hall.
    destruct (run_reconciliation_returned preparer reviewer ts up w tt _
                ltac:(done) Hp Hr
                (Hall ltac:(cbn; fold h; rewrite <- app_assoc;
                            apply lookup_second)
                      ltac:(cbn; fold h; apply lookup_second)
                      ltac:(unfold names; cbn; rewrite !not_elem_of_cons;
                            destruct Hmissing; [left|right]; by split)))
      as (fs & Hrun & _).
    subst run. rewrite Hrun.
    cbn [fst snd ui log set_files set_ui set_log loaded_world].
    split; [done|]. split; [done|].
    unfold loaded_log. cbn. by rewrite <- app_assoc.
Qed.
End runs_of_any_dtype.

Section runs.
Context {K : Type} `{EqDecision K} {V : Type} `{Numeric V}.
Implicit Types (w : World K V) (d : DataFrame K V) (pre post : Frame K V)
  (ups : list (string * option (Content K V))).

Local Notation "x <- m ;; k" := (bind m (λ x, k))
  (at level 100, m at next level, right associativity).
Local Notation "m ;; k" := (bind m (λ _, k))
  (at level 100, right associativity).



End runs.


(** ** The log is only added to *)

Section growth.
Context {K : Type} `{EqDecision K} {V : Type} `{Dtype V}.
Implicit Types (w : World K V) (f g : Frame K V).
Local Notation "x <- m ;; k" := (bind m (λ x, k))
  (at level 100, m at next level, right associativity).
Local Notation "m ;; k" := (bind m (λ _, k))
  (at level 100, right associativity).

Lemma grows_bind {A B} (m : M (K:=K) (V:=V) A) (k : A → M B) :
  grows m → (∀ a, grows (k a)) → grows (bind m k).
Proof.
  intros Hm Hk w. unfold bind. pose proof (Hm w) as Hl.
  destruct (m w) as [[a|e] w1]; simpl in *; [|done].
  pose proof (Hk a w1) as Hl'. by etrans.
Qed.

Lemma grows_try_except {A} (body : M (K:=K) (V:=V) A) (handler : exn → M A) :
  grows body → (∀ e, grows (handler e)) → grows (try_except body handler).
Proof.
  intros Hm Hk w. unfold try_except. pose proof (Hm w) as Hl.
  destruct (body w) as [[a|e] w1]; simpl in *; [done|].
  pose proof (Hk e w1) as Hl'. by etrans.
Qed.

Lemma grows_ret {A} (a : A) : grows (ret (K:=K) (V:=V) a).
Proof. by intros w. Qed.

Lemma grows_lift {A} (r : result A) : grows (lift (K:=K) (V:=V) r).
Proof. by intros w. Qed.

Lemma grows_load (l : ref) : grows (load (K:=K) (V:=V) l).
Proof. intros w. unfold load. by destruct (heap w !! l). Qed.

Lemma grows_alloc f : grows (alloc f).
Proof. by intros w. Qed.

Lemma grows_store (l : ref) f : grows (store l f).
Proof. by intros w. Qed.

Lemma grows_log_msg (msg : string) : grows (log_msg (K:=K) (V:=V) msg).
Proof. intros w. by apply prefix_app_r. Qed.

Lemma grows_show (x : Widget K V) : grows (show x).
Proof. by intros w. Qed.

Lemma grows_st_error (msg : string) : grows (st_error (K:=K) (V:=V) msg).
Proof. by intros w. Qed.

Lemma grows_write_file (path : string) (c : Content K V) :
  grows (write_file path c).
Proof. by intros w. Qed.

Lemma grows_remove_file (path : string) :
  grows (remove_file (K:=K) (V:=V) path).
Proof. intros w. unfold remove_file. by destruct (files w !! path). Qed.

Lemma grows_read_csv (path : option string) (nrows : option N) :
  grows (read_csv (K:=K) (V:=V) path nrows).
Proof.
  intros w. unfold read_csv. destruct path as [p|]; [|done].
  by destruct (files w !! p) as [[err|cols body]|].
Qed.

Lemma grows_new_from (l : ref) (op : Frame K V → result (Frame K V)) :
  grows (new_from l op).
Proof.
  unfold new_from. apply grows_bind; [apply grows_load|]. intros f.
  apply grows_bind; [apply grows_lift|]. intros f'. apply grows_alloc.
Qed.

Lemma grows_in_place (l : ref) (op : Frame K V → result (Frame K V)) :
  grows (in_place l op).
Proof.
  unfold in_place. apply grows_bind; [apply grows_load|]. intros f.
  apply grows_bind; [apply grows_lift|]. intros f'. apply grows_store.
Qed.

Lemma grows_read_of {A} (l : ref) (op : Frame K V → A) :
  grows (read_of l op).
Proof.
  unfold read_of. apply grows_bind; [apply grows_load|]. intros f.
  apply grows_ret.
Qed.

Lemma grows_value_from (l : ref) (op : Frame K V → result (Frame K V)) :
  grows (value_from l op).
Proof.
  unfold value_from. apply grows_bind; [apply grows_load|]. intros f.
  apply grows_lift.
Qed.

Lemma grows_for_each {A B} (xs : list A)
    (body : B → A → M (K:=K) (V:=V) B) (acc : B) :
  (∀ acc x, grows (body acc x)) → grows (for_each xs body acc).
Proof.
  intros Hbody. revert acc. induction xs as [|x xs IH]; intros acc; simpl.
  - apply grows_ret.
  - apply grows_bind; [apply Hbody|]. intros acc'. apply IH.
Qed.

Lemma grows_reconcile_metric (lp lq : ref) (m : string) :
  grows (reconcile_metric (K:=K) (V:=V) lp lq m).
Proof.
  unfold reconcile_metric, reconcile_metric_with.
  apply grows_bind; [apply grows_read_of|]. intros pre_columns.
  apply grows_bind; [apply grows_read_of|]. intros post_columns.
  destruct (_ || _).
  { apply grows_bind; [apply grows_log_msg|]. intros _. apply grows_ret. }
  apply grows_bind; [apply grows_new_from|]. intros p0.
  apply grows_bind; [apply grows_new_from|]. intros p.
  apply grows_bind; [apply grows_new_from|]. intros q0.
  apply grows_bind; [apply grows_new_from|]. intros q.
  apply grows_bind; [apply grows_in_place|]. intros _.
  apply grows_bind; [apply grows_in_place|]. intros _.
  apply grows_bind; [apply grows_read_of|]. intros pre_index.
  apply grows_bind; [apply grows_read_of|]. intros post_index.
  apply grows_bind; [|intros result; apply grows_ret].
  apply grows_for_each. intros acc i. unfold reconcile_chunk.
  apply grows_bind; [apply grows_value_from|]. intros pre_chunk.
  apply grows_bind; [apply grows_value_from|]. intros post_chunk.
  apply grows_bind; [apply grows_lift|]. intros merged.
  apply grows_bind; [apply grows_lift|]. intros mismatches.
  apply grows_ret.
Qed.

Lemma grows_reconcile_login (pre_ids : list (option K)) (lq : ref) :
  grows (reconcile_login (V:=V) pre_ids lq).
Proof.
  unfold reconcile_login.
  apply grows_bind; [apply grows_new_from|]. intros q0.
  apply grows_bind; [apply grows_new_from|]. intros q.
  apply grows_bind; [apply grows_in_place|]. intros _.
  apply grows_bind; [apply grows_read_of|]. intros post_index.
  apply grows_ret.
Qed.

Lemma grows_reconcile_all (preparer reviewer ts : string) (pre_df : ref)
    (pre_login_df int_df sub_df login_df : option ref) :
  grows (reconcile_all (K:=K) (V:=V) preparer reviewer ts pre_df
           pre_login_df int_df sub_df login_df).
Proof.
  unfold reconcile_all.
  apply grows_bind.
  { destruct int_df; [|apply grows_ret].
    apply grows_bind; [apply grows_reconcile_metric|]. intros ?.
    apply grows_ret. }
  intros results1. apply grows_bind.
  { destruct sub_df; [|apply grows_ret].
    apply grows_bind; [apply grows_reconcile_metric|]. intros ?.
    apply grows_ret. }
  intros results2. apply grows_bind.
  { destruct login_df as [login_df|]; [|apply grows_ret].
    destruct pre_login_df as [pre_login_df|].
    - apply grows_bind; [apply grows_reconcile_metric|]. intros ?.
      apply grows_ret.
    - apply grows_bind; [apply grows_load|]. intros f.
      apply grows_bind; [apply grows_lift|]. intros pre_ids.
      apply grows_bind; [apply grows_reconcile_login|]. intros ?.
      apply grows_ret. }
  intros results3. destruct (negb _); [|apply grows_show].
  apply grows_bind; [apply grows_lift|]. intros metrics.
  apply grows_bind; [apply grows_show|]. intros _.
  apply grows_bind; [apply grows_show|]. intros _.
  apply grows_show.
Qed.

Lemma grows_report_or_error (preparer reviewer ts : string) (l : Loaded) :
  grows (report_or_error (K:=K) (V:=V) preparer reviewer ts l).
Proof.
  unfold report_or_error.
  destruct (pre_of l); [apply grows_reconcile_all | apply grows_st_error].
Qed.

Lemma grows_validate_file (path : option string)
    (required_cols : option (list string)) :
  grows (validate_file (K:=K) (V:=V) path required_cols).
Proof.
  unfold validate_file. apply grows_try_except.
  - apply grows_bind; [apply grows_read_csv|]. intros df.
    apply grows_bind; [apply grows_read_of|]. intros df_columns.
    apply grows_bind; [apply grows_log_msg|]. intros _.
    apply grows_bind.
    { destruct required_cols as [[|c required]|]; try apply grows_ret.
      cbv zeta. destruct (filter _ _); [apply grows_ret | apply grows_log_msg]. }
    intros _. apply grows_bind; [apply grows_read_csv|]. intros df'.
    apply grows_ret.
  - intros e. apply grows_bind; [apply grows_log_msg|]. intros _.
    apply grows_ret.
Qed.

Lemma grows_validate_optional (paths : list (string * string))
    (label : string) :
  grows (validate_optional (K:=K) (V:=V) paths label).
Proof.
  unfold validate_optional.
  destruct (bool_decide _); [apply grows_validate_file | apply grows_ret].
Qed.

Lemma grows_save_uploads (ts : string)
    (ups : list (string * option (Content K V))) :
  grows (save_uploads ts ups).
Proof.
  unfold save_uploads. apply grows_for_each. intros paths [label [c|]].
  - apply grows_bind; [apply grows_write_file|]. intros _. apply grows_ret.
  - apply grows_ret.
Qed.

Lemma grows_load_uploads (ts : string) (up : Uploads) :
  grows (load_uploads (K:=K) (V:=V) ts up).
Proof.
  unfold load_uploads.
  apply grows_bind; [apply grows_save_uploads|]. intros paths.
  apply grows_bind; [apply grows_validate_file|]. intros pre_df.
  apply grows_bind; [apply grows_validate_optional|]. intros pre_login_df.
  apply grows_bind; [apply grows_validate_optional|]. intros int_df.
  apply grows_bind; [apply grows_validate_optional|]. intros sub_df.
  apply grows_bind; [apply grows_validate_optional|]. intros login_df.
  apply grows_ret.
Qed.

Lemma grows_remove_temporaries (paths : list (string * string)) :
  grows (remove_temporaries (K:=K) (V:=V) paths).
Proof.
  unfold remove_temporaries. apply grows_for_each. intros [] p.
  apply grows_remove_file.
Qed.

Lemma grows_run_reconciliation (preparer reviewer ts : string)
    (up : Uploads) :
  grows (run_reconciliation (K:=K) (V:=V) preparer reviewer ts up).
Proof.
  unfold run_reconciliation.
  destruct (bool_decide _); [apply grows_st_error|].
  destruct (_ || _); [apply grows_st_error|].
  apply grows_bind; [apply grows_load_uploads|]. intros l.
  apply grows_bind; [apply grows_report_or_error|]. intros _.
  apply grows_remove_temporaries.
Qed.

Lemma loaded_log_nonempty (ts : string) (up : Uploads (K:=K) (V:=V)) :
  loaded_log ts up ≠ [].
Proof.
  unfold loaded_log, pre_entries.
  by destruct (pre_file up) as [[err|cols body]|].
Qed.

(** X17.  The log is only added to: whatever a run does and however it
    ends, the log it leaves begins with the log it found.  A run leaves no
    new line exactly when it is turned down by one of its two checks, the
    check for the pre file coming first; such a run shows its error
    message and does nothing else. *)
Theorem run_reconciliation_log (preparer reviewer ts : string)
    (up : Uploads) w :
  let run := run_reconciliation preparer reviewer ts up w in
  log w `prefix_of` log run.2
  ∧ (log run.2 = log w
     ↔ pre_file up = None ∨ preparer = "" ∨ reviewer = "")
  ∧ (pre_file up = None →
     run = (Ok tt,
            set_ui (ui w ++ [StError "Please upload the Pre-Migration file."])
                   w))
  ∧ (pre_file up ≠ None → preparer = "" ∨ reviewer = "" →
     run = (Ok tt,
            set_ui (ui w ++ [StError
                      "Please enter both preparer and reviewer names."])
                   w)).
Proof.
  intros run.
  pose proof (grows_run_reconciliation preparer reviewer ts up w) as Hlog.
  fold run in Hlog. split; [done|].
  assert (pre_file up = None →
          run = (Ok tt,
                 set_ui (ui w ++ [StError
                           "Please upload the Pre-Migration file."]) w))
    as Hnopre.
  { intros Hpre. subst run. unfold run_reconciliation.
    by rewrite bool_decide_true by done. }
  assert (pre_file up ≠ None → preparer = "" ∨ reviewer = "" →
          run = (Ok tt,
                 set_ui (ui w ++ [StError
                           "Please enter both preparer and reviewer names."])
                        w))
    as Hnoname.
  { intros Hpre Hnames. subst run. unfold run_reconciliation.
    rewrite bool_decide_false by done.
    assert (bool_decide (preparer = "") || bool_decide (reviewer = "") = true)
      as ->; [|done].
    apply orb_true_iff. by rewrite !bool_decide_eq_true. }
  split; [|done]. split.
  - intros Heq.
    destruct (decide (pre_file up = None)) as [|Hpre]; [by left|].
    destruct (decide (preparer = "")) as [|Hp]; [right; by left|].
    destruct (decide (reviewer = "")) as [|Hr]; [right; by right|].
    exfalso. subst run.
    rewrite run_reconciliation_loaded in Heq by done.
    pose proof (grows_report_or_error preparer reviewer ts
                  (loaded ts up (heap w)) (loaded_world ts up w)) as Hl1.
    destruct (report_or_error _ _ _ _ _) as [[u|e] w2]; simpl in *.
    + pose proof (grows_remove_temporaries (saved_paths ts (labelled up)) w2)
        as Hl2.
      assert (log w ++ loaded_log ts up `prefix_of` log w) as Hbad.
      { rewrite <- Heq at 2. by etrans. }
      apply prefix_length in Hbad. rewrite length_app in Hbad.
      pose proof (loaded_log_nonempty ts up).
      destruct (loaded_log ts up); [done | simpl in Hbad; lia].
    + rewrite Heq in Hl1. apply prefix_length in Hl1.
      rewrite length_app in Hl1.
      pose proof (loaded_log_nonempty ts up).
      destruct (loaded_log ts up); [done | simpl in Hl1; lia].
  - intros Hrej.
    destruct (decide (pre_file up = None)) as [Hpre|Hpre].
    + by rewrite (Hnopre Hpre).
    + destruct Hrej as [?|Hnames]; [done|]. by rewrite (Hnoname Hpre Hnames).
Qed.
End growth.

(** ** The runs on the example files *)




Lemma run_reconciliation_login_without_column_witness :
  "Ann Lee" ≠ "" ∧ "Bob Ray" ≠ ""
  ∧ ("LastLoginDate" ∉ ["InteractiveBalance"])
  ∧ (run_reconciliation "Ann Lee" "Bob Ray" "20240131_120000"
       {| pre_file := Some (Csv MoreExamples.pre_cols MoreExamples.pre_body);
          pre_login_file := None;
          post_int_file := None;
          post_sub_file := None;
          post_login_file :=
            Some (Csv ["InteractiveBalance"] MoreExamples.int_body) |}
       SpecExample.world).1 = Raise (KeyError "LastLoginDate").
Proof.
  assert ("LastLoginDate" ∉ ["InteractiveBalance"]) as Hc.
  { apply (bool_decide_unpack _). vm_compute. exact I. }
  split; [discriminate|]. split; [discriminate|]. split; [exact Hc|].
  exact (proj1 (run_reconciliation_login_without_column
                  "Ann Lee" "Bob Ray" "20240131_120000"
                  MoreExamples.pre_cols MoreExamples.pre_body
                  ["InteractiveBalance"] MoreExamples.int_body
                  SpecExample.world
                  ltac:(discriminate) ltac:(discriminate) Hc)).
Defined.

Lemma run_reconciliation_nothing_compared_witness :
  "Ann Lee" ≠ "" ∧ "Bob Ray" ≠ ""
  ∧ ("InteractiveBalance" ∉ MoreExamples.pre_cols
     ∨ "InteractiveBalance" ∉ ["SubscriptionBalance"])
  ∧ ui (run_reconciliation "Ann Lee" "Bob Ray" "20240131_120000"
          {| pre_file :=
               Some (Csv MoreExamples.pre_cols MoreExamples.pre_body);
             pre_login_file := None;
             post_int_file :=
               Some (Csv ["SubscriptionBalance"] MoreExamples.sub_body);
             post_sub_file := None;
             post_login_file := None |} SpecExample.world).2
    = ui SpecExample.world
      ++ [NoMismatches "Ann Lee" "Bob Ray" "20240131_120000"].
Proof.
  assert ("InteractiveBalance" ∉ MoreExamples.pre_cols
          ∨ "InteractiveBalance" ∉ ["SubscriptionBalance"]) as Hmissing.
  { right. apply (bool_decide_unpack _). vm_compute. exact I. }
  split; [discriminate|]. split; [discriminate|]. split; [exact Hmissing|].
  destruct (run_reconciliation_nothing_compared
              "Ann Lee" "Bob Ray" "20240131_120000"
              MoreExamples.pre_cols MoreExamples.pre_body
              ["SubscriptionBalance"] MoreExamples.sub_body
              SpecExample.world ltac:(discriminate) ltac:(discriminate))
    as [_ Hsecond].
  exact (proj1 (proj2 (Hsecond Hmissing))).
Defined.

Lemma run_reconciliation_temporary_files_witness :
  pre_file MoreExamples.uploads ≠ None ∧ "Ann Lee" ≠ "" ∧ "Bob Ray" ≠ ""
  ∧ let ts := "20240131_120000" in
    let up := MoreExamples.uploads in
    let w := SpecExample.world in
    let run := run_reconciliation "Ann Lee" "Bob Ray" ts up w in
    (∀ p, (∀ label c, (label, Some c) ∈ labelled up →
                      p ≠ temp_path ts label) →
          files run.2 !! p = files w !! p)
    ∧ match run.1 with
      | Ok _ =>
          ∀ label c, (label, Some c) ∈ labelled up →
                     files run.2 !! temp_path ts label = None
      | Raise _ =>
          ∀ label c, (label, Some c) ∈ labelled up →
                     files run.2 !! temp_path ts label = Some c
      end.
Proof.
  split; [discriminate|]. split; [discriminate|]. split; [discriminate|].
  intros ts up w.
  apply (run_reconciliation_temporary_files "Ann Lee" "Bob Ray" ts up w);
    discriminate.
Defined.

(** The run on the four example files: one InteractiveBalance exception,
    one SubscriptionBalance exception and one player without a date,
    under the union of the columns of the three reports; the temporary
    files are gone. *)
Example run_reconciliation_example :
  let run := run_reconciliation "Ann Lee" "Bob Ray" "20240131_120000"
               MoreExamples.uploads SpecExample.world in
  let all_ex : DataFrame Z Z :=
    {| df_columns :=
         ["PlayerID"; "InteractiveBalance_pre"; "InteractiveBalance_post";
          "diff"; "Metric"; "SubscriptionBalance_pre";
          "SubscriptionBalance_post"; "Status"];
       df_rows :=
         [[Key 2%Z; Num 200%Z; Num 250%Z; Num (-50)%Z;
           Str "InteractiveBalance"; NaN; NaN; NaN];
          [Key 3%Z; NaN; NaN; Num 1%Z; Str "SubscriptionBalance";
           Num 9%Z; Num 8%Z; NaN];
          [Key 2%Z; NaN; NaN; NaN; Str "LastLoginDate"; NaN; NaN;
           Str "Missing Post"]] |} in
  run.1 = Ok tt
  ∧ ui run.2
    = [Summary "Ann Lee" "Bob Ray" "20240131_120000" 3
         ["InteractiveBalance"; "LastLoginDate"; "SubscriptionBalance"];
       StDataframe all_ex;
       DownloadButton "exceptions_Ann_Lee_20240131_120000.csv" all_ex]
  ∧ files run.2 = ∅.
Proof. vm_compute. done. Qed.
